(** * Design patterns in Python: mixins and singletons

    A shallow embedding of the demonstration programs under
    [src/patterns/mixins] and [src/patterns/singleton], and the properties
    the specification states about them.

    Definitions:
    - [Py]: the fragment of Python the programs rely on: values,
      exceptions, the effect monad, [int], [str.lower], the C3
      linearisation, objects and the process state, method calls along the
      MRO;
    - [AttributeModifyingMixin], [MixinConstructorPitfall]: the mixin files;
    - [Singleton]: the decorator's [get_instance] and
      [SingletonMeta.__call__], for any wrapped class;
    - [Config], [MetaclassExample], [NewPitfall]: the configuration
      managers;
    - [DecoratorSubclassing]: the class statement applied to a decorated
      name, and [Logger] / [FileLogger] under the metaclass;
    - [ThreadSafety]: the interleaving semantics of the guarded and
      unguarded accessors of [decorator_thread_safety_issue.py];
    - [MixinSimple]: the animals of [mixin_simple_example.py];
    - [NewPitfallAccess]: [ConfigManager.get] of [01_new_pitfall.py].

    Properties: one module of facts for each of the above; further facts
    about the same programs in [PizzaFacts], [MixinSimpleFacts],
    [ConstructorFacts], [ThreadSafetyMore], [SubclassingFacts],
    [ConfigurationFacts] and [NewPitfallMore]; then [Instances] and
    [Examples], where the general statements are applied to the classes
    of the repository. *)

From stdpp Require Import base option list gmap strings pretty.
From Stdlib Require Import ZArith Lia Ascii.

Local Open Scope string_scope.
Local Open Scope list_scope.
Local Open Scope nat_scope.

Set Warnings "-register-all".

(* ===================================================================== *)
(** ** The Python fragment *)
(* ===================================================================== *)

Module Py.

(** Values stored in attributes and dictionaries. *)
Inductive value : Type :=
| VNone
| VBool (b : bool)
| VInt (z : Z)
| VStr (s : string)
| VList (l : list value)
| VDict (d : gmap string value).

(** The built-in exceptions the programs can raise. *)
Inductive exn : Type :=
| TypeError
| ValueError
| AttributeError (name : string)
| KeyError
| RecursionError
| NotModelled.      (* the program left the fragment embedded here *)

Inductive result (A : Type) : Type :=
| Ok (a : A)
| Raise (e : exn).
Arguments Ok {A} a.
Arguments Raise {A} e.

(** Effectful code: a state transformer that returns or raises.  The state
    survives an exception, as side effects do in Python. *)
Definition M (W A : Type) : Type := W → result A * W.

Definition ret {W A} (a : A) : M W A := λ w, (Ok a, w).

Definition raise {W A} (e : exn) : M W A := λ w, (Raise e, w).

Definition bind {W A B} (m : M W A) (k : A → M W B) : M W B :=
  λ w, match m w with
       | (Ok a, w') => k a w'
       | (Raise e, w') => (Raise e, w')
       end.

Definition modify {W} (f : W → W) : M W unit := λ w, (Ok tt, f w).

Definition lift {W A} (r : result A) : M W A := λ w, (r, w).

(** [bool(v)]: truth value testing. *)
Definition truthy (v : value) : bool :=
  match v with
  | VNone => false
  | VBool b => b
  | VInt z => negb (z =? 0)%Z
  | VStr s => negb (String.eqb s "")
  | VList l => match l with [] => false | _ => true end
  | VDict d => match map_to_list d with [] => false | _ => true end
  end.

(** [sep.join(l)]: every item must be a [str]. *)
Fixpoint str_join (sep : string) (l : list value) : result string :=
  match l with
  | [] => Ok ""
  | [VStr s] => Ok s
  | VStr s :: rest =>
      match str_join sep rest with
      | Ok r => Ok (s +:+ sep +:+ r)
      | Raise e => Raise e
      end
  | _ :: _ => Raise TypeError
  end.

(** *** Strings and numbers *)

(** [str.lower] on ASCII letters. *)
Definition lower_ascii (a : ascii) : ascii :=
  let n := nat_of_ascii a in
  if ((65 <=? n) && (n <=? 90))%nat then ascii_of_nat (n + 32) else a.

Fixpoint str_lower (s : string) : string :=
  match s with
  | EmptyString => EmptyString
  | String a rest => String (lower_ascii a) (str_lower rest)
  end.

(** The characters [int] strips from both ends of its argument. *)
Definition is_space (a : ascii) : bool :=
  let n := nat_of_ascii a in
  (((9 <=? n) && (n <=? 13)) || ((28 <=? n) && (n <=? 32)))%nat.

Definition digit_of (a : ascii) : option Z :=
  let n := nat_of_ascii a in
  if ((48 <=? n) && (n <=? 57))%nat then Some (Z.of_nat (n - 48)) else None.

Fixpoint lstrip (l : list ascii) : list ascii :=
  match l with
  | a :: rest => if is_space a then lstrip rest else l
  | [] => []
  end.

Definition strip (l : list ascii) : list ascii :=
  rev (lstrip (rev (lstrip l))).

(** Decimal digits, single underscores allowed between two digits. *)
Fixpoint digits_value (acc : Z) (after_digit : bool) (l : list ascii)
  : option Z :=
  match l with
  | [] => if after_digit then Some acc else None
  | a :: rest =>
      match digit_of a with
      | Some d => digits_value (10 * acc + d) true rest
      | None =>
          if after_digit && bool_decide (a = "_"%char)
          then digits_value acc false rest
          else None
      end
  end.

(** [int(s)] for a [str] in base ten; [ValueError] on anything else.
    Strings are taken to be ASCII: the digits and blanks of other scripts,
    which Python also accepts, are rejected here. *)
Definition py_int (s : string) : result Z :=
  let body := strip (String.list_ascii_of_string s) in
  let (neg, ds) :=
    match body with
    | a :: rest =>
        if bool_decide (a = "-"%char) then (true, rest)
        else if bool_decide (a = "+"%char) then (false, rest)
        else (false, body)
    | [] => (false, [])
    end in
  match digits_value 0 false ds with
  | Some z => Ok (if neg then (- z)%Z else z)
  | None => Raise ValueError
  end.

(** [str(v)] as an f-string renders it, for the scalars. *)
Definition py_str (v : value) : result string :=
  match v with
  | VNone => Ok "None"
  | VBool true => Ok "True"
  | VBool false => Ok "False"
  | VInt z => Ok (pretty z)
  | VStr s => Ok s
  | VList _ | VDict _ => Raise NotModelled
  end.

(** *** Method resolution order *)

Section MRO.
Context {C : Type} `{EqDecision C}.

(** [__bases__] of every class; [object] has none. *)
Variable bases : C → list C.

(** [name in cls.__dict__]. *)
Variable defines : C → string → bool.

Definition in_tail (c : C) (seq : list C) : bool :=
  match seq with
  | [] => false
  | _ :: tl => bool_decide (c ∈ tl)
  end.

(** The first head that occurs in no tail. *)
Fixpoint pick_head (all cands : list (list C)) : option C :=
  match cands with
  | [] => None
  | [] :: rest => pick_head all rest
  | (c :: _) :: rest =>
      if existsb (in_tail c) all then pick_head all rest else Some c
  end.

Definition drop_head (c : C) (seq : list C) : list C :=
  match seq with
  | h :: tl => if decide (h = c) then tl else seq
  | [] => []
  end.

Definition nonempty (seq : list C) : bool :=
  match seq with [] => false | _ => true end.

(** The merge step of the C3 linearisation; [None] is the [TypeError]
    "cannot create a consistent method resolution order". *)
Fixpoint c3_merge (fuel : nat) (seqs : list (list C)) : option (list C) :=
  match fuel with
  | O => None
  | S fuel' =>
      let live := filter (λ s, nonempty s = true) seqs in
      match live with
      | [] => Some []
      | _ =>
          match pick_head live live with
          | None => None
          | Some c =>
              match c3_merge fuel' (map (drop_head c) live) with
              | Some r => Some (c :: r)
              | None => None
              end
          end
      end
  end.

Fixpoint all_some {A} (l : list (option A)) : option (list A) :=
  match l with
  | [] => Some []
  | Some a :: rest =>
      match all_some rest with
      | Some r => Some (a :: r)
      | None => None
      end
  | None :: _ => None
  end.

(** [cls.__mro__]. *)
Fixpoint mro (fuel : nat) (c : C) : option (list C) :=
  match fuel with
  | O => None
  | S fuel' =>
      match all_some (map (mro fuel') (bases c)) with
      | None => None
      | Some ms =>
          let seqs := ms ++ [bases c] in
          match c3_merge (S (length (concat seqs))) seqs with
          | Some r => Some (c :: r)
          | None => None
          end
      end
  end.

(** The first class of a linearisation that defines [name]. *)
Fixpoint first_defining (name : string) (l : list C) : option C :=
  match l with
  | [] => None
  | c :: rest => if defines c name then Some c else first_defining name rest
  end.

(** The part of a linearisation that follows class [at]. *)
Fixpoint after (at_cls : C) (l : list C) : list C :=
  match l with
  | [] => []
  | c :: rest => if decide (c = at_cls) then rest else after at_cls rest
  end.

(** [getattr(ty, name)] for a method: where the lookup lands. *)
Definition resolve (fuel : nat) (ty : C) (name : string) : option C :=
  match mro fuel ty with
  | Some l => first_defining name l
  | None => None
  end.

(** [super(at, self).name] with [type(self) = ty]. *)
Definition resolve_super (fuel : nat) (ty at_cls : C) (name : string)
  : option C :=
  match mro fuel ty with
  | Some l => first_defining name (after at_cls l)
  | None => None
  end.
End MRO.

(** *** Objects, the process state and the primitive effects *)

Record object_ (C : Type) : Type := mk_object {
  ob_type : C;                       (* type(o) *)
  ob_dict : gmap string value        (* o.__dict__ *)
}.
Arguments mk_object {C} _ _.
Arguments ob_type {C} _.
Arguments ob_dict {C} _.

(** What a running program can observe and change: the objects allocated
    so far (addressed by identity), the lines printed, the process
    environment, the pseudo-random generator, given as the stream of its
    future draws, and the method bodies entered so far (oldest first), a
    record kept for the proofs that no program reads. *)
Record world (C : Type) : Type := mk_world {
  heap : gmap nat (object_ C);
  next_id : nat;
  stdout : list string;
  environ : gmap string string;
  rng : nat → nat;
  draws : nat;
  trace : list (C * string)
}.
Arguments mk_world {C} _ _ _ _ _ _ _.
Arguments heap {C} _.
Arguments next_id {C} _.
Arguments stdout {C} _.
Arguments environ {C} _.
Arguments rng {C} _.
Arguments draws {C} _.
Arguments trace {C} _.

Definition fresh_world {C} (env : gmap string string) (r : nat → nat)
  : world C := mk_world ∅ 0 [] env r 0 [].

Section Primitives.
Context {C : Type}.
Local Abbreviation W := (world C).

Definition with_heap (h : gmap nat (object_ C)) (w : W) : W :=
  mk_world h (next_id w) (stdout w) (environ w) (rng w) (draws w)
           (trace w).

Definition with_stdout (out : list string) (w : W) : W :=
  mk_world (heap w) (next_id w) out (environ w) (rng w) (draws w)
           (trace w).

Definition with_trace (t : list (C * string)) (w : W) : W :=
  mk_world (heap w) (next_id w) (stdout w) (environ w) (rng w) (draws w)
           t.

(** Control enters the body of [name] as defined in class [d]. *)
Definition enter (d : C) (name : string) : M W unit :=
  modify (λ w, with_trace (trace w ++ [(d, name)]) w).

(** [print(s)] *)
Definition print (s : string) : M W unit :=
  modify (λ w, with_stdout (stdout w ++ [s]) w).

(** [object.__new__(ty)]: a new object with an empty [__dict__]. *)
Definition object_new (ty : C) : M W nat :=
  λ w, (Ok (next_id w),
        mk_world (<[next_id w := mk_object ty ∅]> (heap w))
                 (S (next_id w)) (stdout w) (environ w) (rng w) (draws w)
                 (trace w)).

(** [type(o)] *)
Definition type_of (o : nat) : M W C :=
  λ w, match heap w !! o with
       | Some ob => (Ok (ob_type ob), w)
       | None => (Raise TypeError, w)
       end.

(** [o.name] for a data attribute kept in the instance dictionary. *)
Definition getattr (o : nat) (name : string) : M W value :=
  λ w, match heap w !! o with
       | Some ob =>
           match ob_dict ob !! name with
           | Some v => (Ok v, w)
           | None => (Raise (AttributeError name), w)
           end
       | None => (Raise (AttributeError name), w)
       end.

(** [o.name = v] *)
Definition setattr (o : nat) (name : string) (v : value) : M W unit :=
  λ w, match heap w !! o with
       | Some ob =>
           (Ok tt,
            with_heap (<[o := mk_object (ob_type ob)
                                        (<[name := v]> (ob_dict ob))]> (heap w))
                      w)
       | None => (Raise (AttributeError name), w)
       end.

(** [os.getenv(key)] and [os.getenv(key, default)] *)
Definition getenv (key : string) : M W (option string) :=
  λ w, (Ok (environ w !! key), w).

Definition getenv_default (key default : string) : M W string :=
  λ w, (Ok (match environ w !! key with Some v => v | None => default end),
        w).

(** [random.randint(lo, hi)] with [lo <= hi]: the next draw, folded into
    the closed range. *)
Definition randint (lo hi : nat) : M W nat :=
  λ w, (Ok (lo + rng w (draws w) mod (S (hi - lo))),
        mk_world (heap w) (next_id w) (stdout w) (environ w) (rng w)
                 (S (draws w)) (trace w)).
End Primitives.

(** *** Method calls *)

Section Dispatch.
Context {C : Type} `{EqDecision C}.
Local Abbreviation W := (world C).

Variable bases : C → list C.
Variable defines : C → string → bool.

(** Enough fuel to linearise the hierarchy at hand. *)
Variable depth : nat.

(** The method bodies of the program.  A body reaches other code only
    through its first three arguments: [self.m(...)], [super().m(...)]
    written inside class [at], and [Cls.m(self, ...)]. *)
Variable body :
  (nat → string → list value → M W value) →
  (C → nat → string → list value → M W value) →
  (C → nat → string → list value → M W value) →
  C → string → nat → list value → M W value.

Definition via (target : option C) (name : string)
    (k : C → M W value) : M W value :=
  match target with
  | Some d => k d
  | None => raise (AttributeError name)
  end.

(** Run the body of [name] found in class [d]; [fuel] bounds the nesting
    of calls, like the interpreter's recursion limit. *)
Fixpoint invoke (fuel : nat) (d : C) (name : string) (self : nat)
    (args : list value) : M W value :=
  match fuel with
  | O => raise RecursionError
  | S fuel' =>
      bind (enter d name) (λ _,
      body
        (λ o n a,
           bind (type_of o) (λ ty,
           via (resolve bases defines depth ty n) n
               (λ d', invoke fuel' d' n o a)))
        (λ at_cls o n a,
           bind (type_of o) (λ ty,
           via (resolve_super bases defines depth ty at_cls n) n
               (λ d', invoke fuel' d' n o a)))
        (λ k o n a,
           via (resolve bases defines depth k n) n
               (λ d', invoke fuel' d' n o a))
        d name self args)
  end.

(** [o.name(...)] *)
Definition call_method (fuel : nat) (o : nat) (name : string)
    (args : list value) : M W value :=
  bind (type_of o) (λ ty,
  via (resolve bases defines depth ty name) name
      (λ d, invoke fuel d name o args)).

(** [ty(...)] through [type.__call__]: allocate, then initialise. *)
Definition instantiate (fuel : nat) (ty : C) (args : list value)
  : M W nat :=
  bind (object_new ty) (λ o,
  bind (call_method fuel o "__init__" args) (λ _,
  ret o)).
End Dispatch.

End Py.

(* ===================================================================== *)
(** ** mixins/attribute_modifying_mixin_example.py *)
(* ===================================================================== *)

Module AttributeModifyingMixin.
Import Py.

Inductive cls : Type :=
| object
| PlainPizza
| OlivesMixin
| CheeseMixin
| PepperoniMixin
| DeluxePizza
| VeggiePizza.

#[global] Instance cls_eq_dec : EqDecision cls.
Proof. solve_decision. Defined.

Definition bases (c : cls) : list cls :=
  match c with
  | object => []
  | PlainPizza => [object]
  | OlivesMixin => [object]
  | CheeseMixin => [object]
  | PepperoniMixin => [object]
  | DeluxePizza => [OlivesMixin; CheeseMixin; PepperoniMixin; PlainPizza]
  | VeggiePizza => [OlivesMixin; CheeseMixin; PlainPizza]
  end.

(** The names each class body binds ([object] is cut down to the one
    method the programs reach). *)
Definition methods (c : cls) : list string :=
  match c with
  | object => ["__init__"]
  | PlainPizza => ["__init__"; "show_toppings"]
  | OlivesMixin => ["add_olives"]
  | CheeseMixin => ["add_cheese"]
  | PepperoniMixin => ["add_pepperoni"]
  | DeluxePizza => ["prepare_pizza"]
  | VeggiePizza => ["prepare_pizza"]
  end.

Definition defines (c : cls) (name : string) : bool :=
  bool_decide (name ∈ methods c).

Definition depth : nat := 3.

Local Abbreviation W := (world cls).

(** [self.toppings += [item]]: read the attribute, extend the list in
    place, bind the attribute again. *)
Definition toppings_iadd (self : nat) (item : string) : M W unit :=
  bind (getattr self "toppings") (λ v,
  match v with
  | VList l => setattr self "toppings" (VList (l ++ [VStr item]))
  | _ => raise TypeError
  end).

Section Bodies.
Variable self_call : nat → string → list value → M W value.

Definition PlainPizza___init__ (self : nat) : M W value :=
  bind (setattr self "toppings" (VList [])) (λ _, ret VNone).

Definition PlainPizza_show_toppings (self : nat) : M W value :=
  bind (getattr self "toppings") (λ t,
  if truthy t then
    match t with
    | VList l =>
        bind (lift (str_join ", " l)) (λ j, ret (VStr ("Toppings: " +:+ j)))
    | _ => raise TypeError
    end
  else ret (VStr ("Toppings: " +:+ "none"))).

Definition OlivesMixin_add_olives (self : nat) : M W value :=
  bind (print "Adding olives!") (λ _,
  bind (toppings_iadd self "olives") (λ _, ret VNone)).

Definition CheeseMixin_add_cheese (self : nat) : M W value :=
  bind (print "Adding cheese!") (λ _,
  bind (toppings_iadd self "cheese") (λ _, ret VNone)).

Definition PepperoniMixin_add_pepperoni (self : nat) : M W value :=
  bind (print "Adding pepperoni!") (λ _,
  bind (toppings_iadd self "pepperoni") (λ _, ret VNone)).

Definition DeluxePizza_prepare_pizza (self : nat) : M W value :=
  bind (self_call self "add_olives" []) (λ _,
  bind (self_call self "add_cheese" []) (λ _,
  bind (self_call self "add_pepperoni" []) (λ _, ret VNone))).

Definition VeggiePizza_prepare_pizza (self : nat) : M W value :=
  bind (self_call self "add_olives" []) (λ _,
  bind (self_call self "add_cheese" []) (λ _, ret VNone)).

(** A method called with the wrong number of arguments raises. *)
Definition nullary (args : list value) (m : M W value) : M W value :=
  match args with
  | [] => m
  | _ => raise TypeError
  end.

Definition body (d : cls) (name : string) (self : nat)
    (args : list value) : M W value :=
  match d, name with
  | object, "__init__" => nullary args (ret VNone)
  | PlainPizza, "__init__" => nullary args (PlainPizza___init__ self)
  | PlainPizza, "show_toppings" =>
      nullary args (PlainPizza_show_toppings self)
  | OlivesMixin, "add_olives" => nullary args (OlivesMixin_add_olives self)
  | CheeseMixin, "add_cheese" => nullary args (CheeseMixin_add_cheese self)
  | PepperoniMixin, "add_pepperoni" =>
      nullary args (PepperoniMixin_add_pepperoni self)
  | DeluxePizza, "prepare_pizza" =>
      nullary args (DeluxePizza_prepare_pizza self)
  | VeggiePizza, "prepare_pizza" =>
      nullary args (VeggiePizza_prepare_pizza self)
  | _, _ => raise (AttributeError name)
  end.
End Bodies.

Definition bodies
    (self_call : nat → string → list value → M W value)
    (super_call explicit : cls → nat → string → list value → M W value)
  : cls → string → nat → list value → M W value :=
  body self_call.

Definition mro_of (c : cls) : option (list cls) := mro bases depth c.

Definition has_method (c : cls) (name : string) : bool :=
  match resolve bases defines depth c name with
  | Some _ => true
  | None => false
  end.

Definition call (fuel : nat) (o : nat) (name : string) (args : list value)
  : M W value :=
  call_method bases defines depth bodies fuel o name args.

Definition new (fuel : nat) (c : cls) : M W nat :=
  instantiate bases defines depth bodies fuel c [].

(** The [__main__] block for the deluxe pizza: build, prepare, show. *)
Definition deluxe_demo (fuel : nat) : M W (nat * value) :=
  bind (new fuel DeluxePizza) (λ deluxe,
  bind (call fuel deluxe "prepare_pizza" []) (λ _,
  bind (call fuel deluxe "show_toppings" []) (λ shown,
  ret (deluxe, shown)))).

End AttributeModifyingMixin.

(* ===================================================================== *)
(** ** mixins/mixin_constructor_pitfall_example.py *)
(* ===================================================================== *)

Module MixinConstructorPitfall.
Import Py.

Inductive cls : Type :=
| object
| MixinA
| MixinB
| MyClass
| NameMixin
| ClassA
| ClassB
| TimestampMixin
| ClassC.

#[global] Instance cls_eq_dec : EqDecision cls.
Proof. solve_decision. Defined.

Definition bases (c : cls) : list cls :=
  match c with
  | object => []
  | MixinA => [object]
  | MixinB => [object]
  | MyClass => [MixinA; MixinB]
  | NameMixin => [object]
  | ClassA => [NameMixin]
  | ClassB => [NameMixin]
  | TimestampMixin => [object]
  | ClassC => [NameMixin; TimestampMixin]
  end.

(** Every class of the file defines [__init__] and nothing else. *)
Definition defines (c : cls) (name : string) : bool :=
  String.eqb name "__init__".

Definition depth : nat := 3.

Local Abbreviation W := (world cls).

Section Bodies.
(** [super().m(...)] written in the body of the class given first. *)
Variable super_call : cls → nat → string → list value → M W value.
(** [Cls.m(self, ...)] *)
Variable explicit : cls → nat → string → list value → M W value.

Definition object___init__ (self : nat) (args : list value) : M W value :=
  match args with
  | [] => ret VNone
  | _ => raise TypeError
  end.

Definition MixinA___init__ (self : nat) (args : list value) : M W value :=
  match args with
  | [] => bind (print "MixinA init") (λ _, ret VNone)
  | _ => raise TypeError
  end.

Definition MixinB___init__ (self : nat) (args : list value) : M W value :=
  match args with
  | [] => bind (print "MixinB init") (λ _, ret VNone)
  | _ => raise TypeError
  end.

Definition MyClass___init__ (self : nat) (args : list value) : M W value :=
  match args with
  | [] => bind (super_call MyClass self "__init__" []) (λ _, ret VNone)
  | _ => raise TypeError
  end.

Definition NameMixin___init__ (self : nat) (args : list value)
  : M W value :=
  match args with
  | [name] => bind (setattr self "name" name) (λ _, ret VNone)
  | _ => raise TypeError
  end.

Definition ClassA___init__ (self : nat) (args : list value) : M W value :=
  match args with
  | [name; a_value] =>
      bind (super_call ClassA self "__init__" [name]) (λ _,
      bind (setattr self "a_value" a_value) (λ _, ret VNone))
  | _ => raise TypeError
  end.

Definition ClassB___init__ (self : nat) (args : list value) : M W value :=
  match args with
  | [name; b_value] =>
      bind (super_call ClassB self "__init__" [name]) (λ _,
      bind (setattr self "b_value" b_value) (λ _, ret VNone))
  | _ => raise TypeError
  end.

Definition TimestampMixin___init__ (self : nat) (args : list value)
  : M W value :=
  match args with
  | [timestamp] =>
      bind (setattr self "timestamp" timestamp) (λ _, ret VNone)
  | _ => raise TypeError
  end.

Definition ClassC___init__ (self : nat) (args : list value) : M W value :=
  match args with
  | [name; timestamp; c_value] =>
      bind (explicit NameMixin self "__init__" [name]) (λ _,
      bind (explicit TimestampMixin self "__init__" [timestamp]) (λ _,
      bind (setattr self "c_value" c_value) (λ _, ret VNone)))
  | _ => raise TypeError
  end.

Definition body (d : cls) (name : string) (self : nat)
    (args : list value) : M W value :=
  if String.eqb name "__init__" then
    match d with
    | object => object___init__ self args
    | MixinA => MixinA___init__ self args
    | MixinB => MixinB___init__ self args
    | MyClass => MyClass___init__ self args
    | NameMixin => NameMixin___init__ self args
    | ClassA => ClassA___init__ self args
    | ClassB => ClassB___init__ self args
    | TimestampMixin => TimestampMixin___init__ self args
    | ClassC => ClassC___init__ self args
    end
  else raise (AttributeError name).
End Bodies.

Definition bodies
    (self_call : nat → string → list value → M W value)
    (super_call explicit : cls → nat → string → list value → M W value)
  : cls → string → nat → list value → M W value :=
  body super_call explicit.

Definition mro_of (c : cls) : option (list cls) := mro bases depth c.

Definition new (fuel : nat) (c : cls) (args : list value) : M W nat :=
  instantiate bases defines depth bodies fuel c args.

(** Reading back an attribute of an object of the final state. *)
Definition attr_of (w : W) (o : nat) (name : string) : option value :=
  match heap w !! o with
  | Some ob => ob_dict ob !! name
  | None => None
  end.

End MixinConstructorPitfall.

(* ===================================================================== *)
(** ** The sequential singleton accessors *)
(* ===================================================================== *)

Module Singleton.
Import Py.

Section Accessors.
Context {C : Type} `{Countable C}.
Local Abbreviation W := (world C).

(** [cls.__init__(self, ...)] of the wrapped classes; keyword arguments
    are passed along with the positional ones. *)
Variable init : C → nat → list value → M W unit.

(** [type.__call__(cls, ...)]: what [cls(...)] does for a plain class
    and what [super().__call__(...)] does inside a metaclass. *)
Definition type_call (cls : C) (args : list value) : M W nat :=
  bind (object_new cls) (λ o,
  bind (init cls o args) (λ _,
  ret o)).

(** The registry dictionary ([instances] of the decorator's closure,
    [SingletonMeta._instances]), the record of the constructor calls made
    through the accessor (oldest first, kept for the proofs only), and the
    rest of the process. *)
Record store : Type := mk_store {
  instances : gmap C nat;
  built : list C;
  world_of : W
}.

(** The state right after the registry has been created empty. *)
Definition initial (w : W) : store := mk_store ∅ [] w.

(** [cls in instances] *)
Definition contains (cls : C) : M store bool :=
  λ st, (Ok (bool_decide (is_Some (instances st !! cls))), st).

(** The constructor call on the right-hand side of the assignment. *)
Definition construct (cls : C) (args : list value) : M store nat :=
  λ st, let (r, w') := type_call cls args (world_of st) in
        (r, mk_store (instances st) (built st ++ [cls]) w').

(** [instances[cls] = o] *)
Definition setitem (cls : C) (o : nat) : M store unit :=
  modify (λ st, mk_store (<[cls := o]> (instances st)) (built st)
                         (world_of st)).

(** [instances[cls]] *)
Definition getitem (cls : C) : M store nat :=
  λ st, match instances st !! cls with
        | Some o => (Ok o, st)
        | None => (Raise KeyError, st)
        end.

(** [get_instance] of [singleton(cls)], 02_decorator_example.py. *)
Definition get_instance (cls : C) (args : list value) : M store nat :=
  bind (contains cls) (λ present,
  bind (if present then ret tt
        else bind (construct cls args) (λ o, setitem cls o)) (λ _,
  getitem cls)).

(** [SingletonMeta.__call__], 03_metaclass_example.py and
    metaclass_example.py. *)
Definition SingletonMeta___call__ (cls : C) (args : list value)
  : M store nat :=
  bind (contains cls) (λ present,
  bind (if present then ret tt
        else bind (construct cls args) (λ o, setitem cls o)) (λ _,
  getitem cls)).

(** Calls made one after another; the first exception ends the run. *)
Fixpoint call_seq (f : list value → M store nat)
    (argss : list (list value)) : M store (list nat) :=
  match argss with
  | [] => ret []
  | args :: rest =>
      bind (f args) (λ o,
      bind (call_seq f rest) (λ os,
      ret (o :: os)))
  end.

(** Code that runs between two calls of the accessor: it may do anything
    to the process but cannot reach the registry, and objects it
    allocates are new ones. *)
Definition elsewhere (w' : W) (st : store) : store :=
  mk_store (instances st) (built st) w'.

(** The states a program reaches through [SingletonMeta.__call__]. *)
Inductive reachable : store → Prop :=
| reach_initial w : reachable (initial w)
| reach_call st cls args :
    reachable st → reachable (SingletonMeta___call__ cls args st).2
| reach_elsewhere st w' :
    reachable st → next_id (world_of st) ≤ next_id w' →
    reachable (elsewhere w' st).
End Accessors.

End Singleton.

(* ===================================================================== *)
(** ** The configuration managers *)
(* ===================================================================== *)

(** [_load_config] has the same text in 01_new_pitfall.py,
    02_decorator_example.py, 03_metaclass_example.py and
    metaclass_example.py. *)
Module Config.
Import Py.

Section Loading.
Context {C : Type}.
Local Abbreviation W := (world C).

Definition of_optional (o : option string) : value :=
  match o with
  | Some s => VStr s
  | None => VNone
  end.

(** The dictionary display of [_load_config], items evaluated in order. *)
Definition config_display : M W (gmap string value) :=
  bind (getenv "API_KEY") (λ api_key,
  bind (getenv_default "DEBUG" "False") (λ debug,
  bind (getenv_default "MAX_CONN" "10") (λ max_conn,
  bind (lift (py_int max_conn)) (λ max_connections,
  ret (<["max_connections" := VInt max_connections]>
       (<["debug_mode" := VBool (String.eqb (str_lower debug) "true")]>
       (<["api_key" := of_optional api_key]> ∅))))))).

(** [self._config = {...}] *)
Definition load_config (self : nat) : M W value :=
  bind config_display (λ d,
  bind (setattr self "_config" (VDict d)) (λ _,
  ret VNone)).

(** The dictionary display of [_load_db_config]. *)
Definition db_config_display : M W (gmap string value) :=
  bind (getenv_default "DB_HOST" "localhost") (λ db_host,
  bind (getenv_default "DB_PORT" "5432") (λ db_port_s,
  bind (lift (py_int db_port_s)) (λ db_port,
  bind (getenv_default "DB_NAME" "myapp") (λ db_name,
  ret (<["db_name" := VStr db_name]>
       (<["db_port" := VInt db_port]>
       (<["db_host" := VStr db_host]> ∅))))))).

(** [self._config.update({...})]: the receiver is looked up first, then
    the argument is evaluated; the new items win. *)
Definition load_db_config (self : nat) : M W value :=
  bind (getattr self "_config") (λ cfg,
  match cfg with
  | VDict d =>
      bind db_config_display (λ upd,
      bind (setattr self "_config" (VDict (upd ∪ d))) (λ _,
      ret VNone))
  | _ => raise (AttributeError "update")
  end).

(** [self._config.get(key, default)] *)
Definition config_get (self : nat) (key : value) (default : value)
  : M W value :=
  bind (getattr self "_config") (λ cfg,
  match cfg with
  | VDict d =>
      match key with
      | VStr k => ret (match d !! k with Some v => v | None => default end)
      | VList _ | VDict _ => raise TypeError      (* unhashable *)
      | _ => ret default
      end
  | _ => raise (AttributeError "get")
  end).
End Loading.
End Config.

(* ===================================================================== *)
(** ** singleton/metaclass_example.py *)
(* ===================================================================== *)

Module MetaclassExample.
Import Py Config.

Inductive cls : Type :=
| object
| ConfigManager
| DatabaseConfigManager.

#[global] Instance cls_eq_dec : EqDecision cls.
Proof. solve_decision. Defined.

#[global] Instance cls_countable : Countable cls.
Proof.
  refine (inj_countable'
    (λ c, match c with
          | object => 0 | ConfigManager => 1 | DatabaseConfigManager => 2
          end)
    (λ n, match n with
          | 0 => object | 1 => ConfigManager | _ => DatabaseConfigManager
          end) _).
  intros []; reflexivity.
Defined.

Definition bases (c : cls) : list cls :=
  match c with
  | object => []
  | ConfigManager => [object]
  | DatabaseConfigManager => [ConfigManager]
  end.

Definition methods (c : cls) : list string :=
  match c with
  | object => ["__init__"]
  | ConfigManager => ["__init__"; "_load_config"; "get"]
  | DatabaseConfigManager => ["__init__"; "_load_db_config"; "get_db_url"]
  end.

Definition defines (c : cls) (name : string) : bool :=
  bool_decide (name ∈ methods c).

Definition depth : nat := 3.

Local Abbreviation W := (world cls).

Section Bodies.
Variable self_call : nat → string → list value → M W value.
Variable super_call : cls → nat → string → list value → M W value.

Definition ConfigManager___init__ (self : nat) : M W value :=
  bind (randint 1 100) (λ r,
  bind (print ("ConfigManager initializing with random number: "
               +:+ pretty r)) (λ _,
  bind (self_call self "_load_config" []) (λ _,
  ret VNone))).

Definition DatabaseConfigManager___init__ (self : nat) : M W value :=
  bind (randint 1 100) (λ r,
  bind (print ("DatabaseConfigManager initializing with random number: "
               +:+ pretty r)) (λ _,
  bind (super_call DatabaseConfigManager self "__init__" []) (λ _,
  bind (self_call self "_load_db_config" []) (λ _,
  ret VNone)))).

Definition DatabaseConfigManager_get_db_url (self : nat) : M W value :=
  bind (self_call self "get" [VStr "db_host"]) (λ h,
  bind (lift (py_str h)) (λ hs,
  bind (self_call self "get" [VStr "db_port"]) (λ p,
  bind (lift (py_str p)) (λ ps,
  bind (self_call self "get" [VStr "db_name"]) (λ n,
  bind (lift (py_str n)) (λ ns,
  ret (VStr ("postgresql://" +:+ hs +:+ ":" +:+ ps +:+ "/" +:+ ns)))))))).

Definition body (d : cls) (name : string) (self : nat)
    (args : list value) : M W value :=
  match d, name, args with
  | object, "__init__", [] => ret VNone
  | ConfigManager, "__init__", [] => ConfigManager___init__ self
  | ConfigManager, "_load_config", [] => load_config self
  | ConfigManager, "get", [key] => config_get self key VNone
  | ConfigManager, "get", [key; default] => config_get self key default
  | DatabaseConfigManager, "__init__", [] =>
      DatabaseConfigManager___init__ self
  | DatabaseConfigManager, "_load_db_config", [] => load_db_config self
  | DatabaseConfigManager, "get_db_url", [] =>
      DatabaseConfigManager_get_db_url self
  | _, _, _ => raise TypeError
  end.
End Bodies.

Definition bodies
    (self_call : nat → string → list value → M W value)
    (super_call explicit : cls → nat → string → list value → M W value)
  : cls → string → nat → list value → M W value :=
  body self_call super_call.

(** Deep enough for every call chain of the file. *)
Definition call_depth : nat := 4.

Definition call (o : nat) (name : string) (args : list value) : M W value :=
  call_method bases defines depth bodies call_depth o name args.

(** [cls.__init__(self, ...)] as [type.__call__] reaches it. *)
Definition init (c : cls) (o : nat) (args : list value) : M W unit :=
  bind (call o "__init__" args) (λ _, ret tt).

(** [ConfigManager()], [DatabaseConfigManager()]: the metaclass's
    [__call__]. *)
Definition make (c : cls) : M (Singleton.store (C := cls)) nat :=
  Singleton.SingletonMeta___call__ init c [].

(** The configuration dictionary of an object in a given state. *)
Definition config_of (w : W) (o : nat) : option (gmap string value) :=
  match heap w !! o with
  | Some ob =>
      match ob_dict ob !! "_config" with
      | Some (VDict d) => Some d
      | _ => None
      end
  | None => None
  end.

End MetaclassExample.

(* ===================================================================== *)
(** ** singleton/01_new_pitfall.py *)
(* ===================================================================== *)

Module NewPitfall.
Import Py Config.

Inductive cls : Type :=
| object
| ConfigManager.

Local Abbreviation W := (world cls).

(** The class attribute [ConfigManager._instance] ([None] or the object)
    next to the rest of the process.  The class attribute [_config] is
    never rebound on the class and is left out. *)
Record process : Type := mk_process {
  _instance : option nat;
  world_of : W
}.

Definition in_world {A} (m : M W A) : M process A :=
  λ p, let (r, w') := m (world_of p) in (r, mk_process (_instance p) w').

(** [cls._instance] *)
Definition read_instance : M process (option nat) :=
  λ p, (Ok (_instance p), p).

(** [cls._instance = o] *)
Definition write_instance (o : nat) : M process unit :=
  modify (λ p, mk_process (Some o) (world_of p)).

Definition ConfigManager__load_config (self : nat) : M process value :=
  in_world (bind (enter ConfigManager "_load_config") (λ _,
            load_config self)).

Definition ConfigManager___init__ (self : nat) : M process value :=
  in_world (bind (enter ConfigManager "__init__") (λ _,
            bind (randint 1 100) (λ r,
            bind (print (pretty r)) (λ _,
            ret VNone)))).

(** [__new__]: the value returned is whatever [cls._instance] holds. *)
Definition ConfigManager___new__ : M process (option nat) :=
  bind (in_world (enter ConfigManager "__new__")) (λ _,
  bind read_instance (λ cur,
  bind (match cur with
        | None =>
            bind (in_world (object_new ConfigManager)) (λ o,
            bind (write_instance o) (λ _,
            bind read_instance (λ target,
            match target with
            | Some o' =>
                bind (ConfigManager__load_config o') (λ _, ret tt)
            | None => raise (AttributeError "_load_config")
            end)))
        | Some _ => ret tt
        end) (λ _,
  read_instance))).

(** [ConfigManager()]: [type.__call__] runs [__new__], then [__init__]
    on the result when it is an instance of the class. *)
Definition ConfigManager_call : M process (option nat) :=
  bind ConfigManager___new__ (λ obj,
  match obj with
  | Some o => bind (ConfigManager___init__ o) (λ _, ret (Some o))
  | None => ret None
  end).

(** [n] calls one after another. *)
Fixpoint calls (n : nat) : M process (list (option nat)) :=
  match n with
  | O => ret []
  | S n' =>
      bind ConfigManager_call (λ o,
      bind (calls n') (λ os,
      ret (o :: os)))
  end.

(** The module just imported: no instance yet. *)
Definition loaded (w : W) : process := mk_process None w.

(** How often the body of [name] was entered. *)
Definition entries (name : string) (w : W) : nat :=
  length (filter (λ e, e.2 = name) (trace w)).

End NewPitfall.

(* ===================================================================== *)
(** ** singleton/04_decorator_subclassing_pitfall.py and
       singleton/decorator_subclassing_pitfall.py *)
(* ===================================================================== *)

Module DecoratorSubclassing.
Import Py.

(** *** The class statement *)

(** The types of the objects a base-class expression can evaluate to:
    [type] itself, a metaclass derived from it, and the type of plain
    functions. *)
Inductive pytype : Type :=
| TType
| TSingletonMeta
| TFunction.

#[global] Instance pytype_eq_dec : EqDecision pytype.
Proof. solve_decision. Defined.

(** [issubclass(a, b)] on those three. *)
Definition issubclass (a b : pytype) : bool :=
  match a, b with
  | TType, TType => true
  | TSingletonMeta, (TSingletonMeta | TType) => true
  | TFunction, TFunction => true
  | _, _ => false
  end.

Section ClassStatement.
Context {C : Type}.

(** What a name can be bound to: a class (with its metaclass) or a
    function, here always the closure [get_instance] of a decorator,
    which remembers the class it wraps. *)
Inductive binding : Type :=
| Class (c : C) (meta : pytype)
| Function (wrapped : C).

(** [type(b)] *)
Definition type_of_binding (b : binding) : pytype :=
  match b with
  | Class _ meta => meta
  | Function _ => TFunction
  end.

(** [singleton(cls)] (and [singleton_decorator(cls)]) returns the inner
    function, whatever it is given. *)
Definition singleton (cls : binding) : result binding :=
  match cls with
  | Class c _ => Ok (Function c)
  | Function c => Ok (Function c)
  end.

(** The most derived metaclass among the starting one and the types of
    the bases; [TypeError] on a metaclass conflict. *)
Fixpoint calculate_metaclass (winner : pytype) (bases : list binding)
  : result pytype :=
  match bases with
  | [] => Ok winner
  | b :: rest =>
      let t := type_of_binding b in
      if issubclass winner t then calculate_metaclass winner rest
      else if issubclass t winner then calculate_metaclass t rest
      else Raise TypeError
  end.

(** Calling the winner with (name, bases, namespace): [type] and its
    subclasses build a class; [function(...)] rejects the arguments. *)
Definition call_metaclass (meta : pytype) : result pytype :=
  match meta with
  | TType => Ok TType
  | TSingletonMeta => Ok TSingletonMeta
  | TFunction => Raise TypeError
  end.

(** [class Name(bases...): ...] without a metaclass keyword: the result
    is the metaclass of the class created, or the exception raised. *)
Definition class_statement (bases : list binding) : result pytype :=
  let start := match bases with
               | [] => TType
               | b :: _ => type_of_binding b
               end in
  match calculate_metaclass start bases with
  | Ok meta => call_metaclass meta
  | Raise e => Raise e
  end.

(** The [try] block of [demonstrate_decorator_issue]: decorate [Logger],
    then attempt [class FileLogger(Logger)]; the result tells whether
    the [except TypeError] branch ran. *)
Definition demonstrate_decorator_issue (Logger : C) : result bool :=
  match singleton (Class Logger TType) with
  | Ok decorated =>
      match class_statement [decorated] with
      | Ok _ => Ok false
      | Raise TypeError => Ok true
      | Raise e => Raise e
      end
  | Raise e => Raise e
  end.
End ClassStatement.

(** *** The metaclass variant: [Logger] and [FileLogger] *)

Inductive cls : Type :=
| object
| Logger
| FileLogger.

#[global] Instance cls_eq_dec : EqDecision cls.
Proof. solve_decision. Defined.

#[global] Instance cls_countable : Countable cls.
Proof.
  refine (inj_countable'
    (λ c, match c with object => 0 | Logger => 1 | FileLogger => 2 end)
    (λ n, match n with 0 => object | 1 => Logger | _ => FileLogger end) _).
  intros []; reflexivity.
Defined.

Definition bases (c : cls) : list cls :=
  match c with
  | object => []
  | Logger => [object]
  | FileLogger => [Logger]
  end.

Definition defines (c : cls) (name : string) : bool :=
  String.eqb name "__init__".

Definition depth : nat := 3.

Local Abbreviation W := (world cls).

Section Bodies.
Variable super_call : cls → nat → string → list value → M W value.

(** [def __init__(self, name="Logger")] *)
Definition Logger___init__ (self : nat) (args : list value) : M W value :=
  match args with
  | [] | [_] =>
      let name := match args with [n] => n | _ => VStr "Logger" end in
      bind (setattr self "name" name) (λ _,
      bind (getattr self "name") (λ shown,
      bind (lift (py_str shown)) (λ text,
      bind (print ("Created " +:+ text)) (λ _,
      ret VNone))))
  | _ => raise TypeError
  end.

(** [def __init__(self, filename)] *)
Definition FileLogger___init__ (self : nat) (args : list value)
  : M W value :=
  match args with
  | [filename] =>
      bind (lift (py_str filename)) (λ text,
      bind (super_call FileLogger self "__init__"
              [VStr ("FileLogger(" +:+ text +:+ ")")]) (λ _,
      bind (setattr self "filename" filename) (λ _,
      ret VNone)))
  | _ => raise TypeError
  end.

Definition body (d : cls) (name : string) (self : nat)
    (args : list value) : M W value :=
  if String.eqb name "__init__" then
    match d with
    | object => match args with [] => ret VNone | _ => raise TypeError end
    | Logger => Logger___init__ self args
    | FileLogger => FileLogger___init__ self args
    end
  else raise (AttributeError name).
End Bodies.

Definition bodies
    (self_call : nat → string → list value → M W value)
    (super_call explicit : cls → nat → string → list value → M W value)
  : cls → string → nat → list value → M W value :=
  body super_call.

Definition call_depth : nat := 3.

Definition init (c : cls) (o : nat) (args : list value) : M W unit :=
  bind (call_method bases defines depth bodies call_depth o "__init__" args)
       (λ _, ret tt).

(** [Logger(...)], [FileLogger(...)] under [metaclass=SingletonMeta]. *)
Definition make (c : cls) (args : list value)
  : M (Singleton.store (C := cls)) nat :=
  Singleton.SingletonMeta___call__ init c args.

(** The three constructor calls of [demonstrate_metaclass_solution], in
    order: [file1], [file2], [log1]. *)
Definition metaclass_solution_calls
  : M (Singleton.store (C := cls)) (nat * nat * nat) :=
  bind (make FileLogger [VStr "app.log"]) (λ file1,
  bind (make FileLogger [VStr "other.log"]) (λ file2,
  bind (make Logger [VStr "base"]) (λ log1,
  ret (file1, file2, log1)))).

End DecoratorSubclassing.

(* ===================================================================== *)
(** ** singleton/decorator_thread_safety_issue.py *)
(* ===================================================================== *)

Module ThreadSafety.
Import Py.

(** Where a thread stands inside the accessor.  Each constructor is one
    atomic action of the source: a dictionary test, a lock operation, the
    sleep, the constructor call, the dictionary store, the final lookup. *)
Inductive pc : Type :=
| AtCheck                       (* if cls not in instances: *)
| AtAcquire                     (*     with lock:  (waiting to enter) *)
| AtRecheck                     (*         if cls not in instances: *)
| AtSleep                       (*             time.sleep(0.01) *)
| AtConstruct                   (*             ... = cls(...) *)
| AtStore (o : nat)             (*             instances[cls] = ... *)
| AtRelease                     (*     (leaving the with block) *)
| AtReleaseRaising (e : exn)    (*     (leaving it, exception in flight) *)
| AtReturn                      (* return instances[cls] *)
| Returned (o : nat)
| Raised (e : exn).

(** A thread: the arguments of its call and its position. *)
Record thread : Type := mk_thread {
  call_args : list value;
  at_pc : pc
}.

Definition finished (t : thread) : bool :=
  match at_pc t with
  | Returned _ | Raised _ => true
  | _ => false
  end.

(** Inside the [with lock:] block. *)
Definition in_critical (t : thread) : bool :=
  match at_pc t with
  | AtRecheck | AtSleep | AtConstruct | AtStore _
  | AtRelease | AtReleaseRaising _ => true
  | _ => false
  end.

(** Past the test that found no instance, before the store. *)
Definition building (t : thread) : bool :=
  match at_pc t with
  | AtSleep | AtConstruct | AtStore _ => true
  | _ => false
  end.

Definition storing (t : thread) : bool :=
  match at_pc t with
  | AtStore _ => true
  | _ => false
  end.

(** An upper bound on the actions a thread has left. *)
Definition rank (t : thread) : nat :=
  match at_pc t with
  | AtCheck => 8
  | AtAcquire => 7
  | AtRecheck => 6
  | AtSleep => 5
  | AtConstruct => 4
  | AtStore _ => 3
  | AtRelease => 2
  | AtReleaseRaising _ => 1
  | AtReturn => 1
  | Returned _ | Raised _ => 0
  end.

Definition count (P : thread → bool) (ts : list thread) : nat :=
  sum_list ((λ t, if P t then 1 else 0) <$> ts).

Definition measure (ts : list thread) : nat := sum_list (rank <$> ts).

Section Threads.
Context {C : Type} `{Countable C}.
Local Abbreviation W := (world C).

Variable init : C → nat → list value → M W unit.

(** The class handed to the decorator, or the class being called. *)
Variable cls : C.

(** What the threads share: the registry, the lock, the process, and
    the number of constructor calls made so far (kept for the proofs). *)
Record shared : Type := mk_shared {
  instances : gmap C nat;
  locked : bool;
  built : nat;
  world_of : W
}.

Record system : Type := mk_system {
  threads : list thread;
  shared_of : shared
}.

Definition present (sh : shared) : bool :=
  bool_decide (is_Some (instances sh !! cls)).

Definition move (t : thread) (to : pc) : thread :=
  mk_thread (call_args t) to.

(** The constructor call, counted. *)
Definition construct (t : thread) (sh : shared) : thread * shared :=
  let (r, w') := Singleton.type_call init cls (call_args t) (world_of sh) in
  (move t match r with
          | Ok o => AtStore o
          | Raise e => AtReleaseRaising e
          end,
   mk_shared (instances sh) (locked sh) (S (built sh)) w').

Definition store (o : nat) (sh : shared) : shared :=
  mk_shared (<[cls := o]> (instances sh)) (locked sh) (built sh)
            (world_of sh).

Definition set_lock (b : bool) (sh : shared) : shared :=
  mk_shared (instances sh) b (built sh) (world_of sh).

Definition lookup_result (sh : shared) : pc :=
  match instances sh !! cls with
  | Some o => Returned o
  | None => Raised KeyError
  end.

(** One action of a thread inside [get_instance] of [safe_singleton];
    [None] when the thread cannot move: it waits for the lock or has
    returned. *)
Definition safe_action (t : thread) (sh : shared)
  : option (thread * shared) :=
  match at_pc t with
  | AtCheck =>
      Some (move t (if present sh then AtReturn else AtAcquire), sh)
  | AtAcquire =>
      if locked sh then None else Some (move t AtRecheck, set_lock true sh)
  | AtRecheck =>
      Some (move t (if present sh then AtRelease else AtSleep), sh)
  | AtSleep => Some (move t AtConstruct, sh)
  | AtConstruct => Some (construct t sh)
  | AtStore o => Some (move t AtRelease, store o sh)
  | AtRelease => Some (move t AtReturn, set_lock false sh)
  | AtReleaseRaising e => Some (move t (Raised e), set_lock false sh)
  | AtReturn => Some (move t (lookup_result sh), sh)
  | Returned _ | Raised _ => None
  end.

(** The same for [ThreadSafeSingletonMeta.__call__], whose registry and
    lock are the class attributes [_instances] and [_lock]. *)
Definition meta_action (t : thread) (sh : shared)
  : option (thread * shared) :=
  match at_pc t with
  | AtCheck =>
      Some (move t (if present sh then AtReturn else AtAcquire), sh)
  | AtAcquire =>
      if locked sh then None else Some (move t AtRecheck, set_lock true sh)
  | AtRecheck =>
      Some (move t (if present sh then AtRelease else AtSleep), sh)
  | AtSleep => Some (move t AtConstruct, sh)
  | AtConstruct => Some (construct t sh)
  | AtStore o => Some (move t AtRelease, store o sh)
  | AtRelease => Some (move t AtReturn, set_lock false sh)
  | AtReleaseRaising e => Some (move t (Raised e), set_lock false sh)
  | AtReturn => Some (move t (lookup_result sh), sh)
  | Returned _ | Raised _ => None
  end.

(** One action of a thread inside [get_instance] of [unsafe_singleton]:
    no lock, no second test; an exception of the constructor leaves the
    function at once. *)
Definition unsafe_action (t : thread) (sh : shared)
  : option (thread * shared) :=
  match at_pc t with
  | AtCheck =>
      Some (move t (if present sh then AtReturn else AtSleep), sh)
  | AtSleep => Some (move t AtConstruct, sh)
  | AtConstruct =>
      let (t', sh') := construct t sh in
      Some (match at_pc t' with
            | AtReleaseRaising e => move t' (Raised e)
            | _ => t'
            end, sh')
  | AtStore o => Some (move t AtReturn, store o sh)
  | AtReturn => Some (move t (lookup_result sh), sh)
  | _ => None
  end.

Section Interleaving.
(** The accessor the threads run. *)
Variable action : thread → shared → option (thread * shared).

(** The scheduler lets thread [i] perform its next action. *)
Definition sched (i : nat) (s : system) : option system :=
  match threads s !! i with
  | Some t =>
      match action t (shared_of s) with
      | Some (t', sh') => Some (mk_system (<[i := t']> (threads s)) sh')
      | None => None
      end
  | None => None
  end.

Definition step (s s' : system) : Prop := ∃ i, sched i s = Some s'.

(** Follow a schedule, given as the list of thread indices to run. *)
Fixpoint run (schedule : list nat) (s : system) : option system :=
  match schedule with
  | [] => Some s
  | i :: rest =>
      match sched i s with
      | Some s' => run rest s'
      | None => None
      end
  end.
End Interleaving.

(** All threads are about to call the accessor; nobody holds the lock. *)
Definition start (argss : list (list value)) (registry : gmap C nat)
    (w : W) : system :=
  mk_system ((λ a, mk_thread a AtCheck) <$> argss)
            (mk_shared registry false 0 w).

Definition all_finished (s : system) : bool :=
  forallb finished (threads s).

(** No call is under way. *)
Definition quiescent (s : system) : bool :=
  forallb (λ t, match at_pc t with
                | AtCheck | Returned _ | Raised _ => true
                | _ => false
                end) (threads s).
End Threads.

(** The class of the tests: [class Database: pass]. *)
Inductive cls : Type := Database.

#[global] Instance cls_eq_dec : EqDecision cls.
Proof. solve_decision. Defined.

#[global] Instance cls_countable : Countable cls.
Proof.
  refine (inj_countable' (λ _, 0) (λ _, Database) _).
  intros []; reflexivity.
Defined.

(** [object.__init__], which [Database] inherits. *)
Definition Database_init (c : cls) (o : nat) (args : list value)
  : M (world cls) unit :=
  match args with
  | [] => ret tt
  | _ => raise TypeError
  end.

End ThreadSafety.

(* ===================================================================== *)
(** ** mixins/mixin_simple_example.py *)
(* ===================================================================== *)

Module MixinSimple.
Import Py.

Inductive cls : Type :=
| object
| Animal
| FlyMixin
| WalkMixin
| SwimMixin
| Duck
| Dog
| Eagle
| Fish.

#[global] Instance cls_eq_dec : EqDecision cls.
Proof. solve_decision. Defined.

Definition bases (c : cls) : list cls :=
  match c with
  | object => []
  | Animal => [object]
  | FlyMixin => [object]
  | WalkMixin => [object]
  | SwimMixin => [object]
  | Duck => [FlyMixin; WalkMixin; SwimMixin; Animal]
  | Dog => [WalkMixin; SwimMixin; Animal]
  | Eagle => [FlyMixin; WalkMixin; Animal]
  | Fish => [SwimMixin; Animal]
  end.

Definition methods (c : cls) : list string :=
  match c with
  | object => ["__init__"]
  | Animal => ["__init__"; "speak"]
  | FlyMixin => ["fly"]
  | WalkMixin => ["walk"]
  | SwimMixin => ["swim"]
  | Duck | Dog | Eagle | Fish => ["speak"]
  end.

Definition defines (c : cls) (name : string) : bool :=
  bool_decide (name ∈ methods c).

Definition depth : nat := 3.

Local Abbreviation W := (world cls).

(** [f"{self.name}<rest>"] *)
Definition name_then (self : nat) (rest : string) : M W value :=
  bind (getattr self "name") (λ n,
  bind (lift (py_str n)) (λ s,
  ret (VStr (s +:+ rest)))).

Definition Animal___init__ (self : nat) (args : list value) : M W value :=
  match args with
  | [name] => bind (setattr self "name" name) (λ _, ret VNone)
  | _ => raise TypeError
  end.

Definition Animal_speak (self : nat) : M W value :=
  name_then self " makes a sound.".

Definition FlyMixin_fly (self : nat) : M W value :=
  name_then self " is flying!".

Definition WalkMixin_walk (self : nat) : M W value :=
  name_then self " is walking.".

Definition SwimMixin_swim (self : nat) : M W value :=
  name_then self " is swimming.".

Definition Duck_speak (self : nat) : M W value :=
  name_then self " says quack!".

Definition Dog_speak (self : nat) : M W value :=
  name_then self " says woof!".

Definition Eagle_speak (self : nat) : M W value :=
  name_then self " screeches!".

Definition Fish_speak (self : nat) : M W value :=
  name_then self " blubs.".

Definition nullary (args : list value) (m : M W value) : M W value :=
  match args with
  | [] => m
  | _ => raise TypeError
  end.

Definition body (d : cls) (name : string) (self : nat) (args : list value)
  : M W value :=
  match d, name with
  | object, "__init__" => nullary args (ret VNone)
  | Animal, "__init__" => Animal___init__ self args
  | Animal, "speak" => nullary args (Animal_speak self)
  | FlyMixin, "fly" => nullary args (FlyMixin_fly self)
  | WalkMixin, "walk" => nullary args (WalkMixin_walk self)
  | SwimMixin, "swim" => nullary args (SwimMixin_swim self)
  | Duck, "speak" => nullary args (Duck_speak self)
  | Dog, "speak" => nullary args (Dog_speak self)
  | Eagle, "speak" => nullary args (Eagle_speak self)
  | Fish, "speak" => nullary args (Fish_speak self)
  | _, _ => raise (AttributeError name)
  end.

Definition bodies
    (self_call : nat → string → list value → M W value)
    (super_call explicit : cls → nat → string → list value → M W value)
  : cls → string → nat → list value → M W value :=
  body.

Definition has_method (c : cls) (name : string) : bool :=
  match resolve bases defines depth c name with
  | Some _ => true
  | None => false
  end.

Definition call (fuel : nat) (o : nat) (name : string) (args : list value)
  : M W value :=
  call_method bases defines depth bodies fuel o name args.

Definition new (fuel : nat) (c : cls) (args : list value) : M W nat :=
  instantiate bases defines depth bodies fuel c args.

End MixinSimple.

(* ===================================================================== *)
(** ** singleton/01_new_pitfall.py: reading the configuration *)
(* ===================================================================== *)

Module NewPitfallAccess.
Import Py Config NewPitfall.

Local Abbreviation W := (world cls).

(** [self._config]: the instance attribute once [_load_config] has set
    it, the class attribute [_config = None] until then. *)
Definition self__config (self : nat) : M W value :=
  λ w, match heap w !! self with
       | Some ob =>
           (Ok match ob_dict ob !! "_config" with
               | Some v => v
               | None => VNone
               end, w)
       | None => (Raise (AttributeError "_config"), w)
       end.

(** [def get(self, key, default=None): return self._config.get(key,
    default)]; [None] has no attribute [get]. *)
Definition ConfigManager_get (self : nat) (key default : value)
  : M process value :=
  in_world (bind (enter ConfigManager "get") (λ _,
            bind (self__config self) (λ cfg,
            match cfg with
            | VDict d =>
                match key with
                | VStr k =>
                    ret (match d !! k with Some v => v | None => default end)
                | VList _ | VDict _ => raise TypeError      (* unhashable *)
                | _ => ret default
                end
            | _ => raise (AttributeError "get")
            end))).

End NewPitfallAccess.

(* ===================================================================== *)
(** * Properties *)
(* ===================================================================== *)

(** ** Running monadic code symbolically *)

Module PyFacts.
Import Py.

Section Monad.
Context {W A B : Type}.

Lemma bind_ok (m : M W A) (k : A → M W B) w a w' :
  m w = (Ok a, w') → bind m k w = k a w'.
Proof. intros E. unfold bind. by rewrite E. Qed.

Lemma bind_raised (m : M W A) (k : A → M W B) w e w' :
  m w = (Raise e, w') → bind m k w = (Raise e, w').
Proof. intros E. unfold bind. by rewrite E. Qed.

Lemma bind_ret (a : A) (k : A → M W B) w : bind (ret a) k w = k a w.
Proof. reflexivity. Qed.

Lemma bind_raise e (k : A → M W B) w :
  bind (raise e) k w = (Raise e, w).
Proof. reflexivity. Qed.

Lemma bind_lift_ok (a : A) (k : A → M W B) w :
  bind (lift (Ok a)) k w = k a w.
Proof. reflexivity. Qed.

Lemma bind_assoc {D} (m : M W A) (f : A → M W B) (g : B → M W D) w :
  bind (bind m f) g w = bind m (λ a, bind (f a) g) w.
Proof. unfold bind. destruct (m w) as [[a|e] w1]; reflexivity. Qed.
End Monad.

Section Primitives.
Context {C B : Type}.
Local Abbreviation W := (world C).
Implicit Types (w : W) (o : nat).

Lemma bind_print s (k : unit → M W B) w :
  bind (print s) k w = k tt (with_stdout (stdout w ++ [s]) w).
Proof. reflexivity. Qed.

Lemma bind_enter d n (k : unit → M W B) w :
  bind (enter d n) k w = k tt (with_trace (trace w ++ [(d, n)]) w).
Proof. reflexivity. Qed.

Lemma bind_object_new ty (k : nat → M W B) w :
  bind (object_new ty) k w =
  k (next_id w)
    (mk_world (<[next_id w := mk_object ty ∅]> (heap w)) (S (next_id w))
              (stdout w) (environ w) (rng w) (draws w) (trace w)).
Proof. reflexivity. Qed.

Lemma bind_type_of o (k : C → M W B) w ob :
  heap w !! o = Some ob → bind (type_of o) k w = k (ob_type ob) w.
Proof. intros E. unfold bind, type_of. by rewrite E. Qed.

Lemma bind_getattr o n (k : value → M W B) w ob v :
  heap w !! o = Some ob → ob_dict ob !! n = Some v →
  bind (getattr o n) k w = k v w.
Proof. intros E1 E2. unfold bind, getattr. by rewrite E1, E2. Qed.

Lemma bind_setattr o n v (k : unit → M W B) w ob :
  heap w !! o = Some ob →
  bind (setattr o n v) k w =
  k tt (with_heap (<[o := mk_object (ob_type ob)
                                    (<[n := v]> (ob_dict ob))]> (heap w)) w).
Proof. intros E. unfold bind, setattr. by rewrite E. Qed.

Lemma bind_randint lo hi (k : nat → M W B) w :
  bind (randint lo hi) k w =
  k (lo + rng w (draws w) mod S (hi - lo))
    (mk_world (heap w) (next_id w) (stdout w) (environ w) (rng w)
              (S (draws w)) (trace w)).
Proof. reflexivity. Qed.

Lemma bind_getenv key (k : option string → M W B) w :
  bind (getenv key) k w = k (environ w !! key) w.
Proof. reflexivity. Qed.

Lemma bind_getenv_default key dflt (k : string → M W B) w :
  bind (getenv_default key dflt) k w =
  k (match environ w !! key with Some v => v | None => dflt end) w.
Proof. reflexivity. Qed.
End Primitives.

(** Unfold one level of the interpreter. *)
Lemma invoke_S {C} `{EqDecision C} bases defines depth body fuel
    (d : C) name self args :
  invoke bases defines depth body (S fuel) d name self args =
  bind (enter d name) (λ _,
    body
      (λ o n a,
         bind (type_of o) (λ ty,
         via (resolve bases defines depth ty n) n
             (λ d', invoke bases defines depth body fuel d' n o a)))
      (λ at_cls o n a,
         bind (type_of o) (λ ty,
         via (resolve_super bases defines depth ty at_cls n) n
             (λ d', invoke bases defines depth body fuel d' n o a)))
      (λ k o n a,
         via (resolve bases defines depth k n) n
             (λ d', invoke bases defines depth body fuel d' n o a))
      d name self args).
Proof. reflexivity. Qed.

End PyFacts.

(** ** Mixins that modify shared state *)

Module AttributeModifyingMixinFacts.
Import Py PyFacts AttributeModifyingMixin.

Local Abbreviation W := (world cls).
Implicit Types (w : W) (o : nat).

Lemma mro_DeluxePizza :
  mro_of DeluxePizza =
  Some [DeluxePizza; OlivesMixin; CheeseMixin; PepperoniMixin; PlainPizza;
        object].
Proof. reflexivity. Qed.

(** The object a pizza is after its toppings have become [l]. *)
Definition pizza (d : gmap string value) (l : list value) : object_ cls :=
  mk_object DeluxePizza (<["toppings" := VList l]> d).

Lemma add_topping (meth item line : string) (D : cls) f w o d l :
  resolve bases defines depth DeluxePizza meth = Some D →
  (∀ sc self, body sc D meth self [] =
     bind (print line) (λ _,
     bind (toppings_iadd self item) (λ _, ret VNone))) →
  heap w !! o = Some (mk_object DeluxePizza d) →
  d !! "toppings" = Some (VList l) →
  call (S f) o meth [] w =
  (Ok VNone,
   with_heap (<[o := pizza d (l ++ [VStr item])]> (heap w))
     (with_stdout (stdout w ++ [line])
        (with_trace (trace w ++ [(D, meth)]) w))).
Proof.
  intros Hres Hbody Hob Htop.
  unfold call, call_method.
  rewrite (bind_type_of _ _ _ _ Hob). cbn [ob_type]. rewrite Hres.
  cbn [via]. rewrite invoke_S, bind_enter. unfold bodies. rewrite Hbody.
  rewrite bind_print. unfold toppings_iadd.
  rewrite bind_assoc.
  erewrite bind_getattr; [| exact Hob | exact Htop].
  cbv beta iota.
  erewrite bind_setattr; [| exact Hob].
  reflexivity.
Qed.

Local Ltac heap_lookup :=
  cbn [heap with_heap with_stdout with_trace ob_dict ob_type pizza];
  rewrite ?lookup_insert_eq; reflexivity.

Lemma prepare_pizza_spec f w o d :
  heap w !! o = Some (mk_object DeluxePizza d) →
  d !! "toppings" = Some (VList []) →
  ∃ w',
    call (S (S f)) o "prepare_pizza" [] w = (Ok VNone, w') ∧
    heap w' !! o =
      Some (pizza d [VStr "olives"; VStr "cheese"; VStr "pepperoni"]) ∧
    stdout w' =
      stdout w ++ ["Adding olives!"; "Adding cheese!"; "Adding pepperoni!"] ∧
    next_id w' = next_id w.
Proof.
  intros Hob Htop.
  eexists. split.
  - unfold call, call_method.
    rewrite (bind_type_of _ _ _ _ Hob). cbn [ob_type].
    change (resolve bases defines depth DeluxePizza "prepare_pizza")
      with (Some DeluxePizza).
    cbn [via]. rewrite invoke_S, bind_enter.
    unfold bodies. cbn [body nullary]. unfold DeluxePizza_prepare_pizza.
    erewrite bind_ok;
      [| apply (add_topping "add_olives" "olives" "Adding olives!"
                  OlivesMixin f _ o d []);
         [reflexivity | reflexivity | exact Hob | exact Htop]].
    erewrite bind_ok;
      [| eapply (add_topping "add_cheese" "cheese" "Adding cheese!"
                   CheeseMixin);
         [reflexivity | reflexivity | heap_lookup | heap_lookup]].
    erewrite bind_ok;
      [| eapply (add_topping "add_pepperoni" "pepperoni"
                   "Adding pepperoni!" PepperoniMixin);
         [reflexivity | reflexivity | heap_lookup | heap_lookup]].
    reflexivity.
  - cbn [heap with_heap with_stdout with_trace stdout next_id].
    rewrite lookup_insert_eq. unfold pizza.
    rewrite !insert_insert_eq, <- !app_assoc. done.
Qed.

Lemma show_toppings_spec f w o d :
  heap w !! o =
    Some (pizza d [VStr "olives"; VStr "cheese"; VStr "pepperoni"]) →
  call (S f) o "show_toppings" [] w =
  (Ok (VStr "Toppings: olives, cheese, pepperoni"),
   with_trace (trace w ++ [(PlainPizza, "show_toppings")]) w).
Proof.
  intros Hob. unfold call, call_method.
  rewrite (bind_type_of _ _ _ _ Hob). cbn [ob_type pizza].
  change (resolve bases defines depth DeluxePizza "show_toppings")
    with (Some PlainPizza).
  cbn [via]. rewrite invoke_S, bind_enter.
  unfold bodies. cbn [body nullary]. unfold PlainPizza_show_toppings.
  erewrite bind_getattr; [| exact Hob | heap_lookup].
  reflexivity.
Qed.

Lemma new_DeluxePizza f w :
  ∃ w',
    new (S f) DeluxePizza w = (Ok (next_id w), w') ∧
    heap w' !! next_id w = Some (pizza ∅ []) ∧
    stdout w' = stdout w ∧
    next_id w' = S (next_id w).
Proof.
  eexists. split.
  - unfold new, instantiate. rewrite bind_object_new.
    unfold call_method.
    erewrite bind_ok; [reflexivity |].
    erewrite bind_type_of; [| heap_lookup]. cbn [ob_type].
    change (resolve bases defines depth DeluxePizza "__init__")
      with (Some PlainPizza).
    cbn [via]. rewrite invoke_S, bind_enter.
    unfold bodies. cbn [body nullary]. unfold PlainPizza___init__.
    erewrite bind_setattr; [| heap_lookup].
    reflexivity.
  - cbn [heap with_heap with_stdout with_trace stdout next_id ob_dict
         ob_type].
    rewrite lookup_insert_eq. done.
Qed.

(** C7.  [DeluxePizza] answers to exactly the methods its mixins, its base
    class and its own body define, each found in the class that
    contributes it; and building a deluxe pizza, preparing it and asking
    for its toppings, in any process state, returns the new object and
    "Toppings: olives, cheese, pepperoni": the three mixin methods have
    appended to the one [toppings] list that [PlainPizza.__init__] created
    and [PlainPizza.show_toppings] reads. *)
Theorem mixins_compose_and_share_state :
  (∀ name,
     has_method DeluxePizza name = true ↔
     name ∈ methods OlivesMixin ++ methods CheeseMixin ++
            methods PepperoniMixin ++ methods PlainPizza ++
            methods DeluxePizza) ∧
  resolve bases defines depth DeluxePizza "add_olives" = Some OlivesMixin ∧
  resolve bases defines depth DeluxePizza "add_cheese" = Some CheeseMixin ∧
  resolve bases defines depth DeluxePizza "add_pepperoni"
    = Some PepperoniMixin ∧
  resolve bases defines depth DeluxePizza "show_toppings"
    = Some PlainPizza ∧
  ∀ (fuel : nat) (w : W), ∃ w',
    deluxe_demo (S (S fuel)) w =
      (Ok (next_id w, VStr "Toppings: olives, cheese, pepperoni"), w') ∧
    (∃ ob, heap w' !! next_id w = Some ob ∧
           ob_type ob = DeluxePizza ∧
           ob_dict ob !! "toppings" =
             Some (VList [VStr "olives"; VStr "cheese"; VStr "pepperoni"])) ∧
    stdout w' =
      stdout w ++ ["Adding olives!"; "Adding cheese!"; "Adding pepperoni!"].
Proof.
  split; [| repeat split; try reflexivity].
  - intros name. unfold has_method, resolve.
    change (mro bases depth DeluxePizza) with
      (Some [DeluxePizza; OlivesMixin; CheeseMixin; PepperoniMixin;
             PlainPizza; object]).
    cbn [first_defining]. unfold defines. cbn [methods app].
    repeat (case_bool_decide as Hn;
            [ rewrite !elem_of_cons, elem_of_nil in Hn | revert Hn ]);
      rewrite !elem_of_cons, elem_of_nil; intuition congruence.
  - intros fuel w.
    destruct (new_DeluxePizza (S fuel) w) as (w1 & E1 & Hob1 & Hout1 & Hid1).
    destruct (prepare_pizza_spec fuel w1 (next_id w) ∅ Hob1)
      as (w2 & E2 & Hob2 & Hout2 & Hid2).
    { unfold pizza. apply lookup_insert_eq. }
    pose proof (show_toppings_spec (S fuel) w2 (next_id w) _ Hob2) as E3.
    eexists. split; [| split].
    + unfold deluxe_demo.
      rewrite (bind_ok _ _ _ _ _ E1), (bind_ok _ _ _ _ _ E2),
        (bind_ok _ _ _ _ _ E3).
      reflexivity.
    + cbn [heap with_trace]. eexists. split; [exact Hob2 |].
      split; [reflexivity |]. unfold pizza. cbn [ob_dict].
      apply lookup_insert_eq.
    + cbn [stdout with_trace]. by rewrite Hout2, Hout1.
Qed.

End AttributeModifyingMixinFacts.

(** ** Constructors in mixins *)

Module MixinConstructorPitfallFacts.
Import Py PyFacts MixinConstructorPitfall.

Local Abbreviation W := (world cls).
Implicit Types (w : W) (o : nat).

Lemma mro_MyClass : mro_of MyClass = Some [MyClass; MixinA; MixinB; object].
Proof. reflexivity. Qed.

Lemma mro_ClassC :
  mro_of ClassC = Some [ClassC; NameMixin; TimestampMixin; object].
Proof. reflexivity. Qed.

Local Ltac heap_lookup :=
  cbn [heap with_heap with_stdout with_trace ob_dict ob_type];
  rewrite ?lookup_insert_eq; reflexivity.

(** Run [explicit Cls self "__init__" [v]] for a mixin that stores its one
    argument under [attr]. *)
Lemma store_one_argument (D : cls) (attr : string) f w o ob v :
  resolve bases defines depth D "__init__" = Some D →
  (∀ sc ex self, body sc ex D "__init__" self [v] =
     bind (setattr self attr v) (λ _, ret VNone)) →
  heap w !! o = Some ob →
  via (resolve bases defines depth D "__init__") "__init__"
      (λ d', invoke bases defines depth bodies (S f) d' "__init__" o [v]) w =
  (Ok VNone,
   with_heap (<[o := mk_object (ob_type ob) (<[attr := v]> (ob_dict ob))]>
                (heap w))
     (with_trace (trace w ++ [(D, "__init__")]) w)).
Proof.
  intros Hres Hbody Hob. rewrite Hres. cbn [via].
  rewrite invoke_S, bind_enter. unfold bodies. rewrite Hbody.
  erewrite bind_setattr; [reflexivity | exact Hob].
Qed.

(** C6.  In any process state, [MyClass()] returns the new object after
    entering [MyClass.__init__] and [MixinA.__init__] and nothing else, so
    that "MixinA init" is the only line printed and the initialiser of
    [MixinB] is skipped; [ClassC(name, timestamp, c_value)], which calls
    the initialisers of [NameMixin] and [TimestampMixin] by name, enters
    both and leaves the three attributes set. *)
Theorem single_super_chain_skips_second_mixin :
  (∀ (fuel : nat) (w : W), ∃ w',
     new (S (S fuel)) MyClass [] w = (Ok (next_id w), w') ∧
     trace w' = trace w ++ [(MyClass, "__init__"); (MixinA, "__init__")] ∧
     stdout w' = stdout w ++ ["MixinA init"] ∧
     (MixinB, "__init__") ∉ drop (length (trace w)) (trace w')) ∧
  (∀ (fuel : nat) (w : W) (name timestamp c_value : value), ∃ w',
     new (S (S fuel)) ClassC [name; timestamp; c_value] w
       = (Ok (next_id w), w') ∧
     trace w' = trace w ++ [(ClassC, "__init__"); (NameMixin, "__init__");
                            (TimestampMixin, "__init__")] ∧
     attr_of w' (next_id w) "name" = Some name ∧
     attr_of w' (next_id w) "timestamp" = Some timestamp ∧
     attr_of w' (next_id w) "c_value" = Some c_value).
Proof.
  split.
  - intros fuel w. eexists. split; [| split; [| split]].
    + unfold new, instantiate. rewrite bind_object_new.
      unfold call_method.
      erewrite bind_ok; [reflexivity |].
      erewrite bind_type_of; [| heap_lookup]. cbn [ob_type].
      change (resolve bases defines depth MyClass "__init__")
        with (Some MyClass).
      cbn [via]. rewrite invoke_S, bind_enter.
      unfold bodies. cbn [body String.eqb Ascii.eqb Bool.eqb].
      unfold MyClass___init__.
      erewrite (bind_ok (bind (type_of _) _)); [reflexivity |].
      erewrite bind_type_of; [| heap_lookup]. cbn [ob_type].
      change (resolve_super bases defines depth MyClass MyClass "__init__")
        with (Some MixinA).
      cbn [via]. rewrite invoke_S, bind_enter.
      cbn [body String.eqb Ascii.eqb Bool.eqb]. unfold MixinA___init__.
      rewrite bind_print. reflexivity.
    + cbn [trace with_trace with_stdout]. by rewrite <- app_assoc.
    + reflexivity.
    + cbn [trace with_trace with_stdout]. rewrite <- app_assoc.
      rewrite drop_app_length. cbn.
      rewrite !elem_of_cons, elem_of_nil. intros [?|[?|[]]]; discriminate.
  - intros fuel w name timestamp c_value. eexists. split; [| split].
    + unfold new, instantiate. rewrite bind_object_new.
      unfold call_method.
      erewrite bind_ok; [reflexivity |].
      erewrite bind_type_of; [| heap_lookup]. cbn [ob_type].
      change (resolve bases defines depth ClassC "__init__")
        with (Some ClassC).
      cbn [via]. rewrite invoke_S, bind_enter.
      unfold bodies. cbn [body String.eqb Ascii.eqb Bool.eqb].
      unfold ClassC___init__.
      erewrite bind_ok;
        [| eapply (store_one_argument NameMixin "name");
           [reflexivity | reflexivity | heap_lookup]].
      erewrite bind_ok;
        [| eapply (store_one_argument TimestampMixin "timestamp");
           [reflexivity | reflexivity | heap_lookup]].
      erewrite bind_setattr; [| heap_lookup].
      reflexivity.
    + cbn [trace with_trace with_heap]. by rewrite <- !app_assoc.
    + unfold attr_of.
      cbn [heap with_heap with_trace ob_dict ob_type].
      rewrite !lookup_insert_eq. cbn [ob_dict].
      rewrite lookup_insert_eq.
      rewrite !lookup_insert_ne by done.
      rewrite !lookup_insert_eq, lookup_insert_ne by done.
      by rewrite lookup_insert_eq.
Qed.

End MixinConstructorPitfallFacts.

(** ** The sequential accessors *)

Module SingletonFacts.
Import Py PyFacts Singleton.

Section Accessors.
Context {C : Type} `{Countable C}.
Local Abbreviation W := (world C).

Variable init : C → nat → list value → M W unit.

Implicit Types (st : store (C := C)) (cls : C) (o : nat)
  (args : list value).

(** The two accessors are the same code. *)
Lemma SingletonMeta_call_unfold cls args :
  SingletonMeta___call__ init cls args = get_instance init cls args.
Proof. reflexivity. Qed.

(** A hit: the stored instance is returned and nothing changes. *)
Lemma get_instance_hit cls args st o :
  instances st !! cls = Some o →
  get_instance init cls args st = (Ok o, st).
Proof.
  intros E. unfold get_instance, bind, contains, getitem.
  rewrite E, bool_decide_true by (by eexists). cbn. by rewrite E.
Qed.

(** A miss whose constructor call returns: the object is stored. *)
Lemma get_instance_miss cls args st o w' :
  instances st !! cls = None →
  type_call init cls args (world_of st) = (Ok o, w') →
  get_instance init cls args st =
  (Ok o, mk_store (<[cls := o]> (instances st)) (built st ++ [cls]) w').
Proof.
  intros E Hc. unfold get_instance, bind, contains, getitem.
  rewrite E, bool_decide_false by apply is_Some_None.
  unfold construct. rewrite Hc. unfold setitem, modify. cbn.
  by rewrite lookup_insert_eq.
Qed.

(** A miss whose constructor call raises: the exception passes through,
    the dictionary is left as it was. *)
Lemma get_instance_miss_raise cls args st e w' :
  instances st !! cls = None →
  type_call init cls args (world_of st) = (Raise e, w') →
  get_instance init cls args st =
  (Raise e, mk_store (instances st) (built st ++ [cls]) w').
Proof.
  intros E Hc. unfold get_instance, bind, contains.
  rewrite E, bool_decide_false by apply is_Some_None.
  unfold construct. by rewrite Hc.
Qed.

(** Whatever happens, entries already present stay. *)
Lemma get_instance_keeps cls args st c o :
  instances st !! c = Some o →
  instances (get_instance init cls args st).2 !! c = Some o.
Proof.
  intros E. destruct (instances st !! cls) as [o'|] eqn:Ecls.
  - by rewrite (get_instance_hit _ _ _ _ Ecls).
  - destruct (type_call init cls args (world_of st)) as [[o'|e] w'] eqn:Hc.
    + rewrite (get_instance_miss _ _ _ _ _ Ecls Hc). cbn.
      rewrite lookup_insert_ne; [done | congruence].
    + by rewrite (get_instance_miss_raise _ _ _ _ _ Ecls Hc).
Qed.

Lemma call_seq_hits cls st o (argss : list (list value)) :
  instances st !! cls = Some o →
  call_seq (get_instance init cls) argss st =
  (Ok (replicate (length argss) o), st).
Proof.
  intros E. induction argss as [| args rest IH]; [reflexivity |].
  cbn [call_seq length replicate].
  rewrite (bind_ok _ _ _ _ _ (get_instance_hit cls args st o E)).
  by rewrite (bind_ok _ _ _ _ _ IH).
Qed.

(** The allocation done by [type.__call__]. *)
Lemma type_call_result cls args w :
  type_call init cls args w =
  let w0 := mk_world (<[next_id w := mk_object cls ∅]> (heap w))
                     (S (next_id w)) (stdout w) (environ w) (rng w)
                     (draws w) (trace w) in
  match init cls (next_id w) args w0 with
  | (Ok _, w') => (Ok (next_id w), w')
  | (Raise e, w') => (Raise e, w')
  end.
Proof.
  unfold type_call. rewrite bind_object_new. unfold bind.
  by destruct (init _ _ _ _) as [[[]|e] w'].
Qed.

(** C2.  Take a class with no instance registered yet and a first call
    whose constructor returns object [o].  Then, for the decorator's
    [get_instance] and for [SingletonMeta.__call__] alike, the first call
    returns [o] after exactly one constructor call, and any number of
    further calls, whatever their arguments, return that same [o] and
    leave the state alone: the constructor has run once in all. *)
Theorem accessor_constructs_once_and_returns_first_instance
    cls args (argss : list (list value)) st o w' :
  instances st !! cls = None →
  type_call init cls args (world_of st) = (Ok o, w') →
  let after_first :=
    mk_store (<[cls := o]> (instances st)) (built st ++ [cls]) w' in
  (get_instance init cls args st = (Ok o, after_first) ∧
   call_seq (get_instance init cls) (args :: argss) st =
     (Ok (replicate (S (length argss)) o), after_first)) ∧
  (SingletonMeta___call__ init cls args st = (Ok o, after_first) ∧
   call_seq (SingletonMeta___call__ init cls) (args :: argss) st =
     (Ok (replicate (S (length argss)) o), after_first)) ∧
  length (filter (λ c, c = cls) (built after_first)) =
    S (length (filter (λ c, c = cls) (built st))).
Proof.
  intros E Hc after_first.
  pose proof (get_instance_miss cls args st o w' E Hc) as Hfirst.
  fold after_first in Hfirst.
  assert (Hrest : call_seq (get_instance init cls) (args :: argss) st =
                  (Ok (replicate (S (length argss)) o), after_first)).
  { cbn [call_seq replicate].
    rewrite (bind_ok _ _ _ _ _ Hfirst).
    erewrite bind_ok; [reflexivity |].
    apply call_seq_hits. apply lookup_insert_eq. }
  repeat split; try assumption.
  cbn [built after_first]. rewrite filter_app, length_app. cbn.
  rewrite decide_True by done. cbn. lia.
Qed.

(** The part of C4 about the plain decorator: a first call whose
    constructor raises passes the exception on, leaves the dictionary as
    it was, and the next call runs the constructor again. *)
Lemma get_instance_failure_not_published cls args st e w' :
  instances st !! cls = None →
  type_call init cls args (world_of st) = (Raise e, w') →
  let st1 := (get_instance init cls args st).2 in
  (get_instance init cls args st).1 = Raise e ∧
  instances st1 = instances st ∧
  world_of st1 = w' ∧
  ∀ args2,
    built (get_instance init cls args2 st1).2 = built st ++ [cls; cls] ∧
    (get_instance init cls args2 st1).1 = (type_call init cls args2 w').1.
Proof.
  intros E Hc st1. subst st1.
  rewrite (get_instance_miss_raise _ _ _ _ _ E Hc). cbn [fst snd].
  repeat split; try reflexivity.
  - destruct (type_call init cls args2 w') as [[o2|e2] w2] eqn:Hc2.
    + erewrite get_instance_miss; [| exact E | exact Hc2].
      cbn. by rewrite <- app_assoc.
    + erewrite get_instance_miss_raise; [| exact E | exact Hc2].
      cbn. by rewrite <- app_assoc.
  - destruct (type_call init cls args2 w') as [[o2|e2] w2] eqn:Hc2.
    + by erewrite get_instance_miss; [| exact E | exact Hc2].
    + by erewrite get_instance_miss_raise; [| exact E | exact Hc2].
Qed.

(** *** Distinct classes, distinct instances *)

(** Initialisers allocate; they never hand back an identity. *)
Hypothesis init_allocates :
  ∀ c o args w, next_id w ≤ next_id (init c o args w).2.

Lemma type_call_fresh cls args w :
  next_id w < next_id (type_call init cls args w).2 ∧
  ∀ o, (type_call init cls args w).1 = Ok o → o = next_id w.
Proof.
  rewrite type_call_result. cbv zeta.
  match goal with |- context [init ?c ?o ?a ?w0] =>
    pose proof (init_allocates c o a w0) as Hm;
    destruct (init c o a w0) as [[[]|e] w'] end;
    cbn in *; split; try lia; congruence.
Qed.

(** Registered objects have been allocated, and no object is registered
    under two classes. *)
Definition well_formed st : Prop :=
  (∀ c o, instances st !! c = Some o → o < next_id (world_of st)) ∧
  (∀ c1 c2 o, instances st !! c1 = Some o → instances st !! c2 = Some o →
              c1 = c2).

Lemma well_formed_call st cls args :
  well_formed st → well_formed (get_instance init cls args st).2.
Proof.
  intros [Hb Hi].
  destruct (instances st !! cls) as [o'|] eqn:Ecls.
  { by rewrite (get_instance_hit _ _ _ _ Ecls). }
  destruct (type_call_fresh cls args (world_of st)) as [Hlt Hid].
  destruct (type_call init cls args (world_of st)) as [[o'|e] w'] eqn:Hc.
  - rewrite (get_instance_miss _ _ _ _ _ Ecls Hc).
    specialize (Hid o' eq_refl). subst o'. cbn in Hlt.
    split; cbn.
    + intros c o. rewrite lookup_insert. case_decide.
      * intros [= <-]. lia.
      * intros E. specialize (Hb _ _ E). lia.
    + intros c1 c2 o. rewrite !lookup_insert.
      repeat case_decide; subst; try done.
      * intros [= <-] E. specialize (Hb _ _ E). lia.
      * intros E [= <-]. specialize (Hb _ _ E). lia.
      * apply Hi.
  - rewrite (get_instance_miss_raise _ _ _ _ _ Ecls Hc).
    cbn in Hlt. split; cbn; [| exact Hi].
    intros c o E. specialize (Hb _ _ E). lia.
Qed.

Lemma reachable_well_formed st : reachable init st → well_formed st.
Proof.
  induction 1 as [w | st cls args _ IH | st w' _ IH Hle].
  - split; cbn; intros *; by rewrite lookup_empty.
  - by apply well_formed_call.
  - destruct IH as [Hb Hi]. split; cbn; [| exact Hi].
    intros c o E. specialize (Hb _ _ E). lia.
Qed.

(** C10.  In every state a program reaches through
    [SingletonMeta.__call__], two different classes (a class and its
    subclass, as [Logger] and [FileLogger]) never share their registered
    instance; and a call of the metaclass for any class, whether it
    returns or raises, leaves the instance registered for another class
    where it was. *)
Theorem metaclass_keeps_one_instance_per_class :
  (∀ st c1 c2 o1 o2,
     reachable init st → c1 ≠ c2 →
     instances st !! c1 = Some o1 → instances st !! c2 = Some o2 →
     o1 ≠ o2) ∧
  (∀ st base sub args o,
     base ≠ sub →
     instances st !! base = Some o →
     instances (SingletonMeta___call__ init sub args st).2 !! base
       = Some o).
Proof.
  split.
  - intros st c1 c2 o1 o2 Hr Hne E1 E2 ->.
    destruct (reachable_well_formed st Hr) as [_ Hi]. eauto.
  - intros st base sub args o _ E. by apply get_instance_keeps.
Qed.
End Accessors.

End SingletonFacts.

(** ** Configuration defaults *)

Module ConfigFacts.
Import Py PyFacts Config.

Section Loading.
Context {C : Type}.
Local Abbreviation W := (world C).
Implicit Types (w : W).

(** [_load_config] reads the environment and changes nothing; it fails
    only when [MAX_CONN] is not a number. *)
Lemma config_display_result w :
  config_display w =
  match py_int (default "10" (environ w !! "MAX_CONN")) with
  | Ok n =>
      (Ok (<["max_connections" := VInt n]>
           (<["debug_mode" :=
                VBool (String.eqb
                         (str_lower (default "False" (environ w !! "DEBUG")))
                         "true")]>
           (<["api_key" := of_optional (environ w !! "API_KEY")]> ∅))), w)
  | Raise e => (Raise e, w)
  end.
Proof.
  unfold config_display.
  rewrite bind_getenv, !bind_getenv_default. unfold bind, lift, default.
  by destruct (py_int _).
Qed.

Lemma db_config_display_result w :
  db_config_display w =
  match py_int (default "5432" (environ w !! "DB_PORT")) with
  | Ok n =>
      (Ok (<["db_name" := VStr (default "myapp" (environ w !! "DB_NAME"))]>
           (<["db_port" := VInt n]>
           (<["db_host" :=
                VStr (default "localhost" (environ w !! "DB_HOST"))]> ∅))),
       w)
  | Raise e => (Raise e, w)
  end.
Proof.
  unfold db_config_display, bind, getenv_default, lift, ret, default.
  by destruct (py_int _).
Qed.
End Loading.
End ConfigFacts.

Module MetaclassExampleFacts.
Import Py PyFacts Config ConfigFacts MetaclassExample.

(** What [obj.get(key)] answers in the state [st]. *)
Definition get_of (st : Singleton.store (C := cls)) (o : nat) (key : string)
  : result value :=
  (call o "get" [VStr key] (Singleton.world_of st)).1.

(** C8.  [_load_config] succeeds whenever [MAX_CONN] is unset, and in the
    dictionary it builds [debug_mode] is [False] when [DEBUG] is unset,
    [max_connections] is 10 when [MAX_CONN] is unset and [api_key] is
    [None] when [API_KEY] is unset; likewise [_load_db_config] succeeds
    whenever [DB_PORT] is unset and gives [db_host] "localhost", [db_port]
    5432 and [db_name] "myapp" for the variables that are unset.  In a
    process with an empty environment, a [DatabaseConfigManager] answers
    [get] with these six values. *)
Theorem configuration_defaults {C : Type} (w : world C) :
  (environ w !! "MAX_CONN" = None → ∃ d, config_display w = (Ok d, w)) ∧
  (∀ d w', config_display w = (Ok d, w') →
     (environ w !! "DEBUG" = None →
        d !! "debug_mode" = Some (VBool false)) ∧
     (environ w !! "MAX_CONN" = None →
        d !! "max_connections" = Some (VInt 10)) ∧
     (environ w !! "API_KEY" = None → d !! "api_key" = Some VNone)) ∧
  (environ w !! "DB_PORT" = None → ∃ d, db_config_display w = (Ok d, w)) ∧
  (∀ d w', db_config_display w = (Ok d, w') →
     (environ w !! "DB_HOST" = None →
        d !! "db_host" = Some (VStr "localhost")) ∧
     (environ w !! "DB_PORT" = None → d !! "db_port" = Some (VInt 5432)) ∧
     (environ w !! "DB_NAME" = None → d !! "db_name" = Some (VStr "myapp"))) ∧
  (∀ rng : nat → nat,
     let r := make DatabaseConfigManager
                (Singleton.initial (fresh_world ∅ rng)) in
     r.1 = Ok 0 ∧
     get_of r.2 0 "api_key" = Ok VNone ∧
     get_of r.2 0 "debug_mode" = Ok (VBool false) ∧
     get_of r.2 0 "max_connections" = Ok (VInt 10) ∧
     get_of r.2 0 "db_host" = Ok (VStr "localhost") ∧
     get_of r.2 0 "db_port" = Ok (VInt 5432) ∧
     get_of r.2 0 "db_name" = Ok (VStr "myapp")).
Proof.
  split; [| split; [| split; [| split]]].
  - intros E. rewrite config_display_result, E. cbn [default].
    change (py_int "10") with (Ok 10%Z : result Z). eauto.
  - intros d w'. rewrite config_display_result.
    destruct (py_int _) as [n|e] eqn:Hn; [| discriminate].
    intros [= <- <-]. split; [| split]; intros E.
    + rewrite lookup_insert_ne, lookup_insert_eq by done.
      by rewrite E.
    + rewrite lookup_insert_eq. rewrite E in Hn.
      change (py_int (default "10" None)) with (Ok 10%Z : result Z) in Hn.
      congruence.
    + rewrite !lookup_insert_ne, lookup_insert_eq by done. by rewrite E.
  - intros E. rewrite db_config_display_result, E. cbn [default].
    change (py_int "5432") with (Ok 5432%Z : result Z). eauto.
  - intros d w'. rewrite db_config_display_result.
    destruct (py_int _) as [n|e] eqn:Hn; [| discriminate].
    intros [= <- <-]. split; [| split]; intros E.
    + rewrite !lookup_insert_ne, lookup_insert_eq by done. by rewrite E.
    + rewrite lookup_insert_ne, lookup_insert_eq by done. rewrite E in Hn.
      change (py_int (default "5432" None)) with (Ok 5432%Z : result Z)
        in Hn.
      congruence.
    + rewrite lookup_insert_eq. by rewrite E.
  - intros rng r. subst r. unfold get_of.
    repeat split; vm_compute; reflexivity.
Qed.

End MetaclassExampleFacts.

(** ** The [__new__]-based singleton *)

Module NewPitfallFacts.
Import Py PyFacts Config ConfigFacts NewPitfall.

Local Abbreviation W := (world cls).
Implicit Types (w : W) (p : process) (o : nat).

(** The number drawn by the [k]-th call of [randint(1, 100)] after [w]. *)
Definition drawn (w : W) (k : nat) : string :=
  pretty (1 + rng w (draws w + k) mod 100).

(** What a later call leaves behind. *)
Definition after_later_call (w : W) : W :=
  mk_world (heap w) (next_id w) (stdout w ++ [drawn w 0]) (environ w)
           (rng w) (S (draws w))
           (trace w ++ [(ConfigManager, "__new__");
                        (ConfigManager, "__init__")]).

(** Once the instance exists, a call returns it, runs [__init__] and does
    not load the configuration. *)
Lemma call_with_instance p o :
  _instance p = Some o →
  ConfigManager_call p =
  (Ok (Some o), mk_process (Some o) (after_later_call (world_of p))).
Proof.
  intros E. destruct p as [i w]. cbn in E. subst i.
  unfold ConfigManager_call, ConfigManager___new__, ConfigManager___init__,
    bind, in_world, read_instance, enter, modify, randint, print, ret,
    after_later_call, drawn.
  cbn. by rewrite Nat.add_0_r, <- app_assoc.
Qed.

Lemma call_keeps_instance p o :
  _instance p = Some o → _instance (ConfigManager_call p).2 = Some o.
Proof. intros E. by rewrite (call_with_instance p o E). Qed.

(** The first call: allocate, publish, load, then [__init__]. *)
Definition after_first_call (w : W) (d : gmap string value) : W :=
  mk_world (<[next_id w := mk_object ConfigManager (<["_config" := VDict d]> ∅)]>
              (<[next_id w := mk_object ConfigManager ∅]> (heap w)))
           (S (next_id w)) (stdout w ++ [drawn w 0]) (environ w)
           (rng w) (S (draws w))
           (trace w ++ [(ConfigManager, "__new__");
                        (ConfigManager, "_load_config");
                        (ConfigManager, "__init__")]).

(** The dictionary [_load_config] builds in [w] when [MAX_CONN] reads as
    [n]. *)
Definition loaded_config (w : W) (n : Z) : gmap string value :=
  <["max_connections" := VInt n]>
    (<["debug_mode" :=
         VBool (String.eqb (str_lower (default "False" (environ w !! "DEBUG")))
                           "true")]>
    (<["api_key" := of_optional (environ w !! "API_KEY")]> ∅)).

Lemma load_config_spec p o ob n :
  heap (world_of p) !! o = Some ob →
  py_int (default "10" (environ (world_of p) !! "MAX_CONN")) = Ok n →
  ConfigManager__load_config o p =
  (Ok VNone,
   mk_process (_instance p)
     (with_heap
        (<[o := mk_object (ob_type ob)
                  (<["_config" := VDict (loaded_config (world_of p) n)]>
                     (ob_dict ob))]> (heap (world_of p)))
        (with_trace (trace (world_of p) ++ [(ConfigManager, "_load_config")])
           (world_of p)))).
Proof.
  intros Hob Hn. unfold ConfigManager__load_config, in_world.
  rewrite bind_enter. unfold load_config.
  erewrite bind_ok;
    [| rewrite config_display_result; cbn [environ with_trace];
       rewrite Hn; reflexivity].
  erewrite bind_setattr; [reflexivity | exact Hob].
Qed.

Lemma call_without_instance w n :
  py_int (default "10" (environ w !! "MAX_CONN")) = Ok n →
  ConfigManager_call (loaded w) =
  (Ok (Some (next_id w)),
   mk_process (Some (next_id w)) (after_first_call w (loaded_config w n))).
Proof.
  intros Hn.
  unfold ConfigManager_call, ConfigManager___new__.
  erewrite bind_ok; [| erewrite bind_ok; [| reflexivity];
                       erewrite bind_ok; [| reflexivity];
                       erewrite bind_ok; [reflexivity |];
                       cbn [_instance loaded];
                       erewrite bind_ok; [| reflexivity];
                       erewrite bind_ok; [| reflexivity];
                       erewrite bind_ok; [| reflexivity];
                       cbn [_instance];
                       erewrite bind_ok; [reflexivity |];
                       eapply load_config_spec;
                       [ cbn; apply lookup_insert_eq | exact Hn ] ].
  cbn. unfold after_first_call, drawn, loaded_config.
  by rewrite Nat.add_0_r, <- !app_assoc.
Qed.

Local Ltac count_new_entries :=
  unfold entries; cbn [world_of after_later_call after_first_call trace];
  rewrite filter_app, length_app;
  match goal with
  | |- context [length (filter ?P (?a :: ?l))] =>
      let v := eval vm_compute in (length (filter P (a :: l))) in
      change (length (filter P (a :: l))) with v
  end;
  lia.

Lemma later_calls n : ∀ p o,
  _instance p = Some o →
  ∃ p',
    calls n p = (Ok (replicate n (Some o)), p') ∧
    _instance p' = Some o ∧
    entries "__init__" (world_of p')
      = entries "__init__" (world_of p) + n ∧
    entries "_load_config" (world_of p')
      = entries "_load_config" (world_of p) ∧
    stdout (world_of p')
      = stdout (world_of p) ++ (drawn (world_of p) <$> seq 0 n).
Proof.
  induction n as [| n IH]; intros p o E.
  - exists p. cbn. by rewrite Nat.add_0_r, app_nil_r.
  - pose proof (call_with_instance p o E) as Hcall.
    destruct (IH (mk_process (Some o) (after_later_call (world_of p))) o
                 eq_refl) as (p' & Hrest & Hi & Hinit & Hload & Hout).
    exists p'. split; [| split; [exact Hi | split; [| split]]].
    + cbn [calls replicate].
      rewrite (bind_ok _ _ _ _ _ Hcall), (bind_ok _ _ _ _ _ Hrest).
      reflexivity.
    + rewrite Hinit. count_new_entries.
    + rewrite Hload. count_new_entries.
    + rewrite Hout. cbn [world_of after_later_call stdout seq fmap list_fmap].
      rewrite <- app_assoc. f_equal. cbn [app]. f_equal.
      rewrite <- fmap_S_seq, <- list_fmap_compose.
      apply list_fmap_ext. intros _ k _. unfold drawn, compose. cbn.
      by rewrite Nat.add_succ_r.
Qed.

(** C9.  When the configuration can be loaded ([MAX_CONN] is unset or
    reads as a number), any number of calls [ConfigManager()] made one
    after another, starting with no instance, all return the object the
    first call allocated; [__init__] is entered once per call and prints
    one number per call; [_load_config] is entered once in all. *)
Theorem new_singleton_reruns_init (n : nat) (w : W) (z : Z) :
  py_int (default "10" (environ w !! "MAX_CONN")) = Ok z →
  ∃ p',
    calls (S n) (loaded w) = (Ok (replicate (S n) (Some (next_id w))), p') ∧
    _instance p' = Some (next_id w) ∧
    entries "__init__" (world_of p') = entries "__init__" w + S n ∧
    entries "_load_config" (world_of p') = entries "_load_config" w + 1 ∧
    stdout (world_of p') = stdout w ++ (drawn w <$> seq 0 (S n)).
Proof.
  intros Hz.
  pose proof (call_without_instance w z Hz) as Hfirst.
  destruct (later_calls n
              (mk_process (Some (next_id w))
                          (after_first_call w (loaded_config w z)))
              (next_id w) eq_refl)
    as (p' & Hrest & Hi & Hinit & Hload & Hout).
  exists p'. split; [| split; [exact Hi | split; [| split]]].
  - cbn [calls replicate].
    rewrite (bind_ok _ _ _ _ _ Hfirst), (bind_ok _ _ _ _ _ Hrest).
    reflexivity.
  - rewrite Hinit. count_new_entries.
  - rewrite Hload. count_new_entries.
  - rewrite Hout. cbn [world_of after_first_call stdout seq fmap list_fmap].
    rewrite <- app_assoc. f_equal. cbn [app]. f_equal.
    rewrite <- fmap_S_seq, <- list_fmap_compose.
    apply list_fmap_ext. intros _ k _. unfold drawn, compose. cbn.
    by rewrite Nat.add_succ_r.
Qed.

End NewPitfallFacts.

(** ** Subclassing a decorated class *)

Module DecoratorSubclassingFacts.
Import Py PyFacts DecoratorSubclassing.

Section ClassStatement.
Context {C : Type}.
Implicit Types (b : binding (C := C)) (bases : list (binding (C := C))).

(** The decorator hands back a function, never a class. *)
Lemma singleton_is_function b :
  ∃ c, singleton b = Ok (Function c) ∧
       type_of_binding (Function c) = TFunction.
Proof. destruct b as [c meta | c]; exists c; by split. Qed.

(** Once the type of functions leads, it stays or the bases conflict. *)
Lemma calculate_from_function bases :
  calculate_metaclass TFunction bases = Ok TFunction ∨
  calculate_metaclass TFunction bases = Raise TypeError.
Proof.
  induction bases as [| b rest IH]; [by left |].
  cbn. destruct (type_of_binding b); cbn; auto.
Qed.

(** With a function among the bases, no metaclass other than the type
    of functions can win. *)
Lemma calculate_with_function winner bases (c : C) post :
  calculate_metaclass winner (bases ++ Function c :: post)
    = Ok TFunction ∨
  calculate_metaclass winner (bases ++ Function c :: post)
    = Raise TypeError.
Proof.
  revert winner. induction bases as [| b rest IH]; intros winner.
  - cbn. destruct winner; cbn; auto using calculate_from_function.
  - cbn. destruct (issubclass winner (type_of_binding b)); [apply IH |].
    destruct (issubclass (type_of_binding b) winner); [apply IH | auto].
Qed.

(** C5.  Whatever class the decorator is applied to, the name ends up
    bound to a function; and a class statement that lists such a name
    among its bases, first, last or in between other bases, raises
    [TypeError].  In [demonstrate_decorator_issue] the [except
    TypeError] branch is the one that runs. *)
Theorem subclassing_decorated_class_raises (c : C) (meta : pytype) :
  ∃ decorated,
    singleton (Class c meta) = Ok decorated ∧
    type_of_binding decorated = TFunction ∧
    (∀ pre post,
       class_statement (pre ++ decorated :: post) = Raise TypeError) ∧
    demonstrate_decorator_issue c = Ok true.
Proof.
  exists (Function c). repeat split.
  intros pre post. unfold class_statement.
  destruct (calculate_with_function
              match pre ++ Function c :: post with
              | [] => TType
              | b :: _ => type_of_binding b
              end pre c post) as [-> | ->]; reflexivity.
Qed.
End ClassStatement.

(** *** The initialisers of [Logger] and [FileLogger] only allocate *)

Definition keeps_ids {A} (m : M (world cls) A) : Prop :=
  ∀ w, next_id (m w).2 = next_id w.

Lemma keeps_ret {A} (a : A) : keeps_ids (ret a).
Proof. by intros w. Qed.

Lemma keeps_raise {A} e : keeps_ids (raise (A := A) e).
Proof. by intros w. Qed.

Lemma keeps_lift {A} (r : result A) : keeps_ids (lift r).
Proof. by intros w. Qed.

Lemma keeps_bind {A B} (m : M (world cls) A) (k : A → M (world cls) B) :
  keeps_ids m → (∀ a, keeps_ids (k a)) → keeps_ids (bind m k).
Proof.
  intros Hm Hk w. unfold bind. specialize (Hm w).
  destruct (m w) as [[a|e] w1]; cbn in *; [| done].
  by rewrite Hk.
Qed.

Lemma keeps_print s : keeps_ids (print s).
Proof. by intros w. Qed.

Lemma keeps_enter d n : keeps_ids (enter (C := cls) d n).
Proof. by intros w. Qed.

Lemma keeps_setattr o n v : keeps_ids (setattr (C := cls) o n v).
Proof. intros w. unfold setattr. by destruct (heap w !! o). Qed.

Lemma keeps_getattr o n : keeps_ids (getattr (C := cls) o n).
Proof.
  intros w. unfold getattr. destruct (heap w !! o) as [ob|]; [| done].
  by destruct (ob_dict ob !! n).
Qed.

Lemma keeps_type_of o : keeps_ids (type_of (C := cls) o).
Proof. intros w. unfold type_of. by destruct (heap w !! o). Qed.

Lemma keeps_via target n (k : cls → M (world cls) value) :
  (∀ d, keeps_ids (k d)) → keeps_ids (via target n k).
Proof. intros Hk. destruct target; cbn; [apply Hk | apply keeps_raise]. Qed.

Create HintDb keeps.

#[local] Hint Resolve keeps_ret keeps_raise keeps_lift keeps_print
  keeps_enter keeps_setattr keeps_getattr keeps_type_of : keeps.

Lemma keeps_body super_call d name self args :
  (∀ c o n a, keeps_ids (super_call c o n a)) →
  keeps_ids (body super_call d name self args).
Proof.
  intros Hs. unfold body.
  destruct (String.eqb name "__init__"); [| auto with keeps].
  destruct d.
  - destruct args; auto with keeps.
  - unfold Logger___init__.
    destruct args as [| a [| b rest]]; auto with keeps;
      repeat (apply keeps_bind; [auto with keeps | intros ?]);
      auto with keeps.
  - unfold FileLogger___init__.
    destruct args as [| a [| b rest]]; auto with keeps.
    repeat (apply keeps_bind; [auto with keeps | intros ?]);
      auto with keeps.
Qed.

Lemma keeps_invoke fuel : ∀ d name self args,
  keeps_ids (invoke bases defines depth bodies fuel d name self args).
Proof.
  induction fuel as [| fuel IH]; intros d name self args.
  - apply keeps_raise.
  - rewrite invoke_S. apply keeps_bind; [apply keeps_enter | intros _].
    unfold bodies. apply keeps_body. intros c o n a.
    apply keeps_bind; [apply keeps_type_of | intros ty].
    apply keeps_via. intros d'. apply IH.
Qed.

Lemma init_allocates c o args w :
  next_id w ≤ next_id (init c o args w).2.
Proof.
  assert (Hk : keeps_ids (init c o args)).
  { unfold init, call_method.
    apply keeps_bind; [| intros ?; apply keeps_ret].
    apply keeps_bind; [apply keeps_type_of | intros ty].
    apply keeps_via. intros d. apply keeps_invoke. }
  rewrite Hk. lia.
Qed.

End DecoratorSubclassingFacts.

(** ** Threads racing for the instance *)

Module ThreadSafetyFacts.
Import Py PyFacts ThreadSafety.

(** *** Sums over the thread list *)

Section Totals.
Context {A : Type}.
Implicit Types (f g : A → nat) (l : list A).

Lemma total_insert f l i x y :
  l !! i = Some x →
  sum_list (f <$> <[i := y]> l) + f x = sum_list (f <$> l) + f y.
Proof.
  revert i. induction l as [| a l IH]; intros [| i] E; try done.
  - csimpl in *. injection E as ->. lia.
  - csimpl in *. specialize (IH i E). lia.
Qed.

Lemma total_lookup_le f l i x :
  l !! i = Some x → f x ≤ sum_list (f <$> l).
Proof.
  revert i. induction l as [| a l IH]; intros [| i] E; try done.
  - csimpl in *. injection E as ->. lia.
  - csimpl in *. specialize (IH i E). lia.
Qed.

Lemma total_two f l i j x y :
  i ≠ j → l !! i = Some x → l !! j = Some y →
  f x + f y ≤ sum_list (f <$> l).
Proof.
  revert i j. induction l as [| a l IH]; intros [| i] [| j] Hne Ei Ej;
    try done; csimpl in *.
  - injection Ei as ->. pose proof (total_lookup_le f l j y Ej). lia.
  - injection Ej as ->. pose proof (total_lookup_le f l i x Ei). lia.
  - assert (Hij : i ≠ j) by lia. specialize (IH i j Hij Ei Ej). lia.
Qed.

Lemma total_mono f g l :
  (∀ x, f x ≤ g x) → sum_list (f <$> l) ≤ sum_list (g <$> l).
Proof.
  intros Hfg. induction l as [| a l IH]; csimpl; [lia |].
  specialize (Hfg a). lia.
Qed.

Lemma total_positive f l :
  0 < sum_list (f <$> l) → ∃ i x, l !! i = Some x ∧ 0 < f x.
Proof.
  induction l as [| a l IH]; csimpl; [lia |]. intros Hpos.
  destruct (decide (0 < f a)) as [Ha | Ha].
  - by exists 0, a.
  - destruct IH as (i & x & E & Hx); [lia |]. by exists (S i), x.
Qed.
End Totals.

Section Threads.
Context {C : Type} `{Countable C}.
Local Abbreviation W := (world C).

Variable init : C → nat → list value → M W unit.
Variable cls : C.

Implicit Types (s : system (C := C)) (sh : shared (C := C))
  (t : thread) (ts : list thread) (i : nat).

Local Abbreviation safe := (safe_action init cls).

(** The metaclass runs the same protocol as the decorator. *)
Lemma meta_action_unfold : meta_action init cls = safe_action init cls.
Proof. reflexivity. Qed.

Lemma sched_inv action i s s' :
  sched action i s = Some s' →
  ∃ t t' sh',
    threads s !! i = Some t ∧
    action t (shared_of s) = Some (t', sh') ∧
    s' = mk_system (<[i := t']> (threads s)) sh'.
Proof.
  unfold sched. destruct (threads s !! i) as [t|]; [| done].
  destruct (action t (shared_of s)) as [[t' sh']|] eqn:Ea; [| done].
  intros [= <-]. by exists t, t', sh'.
Qed.

Lemma run_rtc action schedule : ∀ s s',
  run action schedule s = Some s' → rtc (step action) s s'.
Proof.
  induction schedule as [| i rest IH]; intros s s'; cbn.
  - intros [= <-]. constructor.
  - destruct (sched action i s) as [s1|] eqn:E; [| done].
    intros Hrest. eapply rtc_l; [by exists i | by apply IH].
Qed.

Lemma building_critical t :
  (if building t then 1 else 0) ≤ (if in_critical t then 1 else 0).
Proof. destruct t as [a []]; cbn; lia. Qed.

Lemma storing_critical t :
  (if storing t then 1 else 0) ≤ (if in_critical t then 1 else 0).
Proof. destruct t as [a []]; cbn; lia. Qed.

(** *** Mutual exclusion *)

(** The lock is held exactly while one thread is inside the block. *)
Definition lock_inv s : Prop :=
  count in_critical (threads s)
    = if locked (shared_of s) then 1 else 0.

(** Once the class is registered nobody is on the way to a store. *)
Definition reg_inv s : Prop :=
  present cls (shared_of s) = true → count building (threads s) = 0.

Definition safe_inv s : Prop := lock_inv s ∧ reg_inv s.

Lemma safe_inv_start argss registry w :
  safe_inv (start argss registry w).
Proof.
  assert (Hz : ∀ P : thread → bool,
             P (mk_thread [] AtCheck) = false →
             (∀ a, P (mk_thread a AtCheck) = false) →
             count P ((λ a, mk_thread a AtCheck) <$> argss) = 0).
  { intros P _ HP. unfold count.
    induction argss as [| a rest IH]; csimpl; [done |].
    by rewrite HP, IH. }
  split; [unfold lock_inv | intros _]; cbn [threads shared_of start locked];
    by apply Hz.
Qed.

Local Ltac thread_cases Ea :=
  repeat match type of Ea with
    | context [present ?c ?sh] => destruct (present c sh) eqn:?
    | context [locked ?sh] => destruct (locked sh) eqn:?
    | context [lookup_result ?c ?sh] =>
        unfold lookup_result in Ea; destruct (instances sh !! c) eqn:?
    | context [construct ?i ?c ?t ?sh] =>
        unfold construct in Ea;
        destruct (Singleton.type_call i c (call_args t) (world_of sh))
          as [[?o|?e] ?w'] eqn:?
    end;
  try discriminate Ea;
  injection Ea as <- <-.

Lemma safe_inv_step s s' i :
  safe_inv s → sched safe i s = Some s' → safe_inv s'.
Proof.
  intros [Hl Hr] Hs.
  destruct (sched_inv _ _ _ _ Hs) as (t & t' & sh' & Et & Ea & ->).
  pose proof (total_insert (λ t, if in_critical t then 1 else 0)
                _ i t t' Et) as Hc.
  pose proof (total_insert (λ t, if building t then 1 else 0)
                _ i t t' Et) as Hb.
  pose proof (total_mono _ _ (threads s) building_critical) as Hm.
  pose proof (total_mono _ _ (<[i := t']> (threads s)) building_critical)
    as Hm'.
  unfold safe_inv, lock_inv, reg_inv, count in *.
  destruct s as [ts sh]. destruct t as [a p].
  cbn [threads shared_of] in *.
  unfold safe_action in Ea. cbn [at_pc] in Ea.
  destruct p; thread_cases Ea;
    unfold present in *;
    cbn [in_critical building at_pc move call_args locked instances
         set_lock store threads shared_of] in *;
    (split; [try lia |]);
    rewrite ?lookup_insert_eq;
    try (intros Hp; try (specialize (Hr Hp)); try lia; try congruence).
  all: destruct (locked sh); lia.
Qed.

Lemma safe_inv_reachable argss registry w s :
  rtc (step safe) (start argss registry w) s → safe_inv s.
Proof.
  revert s. apply rtc_ind_r.
  - apply safe_inv_start.
  - intros s1 s2 _ [i Hs] IH. by eapply safe_inv_step.
Qed.

(** Under the lock protocol an entry of the registry, once set, is
    never overwritten. *)
Lemma safe_step_keeps_entries s s' c o :
  safe_inv s → step safe s s' →
  instances (shared_of s) !! c = Some o →
  instances (shared_of s') !! c = Some o.
Proof.
  intros [Hl Hr] [i Hs] Ho.
  destruct (sched_inv _ _ _ _ Hs) as (t & t' & sh' & Et & Ea & ->).
  pose proof (total_lookup_le (λ t, if building t then 1 else 0)
                _ i t Et) as Hb.
  unfold reg_inv, count in Hr.
  destruct s as [ts sh]. destruct t as [a p].
  cbn [threads shared_of] in *.
  unfold safe_action in Ea. cbn [at_pc] in Ea.
  destruct p; thread_cases Ea;
    cbn [instances set_lock store] in *; try done.
  destruct (decide (c = cls)) as [-> | Hne];
    [| by rewrite lookup_insert_ne].
  cbn [building at_pc] in Hb.
  assert (Hp : present cls sh = true).
  { unfold present. rewrite Ho. by apply bool_decide_eq_true_2. }
  specialize (Hr Hp). lia.
Qed.

(** *** No deadlock, no endless run *)

Lemma critical_can_move t sh :
  in_critical t = true → is_Some (safe t sh).
Proof.
  destruct t as [a p]. unfold safe_action. cbn.
  destruct p; try done; eauto.
Qed.

Lemma safe_progress s :
  safe_inv s → all_finished s = false → ∃ s', step safe s s'.
Proof.
  intros [Hl _] Hf.
  assert (Hex : ∃ i t, threads s !! i = Some t ∧ finished t = false).
  { unfold all_finished in Hf. destruct s as [ts sh]. cbn in *.
    clear Hl. induction ts as [| t ts IH]; [done |]. cbn in Hf.
    destruct (finished t) eqn:Ht.
    - destruct (IH Hf) as (i & t1 & E & Hn). by exists (S i), t1.
    - by exists 0, t. }
  destruct Hex as (i & t & Et & Hn).
  assert (Hmove : ∀ j tj, threads s !! j = Some tj →
            is_Some (safe tj (shared_of s)) → ∃ s', step safe s s').
  { intros j tj Ej [[t' sh'] Ea].
    exists (mk_system (<[j := t']> (threads s)) sh'), j.
    unfold sched. by rewrite Ej, Ea. }
  destruct (safe t (shared_of s)) as [[t' sh']|] eqn:Ea.
  { eapply Hmove; [exact Et | by rewrite Ea]. }
  (* the thread waits for the lock: its holder can move *)
  assert (Hlk : locked (shared_of s) = true).
  { destruct t as [a p]. unfold safe_action in Ea. cbn in *.
    destruct p; try done. by destruct (locked (shared_of s)). }
  unfold lock_inv, count in Hl. rewrite Hlk in Hl.
  destruct (total_positive (λ t, if in_critical t then 1 else 0)
              (threads s)) as (j & tj & Ej & Hj); [lia |].
  eapply Hmove; [exact Ej |]. apply critical_can_move.
  destruct (in_critical tj); [done | lia].
Qed.

Lemma safe_step_decreases s s' :
  step safe s s' → measure (threads s') < measure (threads s).
Proof.
  intros [i Hs].
  destruct (sched_inv _ _ _ _ Hs) as (t & t' & sh' & Et & Ea & ->).
  pose proof (total_insert rank _ i t t' Et) as Hm.
  unfold measure. cbn [threads].
  enough (rank t' < rank t) by lia. clear Hm.
  destruct t as [a p]. unfold safe_action in Ea. cbn [at_pc] in Ea.
  destruct p; thread_cases Ea; cbn; lia.
Qed.

Lemma safe_run_bounded n s s' :
  nsteps (step safe) n s s' →
  n + measure (threads s') ≤ measure (threads s).
Proof.
  induction 1 as [| n s1 s2 s3 Hs _ IH]; [lia |].
  apply safe_step_decreases in Hs. lia.
Qed.

Lemma measure_start argss registry w :
  measure (threads (start (C := C) argss registry w)) = 8 * length argss.
Proof.
  unfold measure, start. cbn [threads].
  induction argss as [| a rest IH]; csimpl; [done |].
  rewrite IH. unfold rank. cbn [at_pc]. lia.
Qed.

(** *** A thread running on its own *)

Lemma solo_step action ts sh i t r rest :
  i < length ts →
  action t sh = Some r →
  run action (i :: rest) (mk_system (<[i := t]> ts) sh) =
  run action rest (mk_system (<[i := r.1]> ts) r.2).
Proof.
  intros Hi Ea. cbn [run]. unfold sched. cbn [threads shared_of].
  rewrite list_lookup_insert_eq by done. rewrite Ea. destruct r as [t' sh'].
  by rewrite list_insert_insert_eq.
Qed.

Local Ltac solo tac :=
  erewrite solo_step; [| done | tac; reflexivity]; cbn [fst snd].

(** The part of C4 about the guarded decorator: a thread whose
    constructor call raises ends with that exception, the dictionary as
    it was and the lock released. *)
Lemma safe_failure_releases ts sh i a e w' :
  i < length ts →
  locked sh = false →
  instances sh !! cls = None →
  Singleton.type_call init cls a (world_of sh) = (Raise e, w') →
  run safe (replicate 6 i) (mk_system (<[i := mk_thread a AtCheck]> ts) sh) =
  Some (mk_system (<[i := mk_thread a (Raised e)]> ts)
                  (mk_shared (instances sh) false (S (built sh)) w')).
Proof.
  intros Hi Hlk Ereg Hc.
  assert (Hp : present cls sh = false).
  { unfold present. rewrite Ereg. apply bool_decide_eq_false_2.
    apply is_Some_None. }
  cbn [replicate].
  solo ltac:(unfold safe_action; cbn [at_pc]; rewrite Hp).
  solo ltac:(unfold safe_action; cbn [at_pc move call_args]; rewrite Hlk).
  solo ltac:(unfold safe_action, present, set_lock;
             cbn [at_pc move call_args instances];
             fold (present cls sh); rewrite Hp).
  solo idtac.
  solo ltac:(unfold safe_action, construct, set_lock;
             cbn [at_pc move call_args world_of]; rewrite Hc).
  solo idtac.
  reflexivity.
Qed.

(** After that, the next caller runs the constructor again. *)
Lemma safe_retry_constructs ts sh j a :
  j < length ts →
  locked sh = false →
  instances sh !! cls = None →
  run safe (replicate 5 j) (mk_system (<[j := mk_thread a AtCheck]> ts) sh) =
  Some (mk_system
          (<[j := (construct init cls (mk_thread a AtConstruct)
                     (set_lock true sh)).1]> ts)
          (construct init cls (mk_thread a AtConstruct)
             (set_lock true sh)).2).
Proof.
  intros Hj Hlk Ereg.
  assert (Hp : present cls sh = false).
  { unfold present. rewrite Ereg. apply bool_decide_eq_false_2.
    apply is_Some_None. }
  cbn [replicate].
  solo ltac:(unfold safe_action; cbn [at_pc]; rewrite Hp).
  solo ltac:(unfold safe_action; cbn [at_pc move call_args]; rewrite Hlk).
  solo ltac:(unfold safe_action, present, set_lock;
             cbn [at_pc move call_args instances];
             fold (present cls sh); rewrite Hp).
  solo idtac.
  erewrite solo_step; [| done | reflexivity].
  reflexivity.
Qed.

(** *** The unguarded accessor, one call at a time *)

Local Abbreviation unsafe := (unsafe_action init cls).

(** Thread [i] is not on its way to a store once the class is
    registered: true whenever no call of [i] is under way. *)
Definition settled i s : Prop :=
  ∀ t, threads s !! i = Some t →
       present cls (shared_of s) = true → building t = false.

Lemma quiescent_settled i s : quiescent s = true → settled i s.
Proof.
  unfold quiescent. rewrite forallb_forall. intros Hq t Et _.
  apply list_elem_of_lookup_2, list_elem_of_In, Hq in Et.
  destruct t as [a p]. cbn in *. by destruct p.
Qed.

Lemma unsafe_solo_step i s s' c o :
  settled i s → sched unsafe i s = Some s' →
  instances (shared_of s) !! c = Some o →
  settled i s' ∧ instances (shared_of s') !! c = Some o.
Proof.
  intros Hset Hs Ho.
  destruct (sched_inv _ _ _ _ Hs) as (t & t' & sh' & Et & Ea & ->).
  specialize (Hset t Et).
  pose proof (lookup_lt_Some _ _ _ Et) as Hi.
  unfold settled. cbn [threads shared_of].
  rewrite list_lookup_insert_eq by done.
  destruct s as [ts sh]. destruct t as [a p].
  cbn [threads shared_of] in *.
  unfold unsafe_action, lookup_result in Ea. cbn [at_pc] in Ea.
  destruct p; try discriminate Ea.
  - (* the test *)
    destruct (present cls sh) eqn:Hp; injection Ea as <- <-;
      (split; [| done]); intros t1 [= <-] Hp'; [done | congruence].
  - (* asleep: the class cannot be registered *)
    injection Ea as <- <-. split; [| done].
    intros t1 [= <-] Hp'. by specialize (Hset Hp').
  - unfold construct in Ea. cbn [call_args] in Ea.
    destruct (Singleton.type_call init cls a (world_of sh))
      as [[o1|e1] w1]; cbn [at_pc move] in Ea; injection Ea as <- <-;
      (split; [| done]); intros t1 [= <-] Hp'; by specialize (Hset Hp').
  - (* the store *)
    injection Ea as <- <-. split; [by intros t1 [= <-] _ |].
    destruct (decide (c = cls)) as [-> | Hne].
    + assert (Hp : present cls sh = true).
      { unfold present. rewrite Ho. by apply bool_decide_eq_true_2. }
      by specialize (Hset Hp).
    + unfold store. cbn [instances]. by rewrite lookup_insert_ne.
  - destruct (instances sh !! cls); injection Ea as <- <-;
      (split; [| done]); by intros t1 [= <-] _.
Qed.

Lemma unsafe_solo_run i c o k : ∀ s s',
  settled i s → run unsafe (replicate k i) s = Some s' →
  instances (shared_of s) !! c = Some o →
  instances (shared_of s') !! c = Some o.
Proof.
  induction k as [| k IH]; intros s s' Hset; cbn [replicate run].
  - by intros [= <-].
  - destruct (sched unsafe i s) as [s1|] eqn:Hs; [| done].
    intros Hrun Ho.
    destruct (unsafe_solo_step i s s1 c o Hset Hs Ho) as [Hset1 Ho1].
    by eapply IH.
Qed.

(** *** One construction, one instance *)

Section NoFailure.
Variable argss : list (list value).

(** The constructor returns for the arguments the threads pass. *)
Hypothesis constructor_returns :
  ∀ a w, a ∈ argss → ∃ o w', Singleton.type_call init cls a w = (Ok o, w').

(** Positions possible while the class is not registered. *)
Definition early t : bool :=
  match at_pc t with
  | AtCheck | AtAcquire | AtRecheck | AtSleep | AtConstruct
  | AtStore _ => true
  | _ => false
  end.

(** Positions possible once [o] is registered. *)
Definition late (o : nat) t : bool :=
  match at_pc t with
  | AtCheck | AtAcquire | AtRecheck | AtRelease | AtReturn => true
  | Returned o' => bool_decide (o' = o)
  | _ => false
  end.

Definition one_inv s : Prop :=
  Forall (λ t, call_args t ∈ argss) (threads s) ∧
  match instances (shared_of s) !! cls with
  | None =>
      built (shared_of s) = count storing (threads s) ∧
      Forall (λ t, early t = true) (threads s)
  | Some o =>
      built (shared_of s) = 1 ∧
      Forall (λ t, late o t = true) (threads s)
  end.

Lemma one_inv_start registry w :
  registry !! cls = None → one_inv (start argss registry w).
Proof.
  intros E. unfold one_inv, start. cbn [threads shared_of instances built].
  rewrite E. split; [| split].
  - apply Forall_fmap, Forall_forall. by intros a Ha.
  - unfold count. clear. induction argss as [| a rest IH]; csimpl; lia.
  - apply Forall_fmap, Forall_forall. by intros a Ha.
Qed.

Lemma one_inv_step s s' i :
  safe_inv s → one_inv s → sched safe i s = Some s' → one_inv s'.
Proof.
  intros [Hl Hr] [Hargs Hone] Hs.
  destruct (sched_inv _ _ _ _ Hs) as (t & t' & sh' & Et & Ea & ->).
  pose proof (Forall_lookup_1 _ _ _ _ Hargs Et) as Ha.
  pose proof (total_insert (λ t, if storing t then 1 else 0)
                _ i t t' Et) as Hst.
  pose proof (total_lookup_le (λ t, if storing t then 1 else 0)
                _ i t Et) as Hst1.
  pose proof (total_mono _ _ (threads s) storing_critical) as Hm.
  assert (Hothers : ∀ j tj, i ≠ j → threads s !! j = Some tj →
            in_critical t = true → in_critical tj = false).
  { intros j tj Hne Ej Hc.
    pose proof (total_two (λ t, if in_critical t then 1 else 0)
                  _ i j t tj Hne Et Ej) as H2.
    unfold lock_inv, count in Hl. cbv beta in H2. rewrite Hc in H2.
    destruct (in_critical tj); [| done].
    destruct (locked (shared_of s)); lia. }
  unfold one_inv, lock_inv, count in *.
  destruct s as [ts sh]. destruct t as [a p].
  cbn [threads shared_of call_args] in *.
  assert (Hargs' : ∀ q, Forall (λ t, call_args t ∈ argss)
                         (<[i := mk_thread a q]> ts)).
  { intros q. by apply Forall_insert. }
  unfold safe_action, lookup_result in Ea. cbn [at_pc] in Ea.
  destruct (instances sh !! cls) as [o|] eqn:Ereg.
  - (* registered: nobody builds any more *)
    assert (Hp : present cls sh = true).
    { unfold present. rewrite Ereg. by apply bool_decide_eq_true_2. }
    rewrite Hp in Ea.
    destruct Hone as [Hb Hlate].
    pose proof (Forall_lookup_1 _ _ _ _ Hlate Et) as Hlt.
    unfold late in Hlt. cbn [at_pc] in Hlt.
    destruct p; try discriminate Hlt; thread_cases Ea;
      unfold move, set_lock; cbn [call_args instances built];
      rewrite Ereg;
      (split; [apply Hargs' |]); (split; [exact Hb |]);
      apply Forall_insert; try done.
    unfold late. cbn [at_pc]. by apply bool_decide_eq_true_2.
  - (* not registered yet *)
    assert (Hp : present cls sh = false).
    { unfold present. rewrite Ereg. apply bool_decide_eq_false_2.
      apply is_Some_None. }
    rewrite Hp in Ea.
    destruct Hone as [Hb Hearly].
    pose proof (Forall_lookup_1 _ _ _ _ Hearly Et) as Hel.
    unfold early in Hel. cbn [at_pc] in Hel.
    cbn [storing at_pc] in Hst, Hst1.
    destruct p; try discriminate Hel.
    + thread_cases Ea.
      unfold move in *; cbn [call_args]. rewrite Ereg.
      split; [apply Hargs' |].
      split; [cbn [storing at_pc call_args] in *; lia | by apply Forall_insert].
    + thread_cases Ea.
      unfold move, set_lock in *; cbn [call_args instances built].
      rewrite Ereg. split; [apply Hargs' |].
      split; [cbn [storing at_pc call_args] in *; lia | by apply Forall_insert].
    + thread_cases Ea.
      unfold move in *; cbn [call_args]. rewrite Ereg.
      split; [apply Hargs' |].
      split; [cbn [storing at_pc call_args] in *; lia | by apply Forall_insert].
    + thread_cases Ea.
      unfold move in *; cbn [call_args]. rewrite Ereg.
      split; [apply Hargs' |].
      split; [cbn [storing at_pc call_args] in *; lia | by apply Forall_insert].
    + (* the constructor call *)
      destruct (constructor_returns a (world_of sh) Ha) as (o & w' & Hc).
      unfold construct in Ea. cbn [call_args] in Ea. rewrite Hc in Ea.
      injection Ea as <- <-.
      unfold move in *; cbn [call_args instances built]. rewrite Ereg.
      split; [apply Hargs' |].
      split; [cbn [storing at_pc call_args] in *; lia | by apply Forall_insert].
    + (* the store *)
      thread_cases Ea.
      unfold move, store in *; cbn [call_args instances built].
      rewrite lookup_insert_eq.
      split; [apply Hargs' |].
      split.
      { cbn [storing at_pc call_args] in *. destruct (locked sh); lia. }
      apply Forall_lookup_2. intros j tj Ej.
      apply list_lookup_insert_Some in Ej
        as [(-> & <- & _) | (Hne & Ej)]; [done |].
      pose proof (Forall_lookup_1 _ _ _ _ Hearly Ej) as He.
      specialize (Hothers j tj Hne Ej eq_refl).
      destruct tj as [aj pj]. unfold early, late in *. cbn in *.
      by destruct pj.
Qed.

Lemma one_inv_reachable registry w s :
  registry !! cls = None →
  rtc (step safe) (start argss registry w) s →
  safe_inv s ∧ one_inv s.
Proof.
  intros E. revert s. apply rtc_ind_r.
  - split; [apply safe_inv_start | by apply one_inv_start].
  - intros s1 s2 _ [i Hs] [Hsafe Hone]. split.
    + by eapply safe_inv_step.
    + by eapply one_inv_step.
Qed.

Lemma threads_length_reachable action registry w s :
  rtc (step action) (start argss registry w) s →
  length (threads s) = length argss.
Proof.
  revert s. apply rtc_ind_r.
  - unfold start. cbn [threads]. by rewrite length_fmap.
  - intros s1 s2 _ [i Hs] IH.
    destruct (sched_inv _ _ _ _ Hs) as (t & t' & sh' & _ & _ & ->).
    cbn [threads]. by rewrite length_insert.
Qed.

(** C1.  Let two or more threads each call the lock-guarded accessor
    once ([get_instance] of [safe_singleton], or
    [ThreadSafeSingletonMeta.__call__]) for a class that is not
    registered yet and whose constructor returns for the arguments
    passed.  Then, whatever the interleaving of their actions:
    when all threads are done, the constructor has been called exactly
    once and every thread has returned the one object now registered;
    as long as some thread is not done, some thread can move (no
    deadlock); and no run has more than eight actions per thread, so
    every run ends with all threads done. *)
Theorem lock_guarded_singleton_constructs_once registry w action :
  2 ≤ length argss →
  registry !! cls = None →
  action = safe_action init cls ∨ action = meta_action init cls →
  let s0 := start argss registry w in
  (∀ s, rtc (step action) s0 s → all_finished s = true →
        built (shared_of s) = 1 ∧
        length (threads s) = length argss ∧
        ∃ o, instances (shared_of s) !! cls = Some o ∧
             Forall (λ t, at_pc t = Returned o) (threads s)) ∧
  (∀ s, rtc (step action) s0 s → all_finished s = false →
        ∃ s', step action s s') ∧
  (∀ n s, nsteps (step action) n s0 s → n ≤ 8 * length argss).
Proof.
  intros HN Ereg Hact s0.
  assert (action = safe) as ->.
  { destruct Hact as [-> | ->]; [done | apply meta_action_unfold]. }
  split; [| split].
  - intros s Hr Hfin.
    destruct (one_inv_reachable registry w s Ereg Hr)
      as [_ [_ Hone]].
    pose proof (threads_length_reachable _ _ _ _ Hr) as Hlen.
    unfold all_finished in Hfin.
    rewrite forallb_forall in Hfin.
    destruct (instances (shared_of s) !! cls) as [o|].
    + destruct Hone as [Hb Hlate]. split; [exact Hb |].
      split; [exact Hlen |]. exists o. split; [done |].
      apply Forall_forall. intros t Ht.
      rewrite Forall_forall in Hlate. specialize (Hlate t Ht).
      specialize (Hfin t (proj1 (list_elem_of_In _ _) Ht)).
      destruct t as [a p]. unfold late, finished in *. cbn in *.
      destruct p; try done.
      apply bool_decide_eq_true_1 in Hlate. by subst.
    + destruct Hone as [_ Hearly].
      destruct (threads s) as [| t ts]; [cbn in Hlen; lia |].
      apply Forall_cons_1 in Hearly as [He _].
      specialize (Hfin t (or_introl eq_refl)).
      destruct t as [a p]. unfold early, finished in *. cbn in *.
      by destruct p.
  - intros s Hr Hfin. apply safe_progress; [| done].
    by eapply safe_inv_reachable.
  - intros n s Hn. apply safe_run_bounded in Hn.
    subst s0. rewrite measure_start in Hn. lia.
Qed.
End NoFailure.

(** C3, as the code has it.  An entry of a registry, once set, is never
    replaced: by the decorator's [get_instance] and by
    [SingletonMeta.__call__], whatever class they are called for and
    whether the call returns or raises; by [ConfigManager()] of the
    [__new__]-based singleton; by the lock-guarded decorator and
    metaclass under every interleaving of threads; and by the unguarded
    decorator when a call starts only while no other call is under
    way. *)
Theorem registered_instance_is_never_replaced :
  (∀ st k args c o,
     Singleton.instances st !! c = Some o →
     Singleton.instances (Singleton.get_instance init k args st).2 !! c
       = Some o ∧
     Singleton.instances
       (Singleton.SingletonMeta___call__ init k args st).2 !! c
       = Some o) ∧
  (∀ p o,
     NewPitfall._instance p = Some o →
     NewPitfall._instance (NewPitfall.ConfigManager_call p).2 = Some o) ∧
  (∀ action argss registry w s s' c o,
     action = safe_action init cls ∨ action = meta_action init cls →
     rtc (step action) (start argss registry w) s →
     step action s s' →
     instances (shared_of s) !! c = Some o →
     instances (shared_of s') !! c = Some o) ∧
  (∀ i k s s' c o,
     quiescent s = true →
     run (unsafe_action init cls) (replicate k i) s = Some s' →
     instances (shared_of s) !! c = Some o →
     instances (shared_of s') !! c = Some o).
Proof.
  split; [| split; [| split]].
  - intros st k args c o E. split;
      by apply SingletonFacts.get_instance_keeps.
  - apply NewPitfallFacts.call_keeps_instance.
  - intros action argss registry w s s' c o Hact Hr Hs Ho.
    assert (action = safe) as ->.
    { destruct Hact as [-> | ->]; [done | apply meta_action_unfold]. }
    eapply safe_step_keeps_entries; [| exact Hs | exact Ho].
    by eapply safe_inv_reachable.
  - intros i k s s' c o Hq Hrun Ho.
    eapply unsafe_solo_run; [| exact Hrun | exact Ho].
    by apply quiescent_settled.
Qed.

(** C4.  When the constructor raises on a first call, the exception
    reaches the caller and the dictionary is as it was before the call;
    the next call finds no instance and runs the constructor again,
    returning or raising as that second constructor call does.  This
    holds for the plain decorator, and for the lock-guarded one, whose
    failed caller also leaves the lock released, so that the next caller
    gets as far as the constructor. *)
Theorem failed_construction_publishes_nothing :
  (∀ st args e w',
     Singleton.instances st !! cls = None →
     Singleton.type_call init cls args (Singleton.world_of st)
       = (Raise e, w') →
     let st1 := (Singleton.get_instance init cls args st).2 in
     (Singleton.get_instance init cls args st).1 = Raise e ∧
     Singleton.instances st1 = Singleton.instances st ∧
     Singleton.world_of st1 = w' ∧
     ∀ args2,
       Singleton.built (Singleton.get_instance init cls args2 st1).2
         = Singleton.built st ++ [cls; cls] ∧
       (Singleton.get_instance init cls args2 st1).1
         = (Singleton.type_call init cls args2 w').1) ∧
  (∀ ts sh i j a a2 e w',
     i < length ts → j < length ts →
     locked sh = false →
     instances sh !! cls = None →
     Singleton.type_call init cls a (world_of sh) = (Raise e, w') →
     let s1 := mk_system (<[i := mk_thread a (Raised e)]> ts)
                 (mk_shared (instances sh) false (S (built sh)) w') in
     run (safe_action init cls) (replicate 6 i)
         (mk_system (<[i := mk_thread a AtCheck]> ts) sh) = Some s1 ∧
     ∃ s2,
       run (safe_action init cls) (replicate 5 j)
           (mk_system (<[j := mk_thread a2 AtCheck]> (threads s1))
                      (shared_of s1)) = Some s2 ∧
       instances (shared_of s2) = instances sh ∧
       built (shared_of s2) = S (S (built sh))).
Proof.
  split.
  - intros st args e w' E Hc.
    by apply SingletonFacts.get_instance_failure_not_published.
  - intros ts sh i j a a2 e w' Hi Hj Hlk Ereg Hc s1. split.
    + by apply safe_failure_releases.
    + eexists. split.
      * apply safe_retry_constructs; [| done | done].
        subst s1. cbn [threads]. by rewrite length_insert.
      * unfold construct, set_lock. subst s1.
        cbn [call_args shared_of world_of instances built locked].
        destruct (Singleton.type_call init cls a2 w') as [[?|?] ?];
          split; reflexivity.
Qed.
End Threads.

End ThreadSafetyFacts.

(** ** More on the pizzas *)

Module PizzaFacts.
Import Py PyFacts AttributeModifyingMixin.

Local Abbreviation W := (world cls).
Implicit Types (w : W) (o : nat) (c : cls).

Local Ltac heap_lookup :=
  cbn [heap with_heap with_stdout with_trace ob_dict ob_type];
  rewrite ?lookup_insert_eq; reflexivity.

(** The classes that inherit [PlainPizza.__init__] and [show_toppings]. *)
Definition is_pizza c : bool :=
  match c with
  | PlainPizza | DeluxePizza | VeggiePizza => true
  | _ => false
  end.

(** A pizza of class [c] whose toppings are [l]. *)
Definition topped c (d : gmap string value) (l : list value) : object_ cls :=
  mk_object c (<["toppings" := VList l]> d).

Lemma str_join_strings sep (ss : list string) :
  str_join sep (VStr <$> ss) = Ok (String.concat sep ss).
Proof.
  induction ss as [| s [| s' rest] IH]; [done | done |].
  change (str_join sep (VStr <$> s :: s' :: rest))
    with (match str_join sep (VStr <$> s' :: rest) with
          | Ok r => Ok (s +:+ sep +:+ r)
          | Raise e => Raise e
          end).
  by rewrite IH.
Qed.

Definition is_str (v : value) : bool :=
  match v with VStr _ => true | _ => false end.

Lemma str_join_not_strings sep (l : list value) :
  existsb (λ v, negb (is_str v)) l = true → str_join sep l = Raise TypeError.
Proof.
  induction l as [| v rest IH]; [done |].
  destruct v as [| | | s | |]; try done.
  cbn [existsb is_str negb orb]. intros Hrest. specialize (IH Hrest).
  destruct rest as [| v' rest']; [done |].
  change (str_join sep (VStr s :: v' :: rest'))
    with (match str_join sep (v' :: rest') with
          | Ok r => Ok (s +:+ sep +:+ r)
          | Raise e => Raise e
          end).
  by rewrite IH.
Qed.

(** One mixin method on an object of any class that finds it. *)
Lemma add_topping_to c (meth item line : string) (D : cls) f w o d l :
  resolve bases defines depth c meth = Some D →
  (∀ sc self, body sc D meth self [] =
     bind (print line) (λ _,
     bind (toppings_iadd self item) (λ _, ret VNone))) →
  heap w !! o = Some (mk_object c d) →
  d !! "toppings" = Some (VList l) →
  call (S f) o meth [] w =
  (Ok VNone,
   with_heap (<[o := topped c d (l ++ [VStr item])]> (heap w))
     (with_stdout (stdout w ++ [line])
        (with_trace (trace w ++ [(D, meth)]) w))).
Proof.
  intros Hres Hbody Hob Htop.
  unfold call, call_method.
  rewrite (bind_type_of _ _ _ _ Hob). cbn [ob_type]. rewrite Hres.
  cbn [via]. rewrite invoke_S, bind_enter. unfold bodies. rewrite Hbody.
  rewrite bind_print. unfold toppings_iadd.
  rewrite bind_assoc.
  erewrite bind_getattr; [| exact Hob | exact Htop].
  cbv beta iota.
  erewrite bind_setattr; [| exact Hob].
  reflexivity.
Qed.

Lemma prepare_DeluxePizza_runs f w o d l :
  heap w !! o = Some (mk_object DeluxePizza d) →
  d !! "toppings" = Some (VList l) →
  ∃ w', call (S (S f)) o "prepare_pizza" [] w = (Ok VNone, w') ∧
        heap w' = <[o := topped DeluxePizza d
                           (l ++ [VStr "olives"; VStr "cheese";
                                  VStr "pepperoni"])]> (heap w) ∧
        stdout w' = stdout w ++ ["Adding olives!"; "Adding cheese!";
                                 "Adding pepperoni!"] ∧
        next_id w' = next_id w.
Proof.
  intros Hob Htop. eexists. split.
  - unfold call, call_method.
    rewrite (bind_type_of _ _ _ _ Hob). cbn [ob_type].
    change (resolve bases defines depth DeluxePizza "prepare_pizza")
      with (Some DeluxePizza).
    cbn [via]. rewrite invoke_S, bind_enter.
    unfold bodies. cbn [body nullary]. unfold DeluxePizza_prepare_pizza.
    erewrite bind_ok;
      [| eapply (add_topping_to DeluxePizza "add_olives" "olives"
                   "Adding olives!" OlivesMixin);
         [reflexivity | reflexivity | exact Hob | exact Htop]].
    erewrite bind_ok;
      [| eapply (add_topping_to DeluxePizza "add_cheese" "cheese"
                   "Adding cheese!" CheeseMixin);
         [reflexivity | reflexivity | heap_lookup
         | unfold topped; heap_lookup]].
    erewrite bind_ok;
      [| eapply (add_topping_to DeluxePizza "add_pepperoni" "pepperoni"
                   "Adding pepperoni!" PepperoniMixin);
         [reflexivity | reflexivity | heap_lookup
         | unfold topped; heap_lookup]].
    reflexivity.
  - cbn [heap with_heap with_stdout with_trace stdout next_id].
    unfold topped. cbn [ob_dict].
    rewrite !insert_insert_eq, <- !app_assoc. done.
Qed.

Lemma prepare_VeggiePizza_runs f w o d l :
  heap w !! o = Some (mk_object VeggiePizza d) →
  d !! "toppings" = Some (VList l) →
  ∃ w', call (S (S f)) o "prepare_pizza" [] w = (Ok VNone, w') ∧
        heap w' = <[o := topped VeggiePizza d
                           (l ++ [VStr "olives"; VStr "cheese"])]> (heap w) ∧
        stdout w' = stdout w ++ ["Adding olives!"; "Adding cheese!"] ∧
        next_id w' = next_id w.
Proof.
  intros Hob Htop. eexists. split.
  - unfold call, call_method.
    rewrite (bind_type_of _ _ _ _ Hob). cbn [ob_type].
    change (resolve bases defines depth VeggiePizza "prepare_pizza")
      with (Some VeggiePizza).
    cbn [via]. rewrite invoke_S, bind_enter.
    unfold bodies. cbn [body nullary]. unfold VeggiePizza_prepare_pizza.
    erewrite bind_ok;
      [| eapply (add_topping_to VeggiePizza "add_olives" "olives"
                   "Adding olives!" OlivesMixin);
         [reflexivity | reflexivity | exact Hob | exact Htop]].
    erewrite bind_ok;
      [| eapply (add_topping_to VeggiePizza "add_cheese" "cheese"
                   "Adding cheese!" CheeseMixin);
         [reflexivity | reflexivity | heap_lookup
         | unfold topped; heap_lookup]].
    reflexivity.
  - cbn [heap with_heap with_stdout with_trace stdout next_id].
    unfold topped. cbn [ob_dict].
    rewrite !insert_insert_eq, <- !app_assoc. done.
Qed.

(** X1.  [prepare_pizza] appends the toppings of the class, in the order
    of its body, to whatever list the pizza already has (so preparing a
    pizza twice doubles them), prints one line per topping, allocates
    nothing and changes no other object: olives, cheese and pepperoni for a
    [DeluxePizza]; olives and cheese for a [VeggiePizza]. *)
Theorem prepare_pizza_appends_to_existing_toppings
    (fuel : nat) w o (d : gmap string value) (l : list value) c :
  heap w !! o = Some (mk_object c d) →
  d !! "toppings" = Some (VList l) →
  (c = DeluxePizza →
   ∃ w', call (S (S fuel)) o "prepare_pizza" [] w = (Ok VNone, w') ∧
         heap w' = <[o := topped DeluxePizza d
                            (l ++ [VStr "olives"; VStr "cheese";
                                   VStr "pepperoni"])]> (heap w) ∧
         stdout w' = stdout w ++ ["Adding olives!"; "Adding cheese!";
                                  "Adding pepperoni!"] ∧
         next_id w' = next_id w) ∧
  (c = VeggiePizza →
   ∃ w', call (S (S fuel)) o "prepare_pizza" [] w = (Ok VNone, w') ∧
         heap w' = <[o := topped VeggiePizza d
                            (l ++ [VStr "olives"; VStr "cheese"])]> (heap w) ∧
         stdout w' = stdout w ++ ["Adding olives!"; "Adding cheese!"] ∧
         next_id w' = next_id w).
Proof.
  intros Hob Htop. split; intros ->.
  - by apply prepare_DeluxePizza_runs.
  - by apply prepare_VeggiePizza_runs.
Qed.

Lemma resolve_pizza_show c :
  is_pizza c = true →
  resolve bases defines depth c "show_toppings" = Some PlainPizza ∧
  resolve bases defines depth c "__init__" = Some PlainPizza.
Proof. by destruct c. Qed.

(** [show_toppings] is the one of [PlainPizza] for every pizza. *)
Lemma show_toppings_runs f w o c d :
  is_pizza c = true →
  heap w !! o = Some (mk_object c d) →
  call (S f) o "show_toppings" [] w =
  PlainPizza_show_toppings o
    (with_trace (trace w ++ [(PlainPizza, "show_toppings")]) w).
Proof.
  intros Hc Hob. unfold call, call_method.
  rewrite (bind_type_of _ _ _ _ Hob). cbn [ob_type].
  rewrite (proj1 (resolve_pizza_show c Hc)).
  cbn [via]. rewrite invoke_S, bind_enter. reflexivity.
Qed.

(** X2.  [show_toppings], on a pizza of any of the three pizza classes,
    returns "Toppings: none" for an empty list and "Toppings: " followed by
    the toppings joined with ", " otherwise, and changes nothing; when some
    topping is not a string it raises [TypeError]. *)
Theorem show_toppings_joins_or_says_none
    (fuel : nat) w o c (d : gmap string value) (l : list value) :
  is_pizza c = true →
  heap w !! o = Some (mk_object c d) →
  d !! "toppings" = Some (VList l) →
  (∀ ss : list string, l = VStr <$> ss →
     call (S fuel) o "show_toppings" [] w =
     (Ok (VStr ("Toppings: " +:+
                match ss with [] => "none" | _ => String.concat ", " ss end)),
      with_trace (trace w ++ [(PlainPizza, "show_toppings")]) w)) ∧
  (existsb (λ v, negb (is_str v)) l = true →
     call (S fuel) o "show_toppings" [] w =
     (Raise TypeError,
      with_trace (trace w ++ [(PlainPizza, "show_toppings")]) w)).
Proof.
  intros Hc Hob Htop.
  rewrite (show_toppings_runs fuel w o c d Hc Hob).
  unfold PlainPizza_show_toppings.
  erewrite bind_getattr; [| exact Hob | exact Htop].
  split.
  - intros ss ->. destruct ss as [| s rest]; [reflexivity |].
    rewrite fmap_cons. cbn [truthy]. rewrite <- fmap_cons.
    by rewrite str_join_strings.
  - intros Hbad. destruct l as [| v rest]; [done |].
    cbn [truthy]. by rewrite (str_join_not_strings _ _ Hbad).
Qed.

(** A pizza just built has an empty list of its own. *)
Lemma new_pizza c f w :
  is_pizza c = true →
  new (S f) c w =
  (Ok (next_id w),
   mk_world (<[next_id w := topped c ∅ []]> (heap w)) (S (next_id w))
            (stdout w) (environ w) (rng w) (draws w)
            (trace w ++ [(PlainPizza, "__init__")])).
Proof.
  intros Hc. unfold new, instantiate. rewrite bind_object_new.
  unfold call_method.
  erewrite bind_ok; [reflexivity |].
  erewrite bind_type_of; [| heap_lookup]. cbn [ob_type].
  rewrite (proj2 (resolve_pizza_show c Hc)).
  cbn [via]. rewrite invoke_S, bind_enter.
  unfold bodies. cbn [body nullary]. unfold PlainPizza___init__.
  erewrite bind_setattr; [| heap_lookup].
  cbn [heap with_heap with_trace ob_dict ob_type]. unfold topped, with_heap.
  cbn. by rewrite insert_insert_eq.
Qed.

(** X3.  Every pizza gets a list of its own: building a pizza of any pizza
    class leaves all existing objects as they are, the new object reports
    "Toppings: none", and preparing one deluxe pizza does not change the
    toppings of another object. *)
Theorem pizzas_do_not_share_toppings (fuel : nat) w c :
  is_pizza c = true →
  ∃ w1,
    new (S fuel) c w = (Ok (next_id w), w1) ∧
    (∀ o, o ≠ next_id w → heap w1 !! o = heap w !! o) ∧
    (call (S fuel) (next_id w) "show_toppings" [] w1).1
      = Ok (VStr "Toppings: none") ∧
    (∀ o, o ≠ next_id w →
       c = DeluxePizza →
       ∃ w2, call (S (S fuel)) (next_id w) "prepare_pizza" [] w1
               = (Ok VNone, w2) ∧
             heap w2 !! o = heap w !! o).
Proof.
  intros Hc. pose proof (new_pizza c fuel w Hc) as Hnew.
  match type of Hnew with _ = (_, ?x) => set (w1 := x) in * end.
  assert (Hob : heap w1 !! next_id w = Some (mk_object c (<["toppings" := VList []]> ∅))).
  { subst w1. cbn [heap]. apply lookup_insert_eq. }
  assert (Htop : (<["toppings" := VList []]> ∅ : gmap string value)
                   !! "toppings" = Some (VList [])) by apply lookup_insert_eq.
  exists w1. split; [exact Hnew |]. split; [| split].
  - intros o Hne. subst w1. cbn [heap]. by rewrite lookup_insert_ne.
  - rewrite (show_toppings_runs fuel w1 (next_id w) c _ Hc Hob).
    unfold PlainPizza_show_toppings.
    by erewrite bind_getattr; [| exact Hob | exact Htop].
  - intros o Hne ->.
    destruct (prepare_DeluxePizza_runs fuel w1 (next_id w) _ [] Hob Htop)
      as (w2 & Hrun & Hheap & _).
    exists w2. split; [exact Hrun |].
    rewrite Hheap. subst w1. cbn [heap]. by rewrite !lookup_insert_ne.
Qed.

(** Calling a method that no class of the object's linearisation
    defines raises [AttributeError] with that name and changes nothing; so
    a [VeggiePizza] cannot [add_pepperoni], a [PlainPizza] has none of the
    mixin methods, and a mixin has no [show_toppings]. *)
Lemma missing_method_raises_attribute_error
    (fuel : nat) w o c (d : gmap string value) (name : string)
    (args : list value) :
  heap w !! o = Some (mk_object c d) →
  has_method c name = false →
  call fuel o name args w = (Raise (AttributeError name), w).
Proof.
  intros Hob Hno. unfold call, call_method.
  rewrite (bind_type_of _ _ _ _ Hob). cbn [ob_type].
  unfold has_method in Hno.
  by destruct (resolve bases defines depth c name).
Qed.

Lemma methods_not_contributed :
  has_method VeggiePizza "add_pepperoni" = false ∧
  has_method PlainPizza "add_olives" = false ∧
  has_method PlainPizza "add_cheese" = false ∧
  has_method PlainPizza "prepare_pizza" = false ∧
  has_method OlivesMixin "show_toppings" = false ∧
  has_method OlivesMixin "add_cheese" = false.
Proof. by repeat split. Qed.

(** X4.  A mixin is not usable on its own: an object of [OlivesMixin],
    [CheeseMixin] or [PepperoniMixin] can be built (it inherits
    [object.__init__] and gets no [toppings]), but its method prints its
    line and then raises [AttributeError] for [toppings]. *)
Theorem mixin_alone_has_no_toppings (fuel : nat) w c (meth line : string) :
  (c, meth, line) ∈ [(OlivesMixin, "add_olives", "Adding olives!");
                     (CheeseMixin, "add_cheese", "Adding cheese!");
                     (PepperoniMixin, "add_pepperoni", "Adding pepperoni!")] →
  ∃ w1 w2,
    new (S fuel) c w = (Ok (next_id w), w1) ∧
    heap w1 !! next_id w = Some (mk_object c ∅) ∧
    call (S fuel) (next_id w) meth [] w1
      = (Raise (AttributeError "toppings"), w2) ∧
    stdout w2 = stdout w ++ [line] ∧
    heap w2 = heap w1.
Proof.
  rewrite !elem_of_cons, elem_of_nil.
  intros [[= -> -> ->] | [[= -> -> ->] | [[= -> -> ->] | []]]].
  all: eexists _, _; split; [| split; [| split; [| split]]].
  all: try (unfold new, instantiate; rewrite bind_object_new;
            unfold call_method;
            erewrite bind_ok; [reflexivity |];
            erewrite bind_type_of; [| heap_lookup]; cbn [ob_type];
            match goal with |- context [resolve _ _ _ ?c "__init__"] =>
              change (resolve bases defines depth c "__init__")
                with (Some object) end;
            cbn [via]; rewrite invoke_S, bind_enter; reflexivity).
  all: try (cbn [heap with_trace]; apply lookup_insert_eq).
  all: try (unfold call, call_method;
            erewrite bind_type_of;
              [| cbn [heap with_trace]; apply lookup_insert_eq];
            cbn [ob_type];
            match goal with |- context [resolve _ _ _ ?c ?m] =>
              change (resolve bases defines depth c m) with (Some c) end;
            cbn [via]; rewrite invoke_S, bind_enter;
            unfold bodies; cbn [body nullary];
            unfold OlivesMixin_add_olives, CheeseMixin_add_cheese,
              PepperoniMixin_add_pepperoni;
            rewrite bind_print; unfold toppings_iadd;
            unfold bind, getattr;
            cbn [heap with_trace with_stdout];
            rewrite lookup_insert_eq; cbn [ob_dict];
            rewrite lookup_empty; reflexivity).
  all: reflexivity.
Qed.

End PizzaFacts.

(** ** The animals *)

Module MixinSimpleFacts.
Import Py PyFacts MixinSimple.

Local Abbreviation W := (world cls).
Implicit Types (w : W) (o : nat) (c : cls).

Definition is_animal c : bool :=
  match c with
  | Duck | Dog | Eagle | Fish => true
  | _ => false
  end.

(** What each method appends to the name, and the class it is found in
    when called on [c]. *)
Definition sentences c : list (string * cls * string) :=
  match c with
  | Duck => [("speak", Duck, " says quack!"); ("fly", FlyMixin, " is flying!");
             ("walk", WalkMixin, " is walking.");
             ("swim", SwimMixin, " is swimming.")]
  | Dog => [("speak", Dog, " says woof!"); ("walk", WalkMixin, " is walking.");
            ("swim", SwimMixin, " is swimming.")]
  | Eagle => [("speak", Eagle, " screeches!"); ("fly", FlyMixin, " is flying!");
              ("walk", WalkMixin, " is walking.")]
  | Fish => [("speak", Fish, " blubs."); ("swim", SwimMixin, " is swimming.")]
  | _ => []
  end.

Lemma sentences_sound c meth D rest :
  (meth, D, rest) ∈ sentences c →
  is_animal c = true ∧
  resolve bases defines depth c "__init__" = Some Animal ∧
  resolve bases defines depth c meth = Some D ∧
  ∀ self, body D meth self [] = name_then self rest.
Proof.
  destruct c; cbn [sentences]; rewrite ?elem_of_cons, elem_of_nil;
    intros Hin; try done;
    repeat (destruct Hin as [[= -> -> ->] | Hin]; [by repeat split |]);
    done.
Qed.

(** X5.  An animal answers to exactly its own [speak] and the abilities of
    the mixins its class lists: built with the name [n], each such method
    returns [n] followed by the sentence of the class that contributes it
    (the subclass's [speak], not [Animal.speak]), and changes no object. *)
Theorem animal_methods_use_the_shared_name
    (fuel : nat) w c (meth rest : string) (D : cls) (n : string) :
  (meth, D, rest) ∈ sentences c →
  ∃ w1 w2,
    new (S fuel) c [VStr n] w = (Ok (next_id w), w1) ∧
    call (S fuel) (next_id w) meth [] w1 = (Ok (VStr (n +:+ rest)), w2) ∧
    heap w2 = heap w1 ∧
    trace w2 = trace w ++ [(Animal, "__init__"); (D, meth)].
Proof.
  intros Hin.
  destruct (sentences_sound c meth D rest Hin) as (_ & Hinit & Hres & Hbody).
  eexists _, _. split; [| split; [| split]].
  - unfold new, instantiate. rewrite bind_object_new.
    unfold call_method.
    erewrite bind_ok; [reflexivity |].
    erewrite bind_type_of; [| cbn [heap]; apply lookup_insert_eq].
    cbn [ob_type]. rewrite Hinit.
    cbn [via]. rewrite invoke_S, bind_enter.
    unfold bodies. cbn [body]. unfold Animal___init__.
    erewrite bind_setattr;
      [reflexivity | cbn [heap with_trace]; apply lookup_insert_eq].
  - unfold call, call_method.
    erewrite bind_type_of;
      [| cbn [heap with_heap with_trace]; apply lookup_insert_eq].
    cbn [ob_type]. rewrite Hres.
    cbn [via]. rewrite invoke_S, bind_enter.
    unfold bodies. rewrite Hbody. unfold name_then.
    erewrite bind_getattr;
      [| cbn [heap with_heap with_trace]; apply lookup_insert_eq
       | cbn [ob_dict]; apply lookup_insert_eq].
    reflexivity.
  - reflexivity.
  - cbn [trace with_trace with_heap]. by rewrite <- app_assoc.
Qed.

Lemma call_missing fuel w o c (d : gmap string value) name args :
  heap w !! o = Some (mk_object c d) →
  has_method c name = false →
  call fuel o name args w = (Raise (AttributeError name), w).
Proof.
  intros Hob Hno. unfold call, call_method.
  rewrite (bind_type_of _ _ _ _ Hob). cbn [ob_type].
  unfold has_method in Hno.
  by destruct (resolve bases defines depth c name).
Qed.

(** X6.  An animal has an ability exactly when its class lists the mixin
    that provides it; calling an ability that is not mixed in raises
    [AttributeError] and changes nothing.  The mixin on its own can be
    instantiated, but its method raises [AttributeError] for [name], the
    attribute only [Animal.__init__] sets. *)
Theorem abilities_come_from_the_listed_mixins
    (fuel : nat) w c (ability : string) (mixin : cls) :
  (ability, mixin) ∈ [("fly", FlyMixin); ("walk", WalkMixin);
                      ("swim", SwimMixin)] →
  is_animal c = true →
  (has_method c ability = true ↔ mixin ∈ bases c) ∧
  (mixin ∉ bases c →
   ∀ o d args, heap w !! o = Some (mk_object c d) →
     call fuel o ability args w = (Raise (AttributeError ability), w)) ∧
  (∃ w1 w2,
     new (S fuel) mixin [] w = (Ok (next_id w), w1) ∧
     call (S fuel) (next_id w) ability [] w1
       = (Raise (AttributeError "name"), w2)).
Proof.
  intros Hin Hc.
  assert (Htable : has_method c ability = bool_decide (mixin ∈ bases c)).
  { revert Hin. rewrite !elem_of_cons, elem_of_nil.
    intros [[= -> ->] | [[= -> ->] | [[= -> ->] | []]]];
      by destruct c. }
  split; [| split].
  - rewrite Htable. apply bool_decide_eq_true.
  - intros Hnot o d args Hob. apply (call_missing _ _ _ _ _ _ _ Hob).
    rewrite Htable. by apply bool_decide_eq_false_2.
  - revert Hin. rewrite !elem_of_cons, elem_of_nil.
    intros [[= -> ->] | [[= -> ->] | [[= -> ->] | []]]].
    all: eexists _, _; split.
    all: try (unfold new, instantiate; rewrite bind_object_new;
              unfold call_method;
              erewrite bind_ok; [reflexivity |];
              erewrite bind_type_of; [| cbn [heap]; apply lookup_insert_eq];
              cbn [ob_type];
              match goal with |- context [resolve _ _ _ ?k "__init__"] =>
                change (resolve bases defines depth k "__init__")
                  with (Some object) end;
              cbn [via]; rewrite invoke_S, bind_enter; reflexivity).
    all: unfold call, call_method;
         (erewrite bind_type_of;
            [| cbn [heap with_trace]; apply lookup_insert_eq]);
         cbn [ob_type];
         match goal with |- context [resolve _ _ _ ?k ?m] =>
           change (resolve bases defines depth k m) with (Some k) end;
         cbn [via]; rewrite invoke_S, bind_enter;
         unfold bodies; cbn [body nullary];
         unfold FlyMixin_fly, WalkMixin_walk, SwimMixin_swim, name_then;
         unfold bind, getattr;
         cbn [heap with_trace];
         rewrite lookup_insert_eq; cbn [ob_dict];
         rewrite lookup_empty; reflexivity.
Qed.

End MixinSimpleFacts.

(** ** More on constructors in mixins *)

Module ConstructorFacts.
Import Py PyFacts MixinConstructorPitfall.

Local Abbreviation W := (world cls).
Implicit Types (w : W) (o : nat) (c : cls).

(** The number of arguments each initialiser takes after [self]. *)
Definition arity c : nat :=
  match c with
  | object | MixinA | MixinB | MyClass => 0
  | NameMixin | TimestampMixin => 1
  | ClassA | ClassB => 2
  | ClassC => 3
  end.

(** Every class of the file has an [__init__] of its own, so [c(...)]
    allocates and runs the body found in [c] itself. *)
Lemma new_runs_own_init c args f w :
  new (S f) c args w =
  bind (bodies
          (λ o n a,
             bind (type_of o) (λ ty,
             via (resolve bases defines depth ty n) n
                 (λ d', invoke bases defines depth bodies f d' n o a)))
          (λ at_cls o n a,
             bind (type_of o) (λ ty,
             via (resolve_super bases defines depth ty at_cls n) n
                 (λ d', invoke bases defines depth bodies f d' n o a)))
          (λ k o n a,
             via (resolve bases defines depth k n) n
                 (λ d', invoke bases defines depth bodies f d' n o a))
          c "__init__" (next_id w) args)
       (λ _, ret (next_id w))
       (mk_world (<[next_id w := mk_object c ∅]> (heap w)) (S (next_id w))
                 (stdout w) (environ w) (rng w) (draws w)
                 (trace w ++ [(c, "__init__")])).
Proof.
  unfold new, instantiate. rewrite bind_object_new.
  unfold call_method. rewrite bind_assoc.
  erewrite bind_type_of; [| cbn [heap]; apply lookup_insert_eq].
  cbn [ob_type].
  assert (resolve bases defines depth c "__init__" = Some c) as ->
    by by destruct c.
  cbn [via]. rewrite invoke_S. rewrite bind_assoc, bind_enter.
  reflexivity.
Qed.

(** X7.  Calling a class of the file with the wrong number of arguments
    raises [TypeError] as soon as its [__init__] is entered: no other
    initialiser runs, nothing is printed and no attribute is set on the
    object that was allocated. *)
Theorem wrong_number_of_arguments_raises
    (fuel : nat) w c (args : list value) :
  c ≠ object →
  length args ≠ arity c →
  ∃ w',
    new (S fuel) c args w = (Raise TypeError, w') ∧
    trace w' = trace w ++ [(c, "__init__")] ∧
    stdout w' = stdout w ∧
    heap w' !! next_id w = Some (mk_object c ∅).
Proof.
  intros Hc Hlen. eexists. split; [| split; [| split]].
  - rewrite new_runs_own_init. unfold bodies, body.
    cbn [String.eqb Ascii.eqb Bool.eqb].
    destruct c; try done;
      destruct args as [| a1 [| a2 [| a3 [| a4 rest]]]]; cbn in Hlen;
      try lia; reflexivity.
  - reflexivity.
  - reflexivity.
  - cbn [heap]. apply lookup_insert_eq.
Qed.

(** [super().__init__(name)] written in [ClassA] or [ClassB], on an
    object of that class: the lookup lands in [NameMixin]. *)
Lemma super_init_reaches_NameMixin c f w o ob name :
  c = ClassA ∨ c = ClassB →
  heap w !! o = Some ob → ob_type ob = c →
  bind (type_of o) (λ ty,
    via (resolve_super bases defines depth ty c "__init__") "__init__"
        (λ d', invoke bases defines depth bodies (S f) d' "__init__" o [name]))
    w =
  (Ok VNone,
   with_heap (<[o := mk_object c (<["name" := name]> (ob_dict ob))]> (heap w))
     (with_trace (trace w ++ [(NameMixin, "__init__")]) w)).
Proof.
  intros Hc Hob Hty.
  erewrite bind_type_of; [| exact Hob]. rewrite Hty.
  assert (resolve_super bases defines depth c c "__init__" = Some NameMixin)
    as -> by (by destruct Hc as [-> | ->]).
  cbn [via]. rewrite invoke_S, bind_enter. unfold bodies.
  cbn [body String.eqb Ascii.eqb Bool.eqb]. unfold NameMixin___init__.
  erewrite bind_setattr; [| exact Hob]. by rewrite Hty.
Qed.

(** X8.  With a single mixin in the hierarchy the [super()] chain is
    enough: [ClassA(name, a_value)] enters [ClassA.__init__] and
    [NameMixin.__init__], and leaves [name] and [a_value] set and nothing
    else; likewise [ClassB(name, b_value)]. *)
Theorem single_mixin_is_initialised_through_super
    (fuel : nat) w (name v : value) :
  (∃ w',
     new (S (S fuel)) ClassA [name; v] w = (Ok (next_id w), w') ∧
     trace w' = trace w ++ [(ClassA, "__init__"); (NameMixin, "__init__")] ∧
     attr_of w' (next_id w) "name" = Some name ∧
     attr_of w' (next_id w) "a_value" = Some v ∧
     attr_of w' (next_id w) "b_value" = None) ∧
  (∃ w',
     new (S (S fuel)) ClassB [name; v] w = (Ok (next_id w), w') ∧
     trace w' = trace w ++ [(ClassB, "__init__"); (NameMixin, "__init__")] ∧
     attr_of w' (next_id w) "name" = Some name ∧
     attr_of w' (next_id w) "b_value" = Some v ∧
     attr_of w' (next_id w) "a_value" = None).
Proof.
  split; eexists; (split; [| split; [| split; [| split]]]).
  1, 6: rewrite new_runs_own_init; unfold bodies at 1;
    cbn [body String.eqb Ascii.eqb Bool.eqb];
    unfold ClassA___init__, ClassB___init__;
    rewrite bind_assoc;
    (erewrite bind_ok;
       [| eapply super_init_reaches_NameMixin;
          [auto | cbn [heap]; apply lookup_insert_eq | reflexivity]]);
    rewrite bind_assoc;
    (erewrite bind_setattr;
       [| cbn [heap with_heap with_trace]; apply lookup_insert_eq]);
    reflexivity.
  1, 5: cbn [trace with_trace with_heap]; by rewrite <- app_assoc.
  all: unfold attr_of; cbn [heap with_heap with_trace ob_dict ob_type];
    rewrite !lookup_insert_eq; cbn [ob_dict];
    repeat first [ rewrite lookup_insert_eq
                 | rewrite lookup_insert_ne by done ];
    by rewrite ?lookup_empty.
Qed.

End ConstructorFacts.

(** ** More on the racing threads *)

Module ThreadSafetyMore.
Import Py PyFacts ThreadSafety ThreadSafetyFacts.

Section Threads.
Context {C : Type} `{Countable C}.
Local Abbreviation W := (world C).

Variable init : C → nat → list value → M W unit.
Variable cls : C.

Implicit Types (s : system (C := C)) (sh : shared (C := C))
  (t : thread) (ts : list thread) (i : nat).

Local Abbreviation safe := (safe_action init cls).
Local Abbreviation unsafe := (unsafe_action init cls).

Lemma guarded (action : thread → shared → option (thread * shared)) :
  action = safe_action init cls ∨ action = meta_action init cls →
  action = safe.
Proof. intros [-> | ->]; [done | apply meta_action_unfold]. Qed.

(** X9.  Mutual exclusion, whatever the constructor does: in every state
    the threads can reach through the lock-guarded accessor, no two threads
    are inside the [with lock:] block, and the lock is held exactly when
    some thread is inside. *)
Theorem guarded_block_is_mutually_exclusive action argss registry w s :
  action = safe_action init cls ∨ action = meta_action init cls →
  rtc (step action) (start argss registry w) s →
  (∀ i j ti tj,
     i ≠ j → threads s !! i = Some ti → threads s !! j = Some tj →
     in_critical ti = true → in_critical tj = false) ∧
  (locked (shared_of s) = true ↔
   ∃ i t, threads s !! i = Some t ∧ in_critical t = true).
Proof.
  intros Hact Hr. rewrite (guarded _ Hact) in Hr.
  destruct (safe_inv_reachable init cls _ _ _ _ Hr) as [Hl _].
  unfold lock_inv, count in Hl. split.
  - intros i j ti tj Hne Ei Ej Hi.
    pose proof (total_two (λ t, if in_critical t then 1 else 0)
                  _ i j ti tj Hne Ei Ej) as H2.
    cbv beta in H2. rewrite Hi in H2.
    destruct (in_critical tj); [| done].
    destruct (locked (shared_of s)); lia.
  - split.
    + intros Hlk. rewrite Hlk in Hl.
      destruct (total_positive (λ t, if in_critical t then 1 else 0)
                  (threads s)) as (i & t & Ei & Hi); [lia |].
      exists i, t. split; [done |]. destruct (in_critical t); [done | lia].
    + intros (i & t & Ei & Hi).
      pose proof (total_lookup_le (λ t, if in_critical t then 1 else 0)
                    _ i t Ei) as Hle.
      cbv beta in Hle. rewrite Hi in Hle.
      destruct (locked (shared_of s)); [done | lia].
Qed.

Lemma finished_not_critical ts :
  forallb finished ts = true →
  sum_list ((λ t, if in_critical t then 1 else 0) <$> ts) = 0.
Proof.
  induction ts as [| t ts IH]; [done |]. csimpl.
  intros [Ht Hts]%andb_prop. rewrite (IH Hts).
  destruct t as [a p]. by destruct p.
Qed.

(** X10.  The lock-guarded accessor always comes to an end, also when
    constructors raise: as long as a thread is not done some thread can
    move, no run has more than eight actions per thread, and once all
    threads are done the lock is free. *)
Theorem guarded_accessor_finishes_with_lock_free action argss registry w :
  action = safe_action init cls ∨ action = meta_action init cls →
  (∀ s, rtc (step action) (start argss registry w) s →
        all_finished s = false → ∃ s', step action s s') ∧
  (∀ n s, nsteps (step action) n (start argss registry w) s →
          n ≤ 8 * length argss) ∧
  (∀ s, rtc (step action) (start argss registry w) s →
        all_finished s = true → locked (shared_of s) = false).
Proof.
  intros Hact. rewrite (guarded _ Hact). split; [| split].
  - intros s Hr Hfin. apply safe_progress; [| done].
    by eapply safe_inv_reachable.
  - intros n s Hn. apply safe_run_bounded in Hn.
    rewrite measure_start in Hn. lia.
  - intros s Hr Hfin.
    destruct (safe_inv_reachable init cls _ _ _ _ Hr) as [Hl _].
    unfold lock_inv, count in Hl.
    rewrite (finished_not_critical _ Hfin) in Hl.
    by destruct (locked (shared_of s)).
Qed.

(** *** What the threads return *)

(** A thread that has left the block, or is about to, finds the class
    registered; a thread that has returned holds the registered object. *)
Definition sees_instance sh t : Prop :=
  match at_pc t with
  | AtRelease | AtReturn => is_Some (instances sh !! cls)
  | Returned o => instances sh !! cls = Some o
  | _ => True
  end.

Lemma sees_instance_mono sh sh' t :
  (∀ o, instances sh !! cls = Some o → instances sh' !! cls = Some o) →
  sees_instance sh t → sees_instance sh' t.
Proof.
  intros Hkeep. unfold sees_instance.
  destruct (at_pc t); try done; try (intros [o Ho]; eauto); eauto.
Qed.

Lemma sees_instance_start argss registry w :
  Forall (sees_instance (shared_of (start argss registry w)))
         (threads (start argss registry w)).
Proof.
  unfold start. cbn [threads shared_of].
  apply Forall_fmap, Forall_forall. by intros a _.
Qed.

Lemma sees_instance_step s s' i :
  safe_inv cls s →
  Forall (sees_instance (shared_of s)) (threads s) →
  sched safe i s = Some s' →
  Forall (sees_instance (shared_of s')) (threads s').
Proof.
  intros Hinv Hsees Hs.
  assert (Hkeep : ∀ o, instances (shared_of s) !! cls = Some o →
                       instances (shared_of s') !! cls = Some o).
  { intros o. apply (safe_step_keeps_entries init cls s s'); [done |].
    by exists i. }
  destruct (sched_inv _ _ _ _ Hs) as (t & t' & sh' & Et & Ea & ->).
  cbn [threads shared_of] in *.
  pose proof (Forall_lookup_1 _ _ _ _ Hsees Et) as Ht.
  apply Forall_insert.
  { eapply Forall_impl; [exact Hsees |]. intros tj.
    by apply sees_instance_mono. }
  clear Hsees Hs Hinv.
  destruct s as [ts sh]. destruct t as [a p].
  cbn [threads shared_of] in *.
  unfold sees_instance in *. cbn [at_pc] in Ht.
  unfold safe_action, lookup_result in Ea. cbn [at_pc] in Ea.
  destruct p; try discriminate Ea.
  - destruct (present cls sh) eqn:Hp; injection Ea as <- <-; cbn [at_pc move];
      [| done].
    unfold present in Hp. by apply bool_decide_eq_true_1 in Hp.
  - destruct (locked sh); [done |]. by injection Ea as <- <-.
  - destruct (present cls sh) eqn:Hp; injection Ea as <- <-; cbn [at_pc move];
      [| done].
    unfold present in Hp. by apply bool_decide_eq_true_1 in Hp.
  - by injection Ea as <- <-.
  - unfold construct in Ea.
    destruct (Singleton.type_call init cls (call_args _) (world_of sh))
      as [[o|e] w']; by injection Ea as <- <-.
  - injection Ea as <- <-. cbn [at_pc move store instances].
    rewrite lookup_insert_eq. by eexists.
  - injection Ea as <- <-. cbn [at_pc move set_lock instances]. exact Ht.
  - by injection Ea as <- <-.
  - destruct Ht as [o Ho]. rewrite Ho in Ea. by injection Ea as <- <-.
Qed.

(** X11.  Whatever the constructor does (it may raise for some callers),
    every thread that returns from the lock-guarded accessor returns the
    object registered for the class, so all callers that return hold the
    same object; and the final [instances[cls]] never fails: a thread that
    reaches it finds the class registered. *)
Theorem guarded_accessor_returns_the_registered_instance
    action argss registry w s :
  action = safe_action init cls ∨ action = meta_action init cls →
  rtc (step action) (start argss registry w) s →
  (∀ i t o, threads s !! i = Some t → at_pc t = Returned o →
            instances (shared_of s) !! cls = Some o) ∧
  (∀ i j ti tj oi oj,
     threads s !! i = Some ti → threads s !! j = Some tj →
     at_pc ti = Returned oi → at_pc tj = Returned oj → oi = oj) ∧
  (∀ i t, threads s !! i = Some t → at_pc t = AtReturn →
          is_Some (instances (shared_of s) !! cls)).
Proof.
  intros Hact Hr. rewrite (guarded _ Hact) in Hr.
  assert (Hall : safe_inv cls s ∧
                 Forall (sees_instance (shared_of s)) (threads s)).
  { revert s Hr. apply rtc_ind_r.
    - split; [apply safe_inv_start | apply sees_instance_start].
    - intros s1 s2 _ [i Hs] [Hinv Hsees]. split.
      + by eapply safe_inv_step.
      + by eapply sees_instance_step. }
  destruct Hall as [_ Hsees].
  assert (Hret : ∀ i t o, threads s !! i = Some t → at_pc t = Returned o →
                          instances (shared_of s) !! cls = Some o).
  { intros i t o Et Hp. pose proof (Forall_lookup_1 _ _ _ _ Hsees Et) as Ht.
    unfold sees_instance in Ht. by rewrite Hp in Ht. }
  split; [exact Hret |]. split.
  - intros i j ti tj oi oj Ei Ej Hi Hj.
    pose proof (Hret _ _ _ Ei Hi). pose proof (Hret _ _ _ Ej Hj). congruence.
  - intros i t Et Hp. pose proof (Forall_lookup_1 _ _ _ _ Hsees Et) as Ht.
    unfold sees_instance in Ht. by rewrite Hp in Ht.
Qed.


(** *** The race of the unguarded accessor *)

Lemma sched_middle (action : thread → shared → option (thread * shared))
    pre t rest sh r :
  action t sh = Some r →
  sched action (length pre) (mk_system (pre ++ t :: rest) sh) =
  Some (mk_system (pre ++ r.1 :: rest) r.2).
Proof.
  intros Ea. unfold sched. cbn [threads shared_of].
  rewrite list_lookup_middle by done. rewrite Ea. destruct r as [t' sh'].
  cbn [fst snd]. do 2 f_equal.
  rewrite insert_app_r_alt by lia. by rewrite Nat.sub_diag.
Qed.

Lemma run_middle (action : thread → shared → option (thread * shared))
    pre t rest sh r schedule :
  action t sh = Some r →
  run action (length pre :: schedule) (mk_system (pre ++ t :: rest) sh) =
  run action schedule (mk_system (pre ++ r.1 :: rest) r.2).
Proof. intros Ea. cbn [run]. by rewrite (sched_middle _ _ _ _ _ _ Ea). Qed.

Lemma run_app (action : thread → shared → option (thread * shared))
    l1 l2 : ∀ s s1,
  run action l1 s = Some s1 →
  run action (l1 ++ l2) s = run action l2 s1.
Proof.
  induction l1 as [| i l1 IH]; intros s s1; cbn.
  - by intros [= <-].
  - destruct (sched action i s); [apply IH | done].
Qed.

(** Threads [k], [k+1], ..., one after the other, each doing the four
    actions that follow the test: sleep, construct, store, return. *)
Fixpoint one_by_one (k n : nat) : list nat :=
  match n with
  | O => []
  | S n' => [k; k; k; k] ++ one_by_one (S k) n'
  end.

(** The schedule of the race: every thread performs the test before any
    thread goes on. *)
Definition everyone_tests_first (n : nat) : list nat :=
  seq 0 n ++ one_by_one 0 n.

Lemma unsafe_all_test : ∀ argss pre sh,
  instances sh !! cls = None →
  run unsafe (seq (length pre) (length argss))
      (mk_system (pre ++ ((λ a, mk_thread a AtCheck) <$> argss)) sh) =
  Some (mk_system (pre ++ ((λ a, mk_thread a AtSleep) <$> argss)) sh).
Proof.
  induction argss as [| a rest IH]; intros pre sh Ereg; [done |].
  rewrite !fmap_cons. cbn [length seq]. erewrite run_middle; cycle 1.
  { unfold unsafe_action, present. cbn [at_pc]. rewrite Ereg.
    rewrite bool_decide_false by apply is_Some_None. reflexivity. }
  unfold move. cbn [fst snd call_args].
  specialize (IH (pre ++ [mk_thread a AtSleep]) sh Ereg).
  rewrite length_app, Nat.add_1_r, <- !app_assoc in IH. exact IH.
Qed.

Section Race.
(** Initialisers allocate; they never hand back an identity. *)
Hypothesis init_allocates :
  ∀ c o args w, next_id w ≤ next_id (init c o args w).2.

Lemma unsafe_one_by_one : ∀ argss pre sh,
  (∀ a w, a ∈ argss →
          ∃ o w', Singleton.type_call init cls a w = (Ok o, w')) →
  ∃ os sh',
    run unsafe (one_by_one (length pre) (length argss))
        (mk_system (pre ++ ((λ a, mk_thread a AtSleep) <$> argss)) sh) =
    Some (mk_system
            (pre ++ zip_with (λ a o, mk_thread a (Returned o)) argss os)
            sh') ∧
    length os = length argss ∧
    built sh' = length argss + built sh ∧
    next_id (world_of sh) ≤ next_id (world_of sh') ∧
    Forall (λ o, next_id (world_of sh) ≤ o < next_id (world_of sh')) os ∧
    NoDup os ∧
    instances sh' !! cls =
      match last os with Some o => Some o | None => instances sh !! cls end.
Proof.
  induction argss as [| a rest IH]; intros pre sh Hret.
  - exists [], sh. cbn. repeat split; auto using NoDup_nil_2.
  - destruct (Hret a (world_of sh)) as (o & w1 & Hc); [left |].
    destruct (SingletonFacts.type_call_fresh init init_allocates cls a
                (world_of sh)) as [Hlt Ho].
    rewrite Hc in Hlt, Ho. cbn [fst snd] in Hlt, Ho.
    specialize (Ho o eq_refl).
    set (sh1 := mk_shared (<[cls := o]> (instances sh)) (locked sh)
                          (S (built sh)) w1).
    destruct (IH (pre ++ [mk_thread a (Returned o)]) sh1) as
      (os & sh' & Hrun & Hlen & Hb & Hmono & Hrange & Hnd & Hreg).
    { intros a' w' Ha'. apply Hret. by right. }
    exists (o :: os), sh'. split; [| split; [| split; [| split;
      [| split; [| split]]]]].
    + rewrite fmap_cons. cbn [length one_by_one app zip_with].
      erewrite run_middle; [| reflexivity].
      unfold move. cbn [fst snd call_args].
      erewrite run_middle; cycle 1.
      { unfold unsafe_action, construct. cbn [at_pc call_args].
        rewrite Hc. unfold move. cbn [at_pc call_args]. reflexivity. }
      cbn [fst snd].
      erewrite run_middle; [| reflexivity].
      unfold move. cbn [fst snd call_args].
      erewrite run_middle; cycle 1.
      { unfold unsafe_action, lookup_result, store.
        cbn [at_pc instances]. rewrite lookup_insert_eq. reflexivity. }
      unfold move, store. cbn [fst snd call_args].
      rewrite length_app, Nat.add_1_r, <- !app_assoc in Hrun.
      exact Hrun.
    + cbn. by rewrite Hlen.
    + rewrite Hb. subst sh1. cbn. lia.
    + subst sh1. cbn [world_of] in Hmono. lia.
    + subst sh1. cbn [world_of] in Hrange, Hmono.
      apply Forall_cons. split; [lia |].
      eapply Forall_impl; [exact Hrange |]. cbn. intros o'. lia.
    + apply NoDup_cons. split; [| done].
      intros Hin. rewrite Forall_forall in Hrange.
      specialize (Hrange o Hin). subst sh1. cbn [world_of] in Hrange. lia.
    + rewrite Hreg. subst sh1. cbn [instances].
      rewrite lookup_insert_eq. destruct os as [| o' os']; [done |].
      rewrite last_cons_cons.
      destruct (last (o' :: os')) eqn:E; [done |].
      by apply last_None in E.
Qed.

(** X12.  The race of [unsafe_singleton], for any number of threads:
    when every thread performs the test [cls not in instances] before
    any of them stores, each thread calls the constructor and returns an
    object of its own.  With constructors that return, the threads end
    with pairwise different objects, the constructor has run once per
    thread, and the dictionary keeps the object stored last. *)
Theorem unguarded_accessor_builds_one_instance_per_thread
    argss registry w :
  registry !! cls = None →
  (∀ a w, a ∈ argss →
          ∃ o w', Singleton.type_call init cls a w = (Ok o, w')) →
  ∃ s os,
    run unsafe (everyone_tests_first (length argss))
        (start argss registry w) = Some s ∧
    threads s = zip_with (λ a o, mk_thread a (Returned o)) argss os ∧
    length os = length argss ∧
    NoDup os ∧
    built (shared_of s) = length argss ∧
    instances (shared_of s) !! cls = last os.
Proof.
  intros Ereg Hret.
  destruct (unsafe_one_by_one argss [] (mk_shared registry false 0 w) Hret)
    as (os & sh' & Hrun & Hlen & Hb & _ & _ & Hnd & Hreg).
  exists (mk_system (zip_with (λ a o, mk_thread a (Returned o)) argss os)
                    sh'), os.
  split; [| split; [| split; [| split; [| split]]]]; try done.
  - unfold everyone_tests_first, start.
    erewrite run_app; [exact Hrun |].
    by apply (unsafe_all_test argss []).
  - cbn. rewrite Hb. cbn. lia.
  - cbn [shared_of]. rewrite Hreg. cbn [instances]. rewrite Ereg.
    by destruct (last os).
Qed.
End Race.

(** *** A call that is not interrupted *)

(** How a thread ends, given what the call returned or raised. *)
Definition outcome (r : result nat) : pc :=
  match r with
  | Ok o => Returned o
  | Raise e => Raised e
  end.

Local Ltac solo tac :=
  erewrite solo_step; [| done | tac; reflexivity];
  unfold move; cbn [fst snd call_args at_pc].

Lemma absent sh : instances sh !! cls = None → present cls sh = false.
Proof.
  intros E. unfold present. rewrite E.
  apply bool_decide_eq_false_2, is_Some_None.
Qed.

Lemma guarded_call_alone ts sh i a :
  i < length ts →
  locked sh = false →
  let r := Singleton.get_instance init cls a
             (Singleton.mk_store (instances sh) [] (world_of sh)) in
  ∃ k sh',
    k ≤ 8 ∧
    run safe (replicate k i)
        (mk_system (<[i := mk_thread a AtCheck]> ts) sh) =
    Some (mk_system (<[i := mk_thread a (outcome r.1)]> ts) sh') ∧
    instances sh' = Singleton.instances r.2 ∧
    world_of sh' = Singleton.world_of r.2 ∧
    built sh' = built sh + length (Singleton.built r.2) ∧
    locked sh' = false.
Proof.
  intros Hi Hlk r. subst r.
  destruct (instances sh !! cls) as [o|] eqn:Ereg.
  - erewrite SingletonFacts.get_instance_hit; [| exact Ereg].
    exists 2. eexists. split; [lia |]. split.
    { cbn [replicate].
      solo ltac:(unfold safe_action, present; cbn [at_pc]; rewrite Ereg;
                 rewrite bool_decide_true by (by eexists)).
      solo ltac:(unfold safe_action, lookup_result; cbn [at_pc];
                 rewrite Ereg).
      reflexivity. }
    all: repeat split; cbn; first [done | lia].
  - pose proof (absent _ Ereg) as Hp.
    destruct (Singleton.type_call init cls a (world_of sh))
      as [[o|e] w'] eqn:Hc.
    + erewrite SingletonFacts.get_instance_miss; [| exact Ereg | exact Hc].
      exists 8. eexists. split; [lia |]. split.
      { cbn [replicate].
        solo ltac:(unfold safe_action; cbn [at_pc]; rewrite Hp).
        solo ltac:(unfold safe_action; cbn [at_pc]; rewrite Hlk).
        solo ltac:(unfold safe_action, present, set_lock;
                   cbn [at_pc instances];
                   fold (present cls sh); rewrite Hp).
        solo idtac.
        solo ltac:(unfold safe_action, construct, set_lock;
                   cbn [at_pc call_args world_of]; rewrite Hc).
        solo idtac.
        solo idtac.
        solo ltac:(unfold safe_action, lookup_result, set_lock, store;
                   cbn [at_pc instances]; rewrite lookup_insert_eq).
        reflexivity. }
      all: repeat split; cbn; first [done | lia].
    + erewrite SingletonFacts.get_instance_miss_raise;
        [| exact Ereg | exact Hc].
      exists 6. eexists. split; [lia |]. split.
      { by apply safe_failure_releases. }
      all: repeat split; cbn; first [done | lia].
Qed.

Lemma unguarded_call_alone ts sh i a :
  i < length ts →
  let r := Singleton.get_instance init cls a
             (Singleton.mk_store (instances sh) [] (world_of sh)) in
  ∃ k sh',
    k ≤ 5 ∧
    run unsafe (replicate k i)
        (mk_system (<[i := mk_thread a AtCheck]> ts) sh) =
    Some (mk_system (<[i := mk_thread a (outcome r.1)]> ts) sh') ∧
    instances sh' = Singleton.instances r.2 ∧
    world_of sh' = Singleton.world_of r.2 ∧
    built sh' = built sh + length (Singleton.built r.2) ∧
    locked sh' = locked sh.
Proof.
  intros Hi r. subst r.
  destruct (instances sh !! cls) as [o|] eqn:Ereg.
  - erewrite SingletonFacts.get_instance_hit; [| exact Ereg].
    exists 2. eexists. split; [lia |]. split.
    { cbn [replicate].
      solo ltac:(unfold unsafe_action, present; cbn [at_pc]; rewrite Ereg;
                 rewrite bool_decide_true by (by eexists)).
      solo ltac:(unfold unsafe_action, lookup_result; cbn [at_pc];
                 rewrite Ereg).
      reflexivity. }
    all: repeat split; cbn; first [done | lia].
  - pose proof (absent _ Ereg) as Hp.
    destruct (Singleton.type_call init cls a (world_of sh))
      as [[o|e] w'] eqn:Hc.
    + erewrite SingletonFacts.get_instance_miss; [| exact Ereg | exact Hc].
      exists 5. eexists. split; [lia |]. split.
      { cbn [replicate].
        solo ltac:(unfold unsafe_action; cbn [at_pc]; rewrite Hp).
        solo idtac.
        solo ltac:(unfold unsafe_action, construct;
                   cbn [at_pc call_args world_of]; rewrite Hc;
                   unfold move; cbn [at_pc call_args]).
        solo idtac.
        solo ltac:(unfold unsafe_action, lookup_result, store;
                   cbn [at_pc instances]; rewrite lookup_insert_eq).
        reflexivity. }
      all: repeat split; cbn; first [done | lia].
    + erewrite SingletonFacts.get_instance_miss_raise;
        [| exact Ereg | exact Hc].
      exists 3. eexists. split; [lia |]. split.
      { cbn [replicate].
        solo ltac:(unfold unsafe_action; cbn [at_pc]; rewrite Hp).
        solo idtac.
        solo ltac:(unfold unsafe_action, construct;
                   cbn [at_pc call_args world_of]; rewrite Hc;
                   unfold move; cbn [at_pc call_args]).
        reflexivity. }
      all: repeat split; cbn; first [done | lia].
Qed.

(** X13.  A call that no other thread interrupts does what the plain
    decorator of 02_decorator_example.py does: the thread ends with the
    object or the exception of the sequential [get_instance], the
    dictionary and the process end as they do there, and the constructor
    is called as often.  This holds for the unguarded accessor wherever
    the other threads stand, and for the lock-guarded decorator and
    metaclass whenever the lock is free, which it is again afterwards;
    the call takes at most five actions unguarded and eight guarded. *)
Theorem uninterrupted_call_agrees_with_plain_decorator ts sh i a :
  i < length ts →
  let r := Singleton.get_instance init cls a
             (Singleton.mk_store (instances sh) [] (world_of sh)) in
  let agrees sh' :=
    instances sh' = Singleton.instances r.2 ∧
    world_of sh' = Singleton.world_of r.2 ∧
    built sh' = built sh + length (Singleton.built r.2) in
  (∃ k sh',
     k ≤ 5 ∧
     run (unsafe_action init cls) (replicate k i)
         (mk_system (<[i := mk_thread a AtCheck]> ts) sh) =
     Some (mk_system (<[i := mk_thread a (outcome r.1)]> ts) sh') ∧
     agrees sh') ∧
  (locked sh = false →
   ∀ action,
     action = safe_action init cls ∨ action = meta_action init cls →
     ∃ k sh',
       k ≤ 8 ∧
       run action (replicate k i)
           (mk_system (<[i := mk_thread a AtCheck]> ts) sh) =
       Some (mk_system (<[i := mk_thread a (outcome r.1)]> ts) sh') ∧
       agrees sh' ∧ locked sh' = false).
Proof.
  intros Hi r agrees. split.
  - destruct (unguarded_call_alone ts sh i a Hi)
      as (k & sh' & Hk & Hrun & H1 & H2 & H3 & _).
    by exists k, sh'.
  - intros Hlk action Hact. rewrite (guarded _ Hact).
    destruct (guarded_call_alone ts sh i a Hi Hlk)
      as (k & sh' & Hk & Hrun & H1 & H2 & H3 & H4).
    by exists k, sh'.
Qed.

End Threads.
End ThreadSafetyMore.

(** ** More on subclassing singletons *)

Module SubclassingFacts.
Import Py PyFacts DecoratorSubclassing.

Section ClassStatement.
Context {C : Type}.
Implicit Types (b : binding (C := C)) (bases : list (binding (C := C))).




End ClassStatement.

Local Abbreviation W := (world cls).
Implicit Types (w : W) (o : nat) (st : Singleton.store (C := cls)).

(** The body of [Logger.__init__] on an object that exists. *)
Lemma Logger___init___runs args name text o ob w :
  args = [name] ∨ (args = [] ∧ name = VStr "Logger") →
  py_str name = Ok text →
  heap w !! o = Some ob →
  Logger___init__ o args w =
  (Ok VNone,
   with_stdout (stdout w ++ ["Created " +:+ text])
     (with_heap (<[o := mk_object (ob_type ob)
                         (<["name" := name]> (ob_dict ob))]> (heap w)) w)).
Proof.
  intros Hargs Hstr Hob. unfold Logger___init__.
  destruct Hargs as [-> | [-> ->]];
    (erewrite bind_setattr; [| exact Hob]);
    (erewrite bind_getattr;
       [| cbn [heap with_heap]; apply lookup_insert_eq
        | cbn [ob_dict]; apply lookup_insert_eq]);
    unfold lift at 1; unfold bind at 1; rewrite Hstr;
    by rewrite bind_print.
Qed.

(** [Logger(name)] and [Logger()] on their own. *)
Lemma Logger_call args name text w :
  args = [name] ∨ (args = [] ∧ name = VStr "Logger") →
  py_str name = Ok text →
  Singleton.type_call init Logger args w =
  (Ok (next_id w),
   mk_world (<[next_id w := mk_object Logger (<["name" := name]> ∅)]>
               (heap w))
            (S (next_id w)) (stdout w ++ ["Created " +:+ text])
            (environ w) (rng w) (draws w)
            (trace w ++ [(Logger, "__init__")])).
Proof.
  intros Hargs Hstr.
  rewrite SingletonFacts.type_call_result. cbv zeta.
  unfold init, call_method. rewrite !bind_assoc.
  erewrite bind_type_of; [| cbn [heap]; apply lookup_insert_eq].
  cbn [ob_type].
  change (resolve bases defines depth Logger "__init__") with (Some Logger).
  cbn [via]. unfold call_depth. rewrite invoke_S.
  rewrite !bind_assoc, bind_enter. unfold bodies, body.
  cbn [String.eqb Ascii.eqb Bool.eqb].
  erewrite bind_ok;
    [| eapply Logger___init___runs;
       [exact Hargs | exact Hstr
       | cbn [heap with_trace]; apply lookup_insert_eq]].
  unfold ret, with_stdout, with_heap, with_trace.
  cbn [heap next_id stdout environ rng draws trace ob_type ob_dict].
  by rewrite insert_insert_eq.
Qed.

(** [FileLogger(filename)] on its own: the name is set by
    [Logger.__init__], reached through [super()], before the file name
    is. *)
Lemma FileLogger_call filename text w :
  py_str filename = Ok text →
  Singleton.type_call init FileLogger [filename] w =
  (Ok (next_id w),
   mk_world (<[next_id w :=
                 mk_object FileLogger
                   (<["filename" := filename]>
                    (<["name" := VStr ("FileLogger(" +:+ text +:+ ")")]>
                     ∅))]> (heap w))
            (S (next_id w))
            (stdout w ++ ["Created " +:+ ("FileLogger(" +:+ text +:+ ")")])
            (environ w) (rng w) (draws w)
            (trace w ++ [(FileLogger, "__init__"); (Logger, "__init__")])).
Proof.
  intros Hstr.
  rewrite SingletonFacts.type_call_result. cbv zeta.
  unfold init, call_method. rewrite !bind_assoc.
  erewrite bind_type_of; [| cbn [heap]; apply lookup_insert_eq].
  cbn [ob_type].
  change (resolve bases defines depth FileLogger "__init__")
    with (Some FileLogger).
  cbn [via]. unfold call_depth. rewrite invoke_S.
  rewrite !bind_assoc, bind_enter. unfold bodies at 1. unfold body at 1.
  cbn [String.eqb Ascii.eqb Bool.eqb]. unfold FileLogger___init__.
  rewrite !bind_assoc. unfold lift at 1. unfold bind at 1. rewrite Hstr.
  rewrite !bind_assoc.
  erewrite bind_type_of;
    [| cbn [heap with_trace]; apply lookup_insert_eq].
  cbn [ob_type].
  change (resolve_super bases defines depth FileLogger FileLogger "__init__")
    with (Some Logger).
  cbn [via]. rewrite invoke_S.
  rewrite !bind_assoc, bind_enter. unfold bodies, body.
  cbn [String.eqb Ascii.eqb Bool.eqb].
  erewrite bind_ok;
    [| eapply Logger___init___runs;
       [by left | reflexivity
       | cbn [heap with_trace]; apply lookup_insert_eq]].
  cbv beta. rewrite ?bind_assoc.
  erewrite bind_setattr;
    [| cbn [heap with_trace with_heap with_stdout]; apply lookup_insert_eq].
  unfold ret, bind, with_stdout, with_heap, with_trace.
  cbn [heap next_id stdout environ rng draws trace ob_type ob_dict].
  rewrite !insert_insert_eq. by rewrite <- app_assoc.
Qed.

(** X15.  The second call of a metaclass singleton ignores its
    arguments.  For a class [FileLogger] not yet registered,
    [FileLogger(f1)] creates the object, with [filename] set to [f1] and
    [name] to "FileLogger(f1)", and prints one line; a later
    [FileLogger(f2)] returns that object and changes nothing, so
    [filename] still is [f1] and nothing more is printed: [__init__]
    does not run again. *)
Theorem second_call_ignores_its_arguments st (f1 f2 : value) text :
  Singleton.instances st !! FileLogger = None →
  py_str f1 = Ok text →
  let w := Singleton.world_of st in
  let r1 := make FileLogger [f1] st in
  let r2 := make FileLogger [f2] r1.2 in
  r1.1 = Ok (next_id w) ∧
  heap (Singleton.world_of r1.2) !! next_id w =
    Some (mk_object FileLogger
            (<["filename" := f1]>
             (<["name" := VStr ("FileLogger(" +:+ text +:+ ")")]> ∅))) ∧
  stdout (Singleton.world_of r1.2) =
    stdout w ++ ["Created FileLogger(" +:+ text +:+ ")"] ∧
  r2 = (Ok (next_id w), r1.2).
Proof.
  intros Ereg Hstr w r1 r2. subst r1 r2. unfold make.
  rewrite !SingletonFacts.SingletonMeta_call_unfold.
  erewrite SingletonFacts.get_instance_miss;
    [| exact Ereg | by apply FileLogger_call].
  cbn [fst snd Singleton.world_of heap stdout].
  split; [done |]. split; [apply lookup_insert_eq |]. split; [done |].
  apply SingletonFacts.get_instance_hit. cbn [Singleton.instances].
  apply lookup_insert_eq.
Qed.

End SubclassingFacts.

(** ** More on the configuration singletons *)

Module ConfigurationFacts.
Import Py PyFacts Config ConfigFacts MetaclassExample.

Local Abbreviation W := (world cls).
Implicit Types (w : W) (o : nat) (st : Singleton.store (C := cls)).

(** What [_load_config] stores for the environment of [w]. *)
Definition base_config (env : gmap string string) (m : Z)
  : gmap string value :=
  <["max_connections" := VInt m]>
  (<["debug_mode" :=
       VBool (String.eqb (str_lower (default "False" (env !! "DEBUG")))
                         "true")]>
  (<["api_key" := of_optional (env !! "API_KEY")]> ∅)).

(** What [_load_db_config] adds. *)
Definition db_config (env : gmap string string) (p : Z)
  : gmap string value :=
  <["db_name" := VStr (default "myapp" (env !! "DB_NAME"))]>
  (<["db_port" := VInt p]>
  (<["db_host" := VStr (default "localhost" (env !! "DB_HOST"))]> ∅)).

(** The process after the two [print] calls and the two draws of
    [DatabaseConfigManager.__init__] and [ConfigManager.__init__]. *)
Definition announced w : list string :=
  stdout w ++
  ["DatabaseConfigManager initializing with random number: "
     +:+ pretty (1 + rng w (draws w) mod 100);
   "ConfigManager initializing with random number: "
     +:+ pretty (1 + rng w (S (draws w)) mod 100)].

Lemma load_config_runs o ob w m :
  heap w !! o = Some ob →
  py_int (default "10" (environ w !! "MAX_CONN")) = Ok m →
  load_config o w =
  (Ok VNone,
   with_heap (<[o := mk_object (ob_type ob)
                       (<["_config" := VDict (base_config (environ w) m)]>
                          (ob_dict ob))]> (heap w)) w).
Proof.
  intros Hob Hm. unfold load_config.
  erewrite bind_ok; [| rewrite config_display_result, Hm; reflexivity].
  by erewrite bind_setattr.
Qed.

Lemma load_config_fails o w e :
  py_int (default "10" (environ w !! "MAX_CONN")) = Raise e →
  load_config o w = (Raise e, w).
Proof.
  intros Hm. unfold load_config.
  erewrite bind_raised; [done |]. by rewrite config_display_result, Hm.
Qed.

Lemma load_db_config_runs o ob d w p :
  heap w !! o = Some ob →
  ob_dict ob !! "_config" = Some (VDict d) →
  py_int (default "5432" (environ w !! "DB_PORT")) = Ok p →
  load_db_config o w =
  (Ok VNone,
   with_heap (<[o := mk_object (ob_type ob)
                       (<["_config" := VDict (db_config (environ w) p ∪ d)]>
                          (ob_dict ob))]> (heap w)) w).
Proof.
  intros Hob Hd Hp. unfold load_db_config.
  erewrite bind_getattr; [| exact Hob | exact Hd]. cbv beta iota.
  erewrite bind_ok; [| rewrite db_config_display_result, Hp; reflexivity].
  by erewrite bind_setattr.
Qed.

Lemma load_db_config_fails o ob d w e :
  heap w !! o = Some ob →
  ob_dict ob !! "_config" = Some (VDict d) →
  py_int (default "5432" (environ w !! "DB_PORT")) = Raise e →
  load_db_config o w = (Raise e, w).
Proof.
  intros Hob Hd Hp. unfold load_db_config.
  erewrite bind_getattr; [| exact Hob | exact Hd]. cbv beta iota.
  erewrite bind_raised; [done |]. by rewrite db_config_display_result, Hp.
Qed.

Local Ltac tidy :=
  cbv beta iota; rewrite ?bind_assoc;
  repeat (rewrite bind_ret; cbv beta iota; rewrite ?bind_assoc);
  unfold with_trace, with_stdout, with_heap;
  cbn [heap next_id stdout environ rng draws trace ob_type ob_dict via].

Local Ltac lookup_self :=
  cbn [heap]; rewrite ?insert_insert_eq; apply lookup_insert_eq.

(** [DatabaseConfigManager()] up to the call of [_load_config]. *)
Local Ltac to_load_config :=
  rewrite SingletonFacts.type_call_result; cbv zeta;
  unfold init, call, call_method; tidy;
  (erewrite bind_type_of; [| lookup_self]); tidy;
  change (resolve bases defines depth DatabaseConfigManager "__init__")
    with (Some DatabaseConfigManager);
  tidy; unfold call_depth; rewrite invoke_S; tidy; rewrite bind_enter; tidy;
  unfold bodies at 1; unfold body at 1; tidy;
  unfold DatabaseConfigManager___init__; tidy;
  rewrite bind_randint; tidy; rewrite bind_print; tidy;
  (erewrite bind_type_of; [| lookup_self]); tidy;
  change (resolve_super bases defines depth DatabaseConfigManager
            DatabaseConfigManager "__init__") with (Some ConfigManager);
  tidy; rewrite invoke_S; tidy; rewrite bind_enter; tidy;
  unfold bodies at 1; unfold body at 1; tidy;
  unfold ConfigManager___init__; tidy;
  rewrite bind_randint; tidy; rewrite bind_print; tidy;
  (erewrite bind_type_of; [| lookup_self]); tidy;
  change (resolve bases defines depth DatabaseConfigManager "_load_config")
    with (Some ConfigManager);
  tidy; rewrite invoke_S; tidy; rewrite bind_enter; tidy;
  unfold bodies at 1; unfold body at 1; tidy.

(** ... and from there to the call of [_load_db_config]. *)
Local Ltac to_load_db_config Hm :=
  (erewrite bind_ok;
     [| eapply load_config_runs; [lookup_self | exact Hm]]);
  tidy;
  (erewrite bind_type_of; [| lookup_self]); tidy;
  change (resolve bases defines depth DatabaseConfigManager
            "_load_db_config") with (Some DatabaseConfigManager);
  tidy; rewrite invoke_S; tidy; rewrite bind_enter; tidy;
  unfold bodies at 1; unfold body at 1; tidy.

Lemma DatabaseConfigManager_call w m p :
  py_int (default "10" (environ w !! "MAX_CONN")) = Ok m →
  py_int (default "5432" (environ w !! "DB_PORT")) = Ok p →
  Singleton.type_call init DatabaseConfigManager [] w =
  (Ok (next_id w),
   mk_world (<[next_id w :=
                 mk_object DatabaseConfigManager
                   (<["_config" := VDict (db_config (environ w) p ∪
                                          base_config (environ w) m)]>
                      ∅)]> (heap w))
            (S (next_id w)) (announced w) (environ w) (rng w)
            (S (S (draws w)))
            (trace w ++ [(DatabaseConfigManager, "__init__");
                         (ConfigManager, "__init__");
                         (ConfigManager, "_load_config");
                         (DatabaseConfigManager, "_load_db_config")])).
Proof.
  intros Hm Hp. to_load_config. to_load_db_config Hm.
  erewrite bind_ok;
    [| eapply load_db_config_runs;
       [lookup_self | cbn [ob_dict]; apply lookup_insert_eq | exact Hp]].
  tidy.
  unfold ret, announced. rewrite !insert_insert_eq, <- !app_assoc.
  reflexivity.
Qed.

(** A malformed [MAX_CONN] ends the call inside [_load_config]. *)
Lemma DatabaseConfigManager_call_bad_MAX_CONN w e :
  py_int (default "10" (environ w !! "MAX_CONN")) = Raise e →
  ∃ w',
    Singleton.type_call init DatabaseConfigManager [] w = (Raise e, w') ∧
    stdout w' = announced w ∧
    heap w' !! next_id w = Some (mk_object DatabaseConfigManager ∅).
Proof.
  intros Hm. eexists. split; [| split].
  - to_load_config.
    erewrite bind_raised; [| by eapply load_config_fails].
    reflexivity.
  - cbn [stdout]. unfold announced. by rewrite <- app_assoc.
  - cbn [heap]. apply lookup_insert_eq.
Qed.

(** A malformed [DB_PORT] ends it inside [_load_db_config], after the
    three basic settings have been stored. *)
Lemma DatabaseConfigManager_call_bad_DB_PORT w m e :
  py_int (default "10" (environ w !! "MAX_CONN")) = Ok m →
  py_int (default "5432" (environ w !! "DB_PORT")) = Raise e →
  ∃ w',
    Singleton.type_call init DatabaseConfigManager [] w = (Raise e, w') ∧
    stdout w' = announced w ∧
    heap w' !! next_id w =
      Some (mk_object DatabaseConfigManager
              (<["_config" := VDict (base_config (environ w) m)]> ∅)).
Proof.
  intros Hm Hp. eexists. split; [| split].
  - to_load_config. to_load_db_config Hm.
    erewrite bind_raised;
      [| eapply load_db_config_fails;
         [lookup_self | cbn [ob_dict]; apply lookup_insert_eq | exact Hp]].
    reflexivity.
  - cbn [stdout]. unfold announced. by rewrite <- app_assoc.
  - cbn [heap]. rewrite ?insert_insert_eq. apply lookup_insert_eq.
Qed.

(** [self.get(key)] and [self.get(key, default)] on an object whose
    configuration is loaded: only the trace records the call. *)
Lemma get_answers f o ob d (k : string) dflt args w :
  heap w !! o = Some ob →
  ob_type ob ≠ object →
  ob_dict ob !! "_config" = Some (VDict d) →
  args = [VStr k; dflt] ∨ (args = [VStr k] ∧ dflt = VNone) →
  bind (type_of o) (λ ty,
    via (resolve bases defines depth ty "get") "get"
        (λ d', invoke bases defines depth bodies (S f) d' "get" o args)) w =
  (Ok (default dflt (d !! k)),
   with_trace (trace w ++ [(ConfigManager, "get")]) w).
Proof.
  intros Hob Hty Hd Hargs.
  erewrite bind_type_of; [| exact Hob].
  assert (resolve bases defines depth (ob_type ob) "get"
          = Some ConfigManager) as ->.
  { by destruct (ob_type ob). }
  cbn [via]. rewrite invoke_S, bind_enter. unfold bodies, body.
  destruct Hargs as [-> | [-> ->]]; cbv iota beta; unfold config_get;
    (erewrite bind_getattr; [| cbn [heap with_trace]; exact Hob | exact Hd]);
    cbv iota beta; unfold ret; by destruct (d !! k).
Qed.

Lemma get_db_url_answers o ob d vh vp vn sh sp sn w :
  heap w !! o = Some ob →
  ob_type ob = DatabaseConfigManager →
  ob_dict ob !! "_config" = Some (VDict d) →
  d !! "db_host" = Some vh → py_str vh = Ok sh →
  d !! "db_port" = Some vp → py_str vp = Ok sp →
  d !! "db_name" = Some vn → py_str vn = Ok sn →
  (call o "get_db_url" [] w).1 =
  Ok (VStr ("postgresql://" +:+ sh +:+ ":" +:+ sp +:+ "/" +:+ sn)).
Proof.
  intros Hob Hty Hd Hh Hsh Hp Hsp Hn Hsn.
  assert (Hne : ob_type ob ≠ object) by by rewrite Hty.
  unfold call, call_method.
  erewrite bind_type_of; [| exact Hob]. rewrite Hty.
  change (resolve bases defines depth DatabaseConfigManager "get_db_url")
    with (Some DatabaseConfigManager).
  cbn [via]. unfold call_depth. rewrite invoke_S, bind_enter.
  unfold bodies at 1. unfold body at 1. cbv iota beta.
  unfold DatabaseConfigManager_get_db_url.
  erewrite bind_ok;
    [| eapply get_answers;
       [cbn [heap with_trace]; exact Hob | exact Hne | exact Hd
       | right; split; reflexivity]].
  rewrite Hh. cbn [default from_option id]. cbv beta. rewrite Hsh, bind_lift_ok.
  erewrite bind_ok;
    [| eapply get_answers;
       [cbn [heap with_trace]; exact Hob | exact Hne | exact Hd
       | right; split; reflexivity]].
  rewrite Hp. cbn [default from_option id]. cbv beta. rewrite Hsp, bind_lift_ok.
  erewrite bind_ok;
    [| eapply get_answers;
       [cbn [heap with_trace]; exact Hob | exact Hne | exact Hd
       | right; split; reflexivity]].
  rewrite Hn. cbn [default from_option id]. cbv beta. rewrite Hsn, bind_lift_ok. reflexivity.
Qed.

(** X16.  In any environment whose [MAX_CONN] and [DB_PORT], where set,
    are numbers, the first [DatabaseConfigManager()] returns a new
    object, registers it and prints the two announcements; its
    configuration holds the three database settings on top of the three
    basic ones, each taken from the environment when the variable is set
    and from the default otherwise; [get] answers from that dictionary,
    with the default for any other key; and [get_db_url] assembles host,
    port and name. *)
Theorem database_configuration_follows_the_environment st m p :
  Singleton.instances st !! DatabaseConfigManager = None →
  py_int (default "10" (environ (Singleton.world_of st) !! "MAX_CONN"))
    = Ok m →
  py_int (default "5432" (environ (Singleton.world_of st) !! "DB_PORT"))
    = Ok p →
  let w := Singleton.world_of st in
  let env := environ w in
  let o := next_id w in
  let r := make DatabaseConfigManager st in
  let w' := Singleton.world_of r.2 in
  let cfg := db_config env p ∪ base_config env m in
  r.1 = Ok o ∧
  Singleton.instances r.2 !! DatabaseConfigManager = Some o ∧
  stdout w' = announced w ∧
  config_of w' o = Some cfg ∧
  (∀ k dflt,
     (call o "get" [VStr k; dflt] w').1 = Ok (default dflt (cfg !! k)) ∧
     (call o "get" [VStr k] w').1 = Ok (default VNone (cfg !! k))) ∧
  (call o "get_db_url" [] w').1 =
    Ok (VStr ("postgresql://" +:+ default "localhost" (env !! "DB_HOST")
              +:+ ":" +:+ pretty p +:+ "/"
              +:+ default "myapp" (env !! "DB_NAME"))).
Proof.
  intros Ereg Hm Hp w env o r w' cfg. subst r w'. unfold make.
  rewrite SingletonFacts.SingletonMeta_call_unfold.
  erewrite SingletonFacts.get_instance_miss;
    [| exact Ereg | by apply DatabaseConfigManager_call].
  cbn [fst snd Singleton.world_of Singleton.instances].
  fold w env o cfg.
  set (w' := mk_world _ _ _ _ _ _ _).
  assert (Hob : heap w' !! o =
                Some (mk_object DatabaseConfigManager
                        (<["_config" := VDict cfg]> ∅))).
  { subst w'. cbn [heap]. apply lookup_insert_eq. }
  split; [done |]. split; [apply lookup_insert_eq |].
  split; [done |]. split; [| split].
  - unfold config_of. rewrite Hob. cbn [ob_dict].
    by rewrite lookup_insert_eq.
  - intros k dflt. unfold call, call_method, call_depth. split.
    + erewrite get_answers;
        [reflexivity | exact Hob | done | apply lookup_insert_eq | by left].
    + erewrite get_answers;
        [reflexivity | exact Hob | done | apply lookup_insert_eq
        | by right].
  - eapply get_db_url_answers;
      [exact Hob | done | apply lookup_insert_eq | ..];
      reflexivity.
Qed.

(** X17.  A value of [MAX_CONN] or [DB_PORT] that is not a number makes
    [DatabaseConfigManager()] fail with the exception of [int], after
    both announcements have been printed; the class is not registered,
    and the object is left behind without the database settings: without
    any configuration when [MAX_CONN] is at fault, with the three basic
    settings when [DB_PORT] is. *)
Theorem malformed_number_fails_construction st e :
  Singleton.instances st !! DatabaseConfigManager = None →
  let w := Singleton.world_of st in
  let r := make DatabaseConfigManager st in
  let w' := Singleton.world_of r.2 in
  (py_int (default "10" (environ w !! "MAX_CONN")) = Raise e →
   r.1 = Raise e ∧
   Singleton.instances r.2 = Singleton.instances st ∧
   stdout w' = announced w ∧
   config_of w' (next_id w) = None) ∧
  (∀ m,
     py_int (default "10" (environ w !! "MAX_CONN")) = Ok m →
     py_int (default "5432" (environ w !! "DB_PORT")) = Raise e →
     r.1 = Raise e ∧
     Singleton.instances r.2 = Singleton.instances st ∧
     stdout w' = announced w ∧
     config_of w' (next_id w) = Some (base_config (environ w) m)).
Proof.
  intros Ereg w r w'. subst r w'. unfold make.
  rewrite SingletonFacts.SingletonMeta_call_unfold. split.
  - intros Hm.
    destruct (DatabaseConfigManager_call_bad_MAX_CONN w e Hm)
      as (w1 & Hc & Hout & Hob).
    erewrite SingletonFacts.get_instance_miss_raise;
      [| exact Ereg | exact Hc].
    cbn [fst snd Singleton.world_of Singleton.instances].
    repeat split; try done. unfold config_of. by rewrite Hob.
  - intros m Hm Hp.
    destruct (DatabaseConfigManager_call_bad_DB_PORT w m e Hm Hp)
      as (w1 & Hc & Hout & Hob).
    erewrite SingletonFacts.get_instance_miss_raise;
      [| exact Ereg | exact Hc].
    cbn [fst snd Singleton.world_of Singleton.instances].
    repeat split; try done. unfold config_of. rewrite Hob. cbn [ob_dict].
    by rewrite lookup_insert_eq.
Qed.

End ConfigurationFacts.

(** ** More on the [__new__]-based singleton *)

Module NewPitfallMore.
Import Py PyFacts Config ConfigFacts NewPitfall NewPitfallFacts
  NewPitfallAccess.

Local Abbreviation W := (world cls).
Implicit Types (w : W) (p : process) (o : nat).

(** The first call when the configuration cannot be loaded: the object
    is allocated and published, then [_load_config] raises. *)
Definition after_failed_call (w : W) : W :=
  mk_world (<[next_id w := mk_object ConfigManager ∅]> (heap w))
           (S (next_id w)) (stdout w) (environ w) (rng w) (draws w)
           (trace w ++ [(ConfigManager, "__new__");
                        (ConfigManager, "_load_config")]).

Lemma call_without_instance_fails w e :
  py_int (default "10" (environ w !! "MAX_CONN")) = Raise e →
  ConfigManager_call (loaded w) =
  (Raise e, mk_process (Some (next_id w)) (after_failed_call w)).
Proof.
  intros He.
  unfold ConfigManager_call, ConfigManager___new__.
  erewrite bind_raised; [reflexivity |].
  erewrite bind_ok; [| reflexivity].
  erewrite bind_ok; [| reflexivity].
  erewrite bind_raised; [reflexivity |].
  cbn [_instance loaded].
  erewrite bind_ok; [| reflexivity].
  erewrite bind_ok; [| reflexivity].
  erewrite bind_ok; [| reflexivity].
  cbn [_instance].
  erewrite bind_raised; [reflexivity |].
  unfold ConfigManager__load_config, in_world.
  rewrite bind_enter. unfold load_config.
  erewrite bind_raised;
    [| rewrite config_display_result; cbn [environ with_trace world_of loaded];
       rewrite He; reflexivity].
  unfold after_failed_call, with_trace. cbn. by rewrite <- app_assoc.
Qed.

Lemma get_of_object p o ob key dflt :
  heap (world_of p) !! o = Some ob →
  (ConfigManager_get o key dflt p).1 =
  match ob_dict ob !! "_config" with
  | Some (VDict d) =>
      match key with
      | VStr k => Ok (default dflt (d !! k))
      | VList _ | VDict _ => Raise TypeError
      | _ => Ok dflt
      end
  | _ => Raise (AttributeError "get")
  end.
Proof.
  intros Hob. unfold ConfigManager_get, in_world.
  rewrite bind_enter. unfold bind, self__config. cbn [heap with_trace].
  rewrite Hob.
  destruct (ob_dict ob !! "_config") as [[| | | | |d]|]; try reflexivity.
  by destruct key.
Qed.

Local Ltac count_new_entries :=
  unfold entries;
  cbn [world_of after_later_call after_failed_call trace];
  rewrite ?filter_app, ?length_app;
  repeat match goal with
  | |- context [length (filter ?P (?a :: ?l))] =>
      let v := eval vm_compute in (length (filter P (a :: l))) in
      change (length (filter P (a :: l))) with v
  end;
  lia.

(** X18.  When [MAX_CONN] is not a number, the first [ConfigManager()]
    raises the exception of [int], but only after [__new__] has stored
    the new object in [_instance]: [__init__] has not run and nothing is
    printed.  The next call finds that object, returns it after running
    [__init__], and does not load the configuration again; every [get]
    on it then fails with [AttributeError], the class attribute
    [_config] still being [None]. *)
Theorem failed_load_leaves_a_half_built_singleton w e :
  py_int (default "10" (environ w !! "MAX_CONN")) = Raise e →
  let o := next_id w in
  let r1 := ConfigManager_call (loaded w) in
  let r2 := ConfigManager_call r1.2 in
  r1.1 = Raise e ∧
  _instance r1.2 = Some o ∧
  stdout (world_of r1.2) = stdout w ∧
  entries "__init__" (world_of r1.2) = entries "__init__" w ∧
  r2.1 = Ok (Some o) ∧
  entries "__init__" (world_of r2.2) = entries "__init__" w + 1 ∧
  entries "_load_config" (world_of r2.2) = entries "_load_config" w + 1 ∧
  ∀ key dflt,
    (ConfigManager_get o key dflt r2.2).1 = Raise (AttributeError "get").
Proof.
  intros He o r1 r2. subst r1 r2 o.
  rewrite (call_without_instance_fails w e He). cbn [fst snd].
  rewrite (call_with_instance
             (mk_process (Some (next_id w)) (after_failed_call w))
             (next_id w) eq_refl).
  cbn [fst snd world_of _instance].
  split; [done |]. split; [done |]. split; [done |].
  split; [count_new_entries |]. split; [done |].
  split; [count_new_entries |]. split; [count_new_entries |].
  intros key dflt. erewrite get_of_object;
    [| cbn [world_of after_later_call after_failed_call heap];
       apply lookup_insert_eq].
  reflexivity.
Qed.

Lemma later_calls_keep_heap n : ∀ p o,
  _instance p = Some o →
  ∃ p',
    calls n p = (Ok (replicate n (Some o)), p') ∧
    heap (world_of p') = heap (world_of p).
Proof.
  induction n as [| n IH]; intros p o E.
  - by exists p.
  - pose proof (call_with_instance p o E) as Hcall.
    destruct (IH (mk_process (Some o) (after_later_call (world_of p))) o
                 eq_refl) as (p' & Hrest & Hheap).
    exists p'. split; [| exact Hheap].
    cbn [calls replicate].
    by rewrite (bind_ok _ _ _ _ _ Hcall), (bind_ok _ _ _ _ _ Hrest).
Qed.

(** X19.  When the configuration loads, [get] on the singleton answers
    from the dictionary built on the first call: the value stored under
    a key of type [str], the default for a key that is missing or is
    not a string, and [TypeError] for a list or a dictionary as key;
    calls of [ConfigManager()] in between change none of the answers. *)
Theorem get_answers_from_the_first_load (n : nat) w z :
  py_int (default "10" (environ w !! "MAX_CONN")) = Ok z →
  ∃ p',
    calls (S n) (loaded w) = (Ok (replicate (S n) (Some (next_id w))), p') ∧
    ∀ key dflt,
      (ConfigManager_get (next_id w) key dflt p').1 =
      match key with
      | VStr k => Ok (default dflt (loaded_config w z !! k))
      | VList _ | VDict _ => Raise TypeError
      | _ => Ok dflt
      end.
Proof.
  intros Hz.
  pose proof (call_without_instance w z Hz) as Hfirst.
  destruct (later_calls_keep_heap n
              (mk_process (Some (next_id w))
                          (after_first_call w (loaded_config w z)))
              (next_id w) eq_refl) as (p' & Hrest & Hheap).
  exists p'. split.
  - cbn [calls replicate].
    by rewrite (bind_ok _ _ _ _ _ Hfirst), (bind_ok _ _ _ _ _ Hrest).
  - intros key dflt. erewrite get_of_object;
      [| rewrite Hheap; cbn [world_of after_first_call heap];
         apply lookup_insert_eq].
    cbn [ob_dict]. by rewrite lookup_insert_eq.
Qed.

End NewPitfallMore.

(* ===================================================================== *)
(** * The programs of the repository as instances *)
(* ===================================================================== *)

Module Instances.
Import Py.

(** A process with the given environment that has printed nothing and
    allocated nothing; the generator always draws zero. *)
Definition process_with {C} (env : gmap string string) : world C :=
  fresh_world env (λ _, 0).

(** ** Two threads and [class Database: pass] *)

Section Database.
Import ThreadSafety ThreadSafetyFacts.

Definition two_callers : system (C := cls) :=
  start [[]; []] ∅ (process_with ∅).

(** Both threads pass the first test, then run to the end one after
    the other. *)
Definition both_past_the_test : list nat :=
  [0; 1; 0; 0; 0; 0; 0; 0; 0; 1; 1; 1; 1].

Lemma Database_constructor_returns (a : list value) (w : world cls) :
  a ∈ [[]; []] →
  ∃ o w', Singleton.type_call Database_init Database a w = (Ok o, w').
Proof.
  rewrite !elem_of_cons, elem_of_nil. intros [-> | [-> | []]];
    by eexists _, _.
Qed.

Lemma lock_guarded_two_callers :
  2 ≤ length [[]; [] : list value] ∧
  (∅ : gmap cls nat) !! Database = None ∧
  ∃ s,
    run (safe_action Database_init Database) both_past_the_test
        two_callers = Some s ∧
    all_finished s = true ∧
    built (shared_of s) = 1 ∧
    length (threads s) = 2 ∧
    ∃ o, instances (shared_of s) !! Database = Some o ∧
         Forall (λ t, at_pc t = Returned o) (threads s).
Proof.
  split; [cbn; lia |]. split; [reflexivity |].
  destruct (run (safe_action Database_init Database) both_past_the_test
                two_callers) as [s|] eqn:Hrun; [| by vm_compute in Hrun].
  exists s. split; [reflexivity |].
  assert (Hfin : all_finished s = true).
  { vm_compute in Hrun. injection Hrun as <-. reflexivity. }
  split; [exact Hfin |].
  refine (proj1 (lock_guarded_singleton_constructs_once
                   Database_init Database [[]; []]
                   Database_constructor_returns ∅ (process_with ∅)
                   (safe_action Database_init Database)
                   _ eq_refl (or_introl eq_refl)) s _ Hfin).
  - cbn. lia.
  - by apply run_rtc with both_past_the_test.
Defined.

(** The race of the unguarded decorator: thread 0 stores its object
    while thread 1, which has passed the test as well, is still on its
    way; thread 1 then stores another one. *)
Definition first_store_done : list nat := [0; 1; 0; 0; 0; 1; 1].

Lemma unguarded_decorator_replaces_instance :
  ¬ (∀ s s' o,
       rtc (step (unsafe_action Database_init Database)) two_callers s →
       step (unsafe_action Database_init Database) s s' →
       instances (shared_of s) !! Database = Some o →
       instances (shared_of s') !! Database = Some o).
Proof.
  intros Hkeeps.
  destruct (run (unsafe_action Database_init Database) first_store_done
                two_callers) as [s1|] eqn:Hrun1; [| by vm_compute in Hrun1].
  destruct (sched (unsafe_action Database_init Database) 1 s1)
    as [s2|] eqn:Hstep;
    [| vm_compute in Hrun1; injection Hrun1 as <-;
       by vm_compute in Hstep].
  specialize (Hkeeps s1 s2 0 (run_rtc _ _ _ _ Hrun1)
                     (ex_intro _ 1 Hstep)).
  vm_compute in Hrun1. injection Hrun1 as <-.
  vm_compute in Hstep. injection Hstep as <-.
  specialize (Hkeeps eq_refl). vm_compute in Hkeeps. discriminate Hkeeps.
Qed.

(** Under the lock the same start never loses an entry: here the step
    that follows the store of thread 0. *)
Definition stored_by_first : list nat := [0; 0; 0; 0; 0; 0].

Lemma guarded_decorator_keeps_instance :
  ∃ s s',
    run (safe_action Database_init Database) stored_by_first two_callers
      = Some s ∧
    sched (safe_action Database_init Database) 0 s = Some s' ∧
    instances (shared_of s) !! Database = Some 0 ∧
    instances (shared_of s') !! Database = Some 0.
Proof.
  destruct (run (safe_action Database_init Database) stored_by_first
                two_callers) as [s|] eqn:Hrun; [| by vm_compute in Hrun].
  destruct (sched (safe_action Database_init Database) 0 s)
    as [s'|] eqn:Hstep;
    [| vm_compute in Hrun; injection Hrun as <-; by vm_compute in Hstep].
  exists s, s'. split; [reflexivity |]. split; [exact Hstep |].
  assert (Ho : instances (shared_of s) !! Database = Some 0).
  { vm_compute in Hrun. injection Hrun as <-. reflexivity. }
  split; [exact Ho |].
  exact (proj1 (proj2 (proj2
           (registered_instance_is_never_replaced Database_init Database)))
           (safe_action Database_init Database) [[]; []] ∅
           (process_with ∅) s s' Database 0 (or_introl eq_refl)
           (run_rtc _ _ _ _ Hrun) (ex_intro _ 0 Hstep) Ho).
Defined.
End Database.

(** ** The configuration managers of metaclass_example.py *)

Section ConfigManagers.
Import Singleton SingletonFacts MetaclassExample MetaclassExampleFacts.

Definition plain : world cls := process_with ∅.

(** [MAX_CONN] is set to something that is not a number. *)
Definition broken : world cls := process_with {["MAX_CONN" := "abc"]}.

Lemma ConfigManager_three_calls :
  instances (initial plain) !! ConfigManager = None ∧
  (type_call init ConfigManager [] plain).1 = Ok 0 ∧
  (call_seq (get_instance init ConfigManager) [[]; []; []]
            (initial plain)).1 = Ok [0; 0; 0] ∧
  (call_seq (SingletonMeta___call__ init ConfigManager) [[]; []; []]
            (initial plain)).1 = Ok [0; 0; 0] ∧
  built (call_seq (get_instance init ConfigManager) [[]; []; []]
                  (initial plain)).2 = [ConfigManager].
Proof.
  assert (Hc : type_call init ConfigManager [] plain
               = (Ok 0, (type_call init ConfigManager [] plain).2)).
  { vm_compute. reflexivity. }
  destruct (accessor_constructs_once_and_returns_first_instance
              init ConfigManager [] [[]; []] (initial plain) 0 _
              eq_refl Hc) as ((_ & Hdec) & (_ & Hmeta) & _).
  split; [reflexivity |]. split; [vm_compute; reflexivity |].
  rewrite Hdec, Hmeta. by repeat split.
Defined.

Lemma ConfigManager_failed_call :
  instances (initial broken) !! ConfigManager = None ∧
  (type_call init ConfigManager [] broken).1 = Raise ValueError ∧
  (get_instance init ConfigManager [] (initial broken)).1
    = Raise ValueError ∧
  instances (get_instance init ConfigManager [] (initial broken)).2 = ∅ ∧
  ∃ s2,
    ThreadSafety.run (ThreadSafety.safe_action init ConfigManager)
      (replicate 5 1)
      (ThreadSafety.mk_system
         [ThreadSafety.mk_thread [] (ThreadSafety.Raised ValueError);
          ThreadSafety.mk_thread [] ThreadSafety.AtCheck]
         (ThreadSafety.mk_shared ∅ false 1
            (type_call init ConfigManager [] broken).2)) = Some s2 ∧
    ThreadSafety.instances (ThreadSafety.shared_of s2) = ∅ ∧
    ThreadSafety.built (ThreadSafety.shared_of s2) = 2.
Proof.
  assert (Hc : type_call init ConfigManager [] broken
               = (Raise ValueError,
                  (type_call init ConfigManager [] broken).2)).
  { vm_compute. reflexivity. }
  pose proof (ThreadSafetyFacts.failed_construction_publishes_nothing
                init ConfigManager) as [Hseq Hthr].
  destruct (Hseq (initial broken) [] ValueError _ eq_refl Hc)
    as (Hraise & Hreg & _).
  destruct (Hthr [ThreadSafety.mk_thread [] ThreadSafety.AtCheck;
                  ThreadSafety.mk_thread [] ThreadSafety.AtCheck]
                 (ThreadSafety.mk_shared ∅ false 0 broken)
                 0 1 [] [] ValueError _
                 ltac:(cbn; lia) ltac:(cbn; lia) eq_refl eq_refl Hc)
    as (_ & s2 & Hrun & Hinst & Hbuilt).
  split; [reflexivity |]. split; [vm_compute; reflexivity |].
  split; [exact Hraise |]. split; [exact Hreg |].
  exists s2. by repeat split.
Defined.

Lemma empty_environment_defaults :
  environ plain !! "MAX_CONN" = None ∧
  environ plain !! "DB_PORT" = None ∧
  ∃ d db,
    Config.config_display plain = (Ok d, plain) ∧
    Config.db_config_display plain = (Ok db, plain) ∧
    d !! "debug_mode" = Some (VBool false) ∧
    d !! "max_connections" = Some (VInt 10) ∧
    d !! "api_key" = Some VNone ∧
    db !! "db_host" = Some (VStr "localhost") ∧
    db !! "db_port" = Some (VInt 5432) ∧
    db !! "db_name" = Some (VStr "myapp").
Proof.
  destruct (configuration_defaults plain)
    as (Hload & Hcfg & Hdbload & Hdb & _).
  destruct (Hload eq_refl) as [d Hd].
  destruct (Hdbload eq_refl) as [db Hdbd].
  destruct (Hcfg d plain Hd) as (H1 & H2 & H3).
  destruct (Hdb db plain Hdbd) as (H4 & H5 & H6).
  split; [reflexivity |]. split; [reflexivity |].
  exists d, db. repeat split; auto.
Defined.
End ConfigManagers.

(** ** The [__new__]-based singleton of 01_new_pitfall.py *)

Section NewPitfall.
Import NewPitfall NewPitfallFacts.

Lemma ConfigManager_called_twice :
  py_int (default "10" (environ (process_with (C := cls) ∅) !! "MAX_CONN"))
    = Ok 10%Z ∧
  ∃ p',
    calls 2 (loaded (process_with ∅)) = (Ok [Some 0; Some 0], p') ∧
    entries "__init__" (world_of p') = 2 ∧
    entries "_load_config" (world_of p') = 1 ∧
    length (stdout (world_of p')) = 2.
Proof.
  assert (Hz : py_int (default "10"
                 (environ (process_with (C := cls) ∅) !! "MAX_CONN"))
               = Ok 10%Z) by reflexivity.
  split; [exact Hz |].
  destruct (new_singleton_reruns_init 1 (process_with ∅) 10%Z Hz)
    as (p' & Hcalls & _ & Hinit & Hload & Hout).
  exists p'. split; [exact Hcalls |]. rewrite Hinit, Hload, Hout.
  by repeat split.
Defined.
End NewPitfall.

(** ** [Logger] and [FileLogger] under the metaclass *)

Section Loggers.
Import Singleton SingletonFacts DecoratorSubclassing
  DecoratorSubclassingFacts.

(** The state after the three calls of the demonstration. *)
Definition after_demo : store (C := cls) :=
  (make Logger [VStr "base"]
     (make FileLogger [VStr "other.log"]
        (make FileLogger [VStr "app.log"]
           (initial (process_with ∅))).2).2).2.

Lemma Logger_and_FileLogger_differ :
  (∀ c o args w, next_id w ≤ next_id (init c o args w).2) ∧
  (metaclass_solution_calls (initial (process_with ∅))).1 = Ok (0, 0, 1) ∧
  instances after_demo !! Logger = Some 1 ∧
  instances after_demo !! FileLogger = Some 0 ∧
  1 ≠ 0.
Proof.
  split; [exact init_allocates |].
  split; [vm_compute; reflexivity |].
  assert (H1 : instances after_demo !! Logger = Some 1)
    by (vm_compute; reflexivity).
  assert (H2 : instances after_demo !! FileLogger = Some 0)
    by (vm_compute; reflexivity).
  split; [exact H1 |]. split; [exact H2 |].
  refine (proj1 (metaclass_keeps_one_instance_per_class init init_allocates)
                after_demo Logger FileLogger 1 0 _ _ H1 H2).
  - unfold after_demo, make. do 3 apply reach_call. apply reach_initial.
  - discriminate.
Defined.
End Loggers.

End Instances.

(* ===================================================================== *)
(** * Further instances *)
(* ===================================================================== *)

Module Examples.
Import Py.

(** ** Pizzas *)

Section Pizzas.
Import AttributeModifyingMixin PizzaFacts.

(** A process whose only object is a deluxe pizza that already has ham
    on it. *)
Definition with_ham : gmap string value := {["toppings" := VList [VStr "ham"]]}.

Definition ham_deluxe : world cls :=
  mk_world {[0 := mk_object DeluxePizza with_ham]} 1 [] ∅ (λ _, 0) 0 [].

Lemma ham_stays_under_the_deluxe_toppings :
  ∃ w', call 2 0 "prepare_pizza" [] ham_deluxe = (Ok VNone, w') ∧
        heap w' = <[0 := topped DeluxePizza with_ham
                           ([VStr "ham"] ++ [VStr "olives"; VStr "cheese";
                                             VStr "pepperoni"])]>
                    (heap ham_deluxe) ∧
        stdout w' = stdout ham_deluxe ++
                    ["Adding olives!"; "Adding cheese!";
                     "Adding pepperoni!"] ∧
        next_id w' = next_id ham_deluxe.
Proof.
  apply (prepare_pizza_appends_to_existing_toppings 0 ham_deluxe 0
           with_ham [VStr "ham"] DeluxePizza);
    [vm_compute; reflexivity | vm_compute; reflexivity | reflexivity].
Defined.

Lemma ham_deluxe_shows_ham :
  (call 1 0 "show_toppings" [] ham_deluxe).1 = Ok (VStr "Toppings: ham").
Proof.
  rewrite (proj1 (show_toppings_joins_or_says_none 0 ham_deluxe 0
                    DeluxePizza with_ham [VStr "ham"] eq_refl
                    ltac:(vm_compute; reflexivity)
                    ltac:(vm_compute; reflexivity)) ["ham"] eq_refl).
  reflexivity.
Defined.

Lemma new_veggie_pizza_is_plain :
  ∃ w1,
    new 1 VeggiePizza ham_deluxe = (Ok 1, w1) ∧
    heap w1 !! 0 = Some (mk_object DeluxePizza with_ham) ∧
    (call 1 1 "show_toppings" [] w1).1 = Ok (VStr "Toppings: none").
Proof.
  destruct (pizzas_do_not_share_toppings 0 ham_deluxe VeggiePizza eq_refl)
    as (w1 & Hnew & Hkeep & Hshow & _).
  exists w1. split; [exact Hnew |]. split; [| exact Hshow].
  rewrite (Hkeep 0 ltac:(discriminate)). vm_compute. reflexivity.
Defined.

Lemma CheeseMixin_alone :
  ∃ w1 w2,
    new 1 CheeseMixin ham_deluxe = (Ok 1, w1) ∧
    call 1 1 "add_cheese" [] w1 = (Raise (AttributeError "toppings"), w2) ∧
    stdout w2 = ["Adding cheese!"].
Proof.
  destruct (mixin_alone_has_no_toppings 0 ham_deluxe CheeseMixin
              "add_cheese" "Adding cheese!")
    as (w1 & w2 & Hnew & _ & Hcall & Hout & _).
  { rewrite !elem_of_cons. right. by left. }
  by exists w1, w2.
Defined.
End Pizzas.

(** ** Animals *)

Section Animals.
Import MixinSimple MixinSimpleFacts.

Definition nowhere : world cls := fresh_world ∅ (λ _, 0).

Lemma Donald_swims :
  ∃ w1 w2,
    new 1 Duck [VStr "Donald"] nowhere = (Ok 0, w1) ∧
    call 1 0 "swim" [] w1 = (Ok (VStr "Donald is swimming."), w2) ∧
    trace w2 = [(Animal, "__init__"); (SwimMixin, "swim")].
Proof.
  destruct (animal_methods_use_the_shared_name 0 nowhere Duck "swim"
              " is swimming." SwimMixin "Donald")
    as (w1 & w2 & Hnew & Hcall & _ & Htrace).
  { cbn [sentences]. rewrite !elem_of_cons. do 3 right. by left. }
  by exists w1, w2.
Defined.

Lemma Fish_cannot_fly :
  has_method Fish "fly" = false ∧
  ∀ o d args,
    heap nowhere !! o = Some (mk_object Fish d) →
    call 1 o "fly" args nowhere = (Raise (AttributeError "fly"), nowhere).
Proof.
  destruct (abilities_come_from_the_listed_mixins 1 nowhere Fish "fly"
              FlyMixin) as (Hiff & Hno & _).
  { rewrite !elem_of_cons. by left. }
  { reflexivity. }
  split; [reflexivity |]. apply Hno.
  cbn [bases]. rewrite !elem_of_cons, elem_of_nil.
  by intros [| [|]].
Defined.
End Animals.

(** ** Constructors *)

Section Constructors.
Import MixinConstructorPitfall ConstructorFacts.

Lemma ClassC_needs_three_arguments :
  ∃ w',
    new 1 ClassC [VStr "c"] (fresh_world ∅ (λ _, 0)) = (Raise TypeError, w') ∧
    trace w' = [(ClassC, "__init__")] ∧
    stdout w' = [].
Proof.
  destruct (wrong_number_of_arguments_raises 0 (fresh_world ∅ (λ _, 0))
              ClassC [VStr "c"])
    as (w' & Hnew & Htrace & Hout & _).
  { discriminate. }
  { cbn. lia. }
  by exists w'.
Defined.
End Constructors.

(** ** Threads *)

Section Threads.
Import ThreadSafety ThreadSafetyFacts ThreadSafetyMore.

Local Abbreviation two_callers := Instances.two_callers.
Local Abbreviation safely := (safe_action Database_init Database).

(** Thread 0 is inside the block, thread 1 waits at the lock. *)
Definition one_inside : list nat := [0; 1; 0; 0].

Lemma second_caller_waits_outside :
  ∃ s t0 t1,
    run safely one_inside two_callers = Some s ∧
    threads s !! 0 = Some t0 ∧ threads s !! 1 = Some t1 ∧
    in_critical t0 = true ∧ in_critical t1 = false ∧
    locked (shared_of s) = true.
Proof.
  destruct (run safely one_inside two_callers) as [s|] eqn:Hrun;
    [| by vm_compute in Hrun].
  destruct (guarded_block_is_mutually_exclusive Database_init Database
              safely [[]; []] ∅ (Instances.process_with ∅) s
              (or_introl eq_refl) (run_rtc _ _ _ _ Hrun))
    as [Hexcl Hlock].
  assert (E0 : threads s !! 0 = Some (mk_thread [] AtSleep)).
  { vm_compute in Hrun. injection Hrun as <-. reflexivity. }
  assert (E1 : threads s !! 1 = Some (mk_thread [] AtAcquire)).
  { vm_compute in Hrun. injection Hrun as <-. reflexivity. }
  exists s, (mk_thread [] AtSleep), (mk_thread [] AtAcquire).
  split; [reflexivity |]. split; [exact E0 |]. split; [exact E1 |].
  split; [reflexivity |].
  split; [exact (Hexcl 0 1 _ _ ltac:(discriminate) E0 E1 eq_refl) |].
  apply Hlock. by exists 0, (mk_thread [] AtSleep).
Defined.

(** Thread 0 runs to its end, then thread 1. *)
Definition one_after_the_other : list nat := replicate 8 0 ++ replicate 2 1.

Lemma two_callers_leave_the_lock_free :
  ∃ s,
    run safely one_after_the_other two_callers = Some s ∧
    all_finished s = true ∧
    locked (shared_of s) = false.
Proof.
  destruct (run safely one_after_the_other two_callers) as [s|] eqn:Hrun;
    [| by vm_compute in Hrun].
  assert (Hfin : all_finished s = true).
  { vm_compute in Hrun. injection Hrun as <-. reflexivity. }
  exists s. split; [reflexivity |]. split; [exact Hfin |].
  exact (proj2 (proj2 (guarded_accessor_finishes_with_lock_free
                         Database_init Database safely [[]; []] ∅
                         (Instances.process_with ∅) (or_introl eq_refl)))
           s (run_rtc _ _ _ _ Hrun) Hfin).
Defined.

Lemma first_caller_returns_the_registered_object :
  ∃ s t,
    run safely (replicate 8 0) two_callers = Some s ∧
    threads s !! 0 = Some t ∧ at_pc t = Returned 0 ∧
    instances (shared_of s) !! Database = Some 0.
Proof.
  destruct (run safely (replicate 8 0) two_callers) as [s|] eqn:Hrun;
    [| by vm_compute in Hrun].
  destruct (guarded_accessor_returns_the_registered_instance
              Database_init Database safely [[]; []] ∅
              (Instances.process_with ∅) s
              (or_introl eq_refl) (run_rtc _ _ _ _ Hrun))
    as (Hret & _ & _).
  assert (E0 : threads s !! 0 = Some (mk_thread [] (Returned 0))).
  { vm_compute in Hrun. injection Hrun as <-. reflexivity. }
  exists s, (mk_thread [] (Returned 0)).
  split; [reflexivity |]. split; [exact E0 |]. split; [reflexivity |].
  exact (Hret 0 _ 0 E0 eq_refl).
Defined.

Lemma Database_init_allocates c o args (w : world cls) :
  next_id w ≤ next_id (Database_init c o args w).2.
Proof. unfold Database_init. destruct args; cbn; lia. Qed.

Lemma two_callers_can_get_two_databases :
  ∃ s os,
    run (unsafe_action Database_init Database) (everyone_tests_first 2)
        two_callers = Some s ∧
    threads s = zip_with (λ a o, mk_thread a (Returned o)) [[]; []] os ∧
    length os = 2 ∧ NoDup os ∧
    built (shared_of s) = 2 ∧
    instances (shared_of s) !! Database = last os.
Proof.
  apply (unguarded_accessor_builds_one_instance_per_thread
           Database_init Database Database_init_allocates
           [[]; []] ∅ (Instances.process_with ∅));
    [reflexivity | intros a w; apply Instances.Database_constructor_returns].
Defined.

Lemma lone_caller_of_two :
  ∃ k sh',
    k ≤ 5 ∧
    run (unsafe_action Database_init Database) (replicate k 1)
        two_callers =
    Some (mk_system (<[1 := mk_thread [] (Returned 0)]> (threads two_callers))
                    sh') ∧
    instances sh' !! Database = Some 0.
Proof.
  destruct (uninterrupted_call_agrees_with_plain_decorator
              Database_init Database (threads two_callers)
              (shared_of two_callers) 1 [] ltac:(cbn; lia))
    as [(k & sh' & Hk & Hrun & Hinst & _) _].
  exists k, sh'. split; [exact Hk |]. split; [exact Hrun |].
  rewrite Hinst. vm_compute. reflexivity.
Defined.
End Threads.

(** ** Subclassing *)

Section Subclassing.
Import Singleton DecoratorSubclassing SubclassingFacts.

Lemma other_log_is_ignored :
  let st := initial (Instances.process_with ∅) in
  let r1 := make FileLogger [VStr "app.log"] st in
  make FileLogger [VStr "other.log"] r1.2 = (Ok 0, r1.2) ∧
  stdout (world_of r1.2) = ["Created FileLogger(app.log)"].
Proof.
  destruct (second_call_ignores_its_arguments
              (initial (Instances.process_with ∅))
              (VStr "app.log") (VStr "other.log") "app.log"
              eq_refl eq_refl)
    as (_ & _ & Hout & Hsecond).
  split; [exact Hsecond | exact Hout].
Defined.

End Subclassing.

(** ** Configuration *)

Section Configuration.
Import Singleton MetaclassExample ConfigurationFacts.

(** A process configured for a database on another host. *)
Definition staging : world cls :=
  Instances.process_with
    {["DB_HOST" := "db.internal"; "DB_PORT" := " 6543 ";
      "MAX_CONN" := "25"; "DEBUG" := "TRUE"]}.

Lemma staging_database_url :
  let r := make DatabaseConfigManager (initial staging) in
  r.1 = Ok 0 ∧
  (call 0 "get_db_url" [] (world_of r.2)).1
    = Ok (VStr "postgresql://db.internal:6543/myapp") ∧
  (call 0 "get" [VStr "debug_mode"] (world_of r.2)).1 = Ok (VBool true) ∧
  (call 0 "get" [VStr "max_connections"] (world_of r.2)).1
    = Ok (VInt 25) ∧
  (call 0 "get" [VStr "timeout"; VInt 30] (world_of r.2)).1
    = Ok (VInt 30).
Proof.
  destruct (database_configuration_follows_the_environment
              (initial staging) 25 6543 eq_refl
              ltac:(vm_compute; reflexivity) ltac:(vm_compute; reflexivity))
    as (Hr & _ & _ & _ & Hget & Hurl).
  split; [exact Hr |]. split; [exact Hurl |].
  split; [exact (proj2 (Hget "debug_mode" VNone)) |].
  split; [exact (proj2 (Hget "max_connections" VNone)) |].
  exact (proj1 (Hget "timeout" (VInt 30))).
Defined.

(** [DB_PORT] is set to a name, not a number. *)
Definition bad_port : world cls :=
  Instances.process_with {["DB_PORT" := "default"]}.

Lemma bad_port_registers_nothing :
  let r := make DatabaseConfigManager (initial bad_port) in
  r.1 = Raise ValueError ∧
  instances r.2 = ∅ ∧
  length (stdout (world_of r.2)) = 2.
Proof.
  destruct (malformed_number_fails_construction (initial bad_port)
              ValueError eq_refl) as [_ Hport].
  destruct (Hport 10%Z ltac:(vm_compute; reflexivity)
                  ltac:(vm_compute; reflexivity))
    as (Hr & Hinst & Hout & _).
  split; [exact Hr |]. split; [exact Hinst |]. by rewrite Hout.
Defined.
End Configuration.

(** ** The [__new__]-based singleton *)

Section NewPitfall.
Import NewPitfall NewPitfallFacts NewPitfallAccess NewPitfallMore.

Definition bad_limit : world cls :=
  Instances.process_with {["MAX_CONN" := "many"]}.

Lemma second_call_returns_the_unloaded_object :
  let r1 := ConfigManager_call (loaded bad_limit) in
  let r2 := ConfigManager_call r1.2 in
  r1.1 = Raise ValueError ∧
  r2.1 = Ok (Some 0) ∧
  (ConfigManager_get 0 (VStr "api_key") VNone r2.2).1
    = Raise (AttributeError "get").
Proof.
  destruct (failed_load_leaves_a_half_built_singleton bad_limit ValueError
              ltac:(vm_compute; reflexivity))
    as (H1 & _ & _ & _ & H2 & _ & _ & Hget).
  split; [exact H1 |]. split; [exact H2 |]. apply Hget.
Defined.

Lemma default_limit_is_ten :
  ∃ p',
    calls 3 (loaded (Instances.process_with ∅))
      = (Ok [Some 0; Some 0; Some 0], p') ∧
    (ConfigManager_get 0 (VStr "max_connections") VNone p').1
      = Ok (VInt 10) ∧
    (ConfigManager_get 0 (VStr "timeout") (VInt 30) p').1 = Ok (VInt 30).
Proof.
  assert (Hz : py_int (default "10"
                 (environ (Instances.process_with (C := cls) ∅)
                    !! "MAX_CONN")) = Ok 10%Z) by reflexivity.
  destruct (get_answers_from_the_first_load 2 (Instances.process_with ∅)
              10%Z Hz)
    as (p' & Hcalls & Hget).
  exists p'. split; [exact Hcalls |].
  split; [exact (Hget (VStr "max_connections") VNone) |].
  exact (Hget (VStr "timeout") (VInt 30)).
Defined.
End NewPitfall.

End Examples.
